(** * swaggerize-express-vmt: the route adapter and the scaffolding tool

    A shallow embedding of [lib/expressroutes.js] (both copies found in the
    repository: the older pipeline and the newer one that carries the
    [_expressroutes] pass counter and forwards errors built by [error]) and of
    [bin/lib/create.js].

    Conventions of the embedding:
    - JavaScript strings are [string]; [toLowerCase]/[toUpperCase] act on the
      ASCII letters, which is what HTTP method and header names consist of;
    - a closure returned by a middleware factory is a constructor of
      [Middleware] holding the captured variables, and [run] gives it its
      meaning; the Express router is the list of registration calls made on it;
    - an object whose keys are enumerated with [Object.keys] is an
      insertion-ordered association list ([JsObject]); an object that is only
      indexed is a [gmap];
    - a thrown exception is the [Throw] case of [Result]. *)

From Stdlib Require Import ZArith Lia Ascii.
From stdpp Require Import base option list strings gmap.

Local Open Scope Z_scope.
Set Warnings "-register-all,-clear-no-such-hyp".

(** ** JavaScript strings *)

Module Js.

Definition is_lower (c : ascii) : bool :=
  let n := nat_of_ascii c in (97 <=? n)%nat && (n <=? 122)%nat.

Definition is_upper (c : ascii) : bool :=
  let n := nat_of_ascii c in (65 <=? n)%nat && (n <=? 90)%nat.

Definition upper_char (c : ascii) : ascii :=
  if is_lower c then ascii_of_nat (nat_of_ascii c - 32) else c.

Definition lower_char (c : ascii) : ascii :=
  if is_upper c then ascii_of_nat (nat_of_ascii c + 32) else c.

Fixpoint string_map (f : ascii → ascii) (s : string) : string :=
  match s with
  | EmptyString => EmptyString
  | String c r => String (f c) (string_map f r)
  end.

(** [String.prototype.toUpperCase] and [toLowerCase]. *)
Definition toUpperCase : string → string := string_map upper_char.
Definition toLowerCase : string → string := string_map lower_char.

(** [Array.prototype.join] on an array of strings. *)
Fixpoint join (sep : string) (a : list string) : string :=
  match a with
  | [] => ""
  | [x] => x
  | x :: r => x +:+ sep +:+ join sep r
  end.

(** [Array.prototype.indexOf] on an array of strings (strict equality). *)
Fixpoint indexOf (a : list string) (v : string) : Z :=
  match a with
  | [] => -1
  | x :: r =>
      if String.eqb x v then 0
      else let k := indexOf r v in if k <? 0 then -1 else k + 1
  end.

(** [a.filter((v, i, a) => p(v, i))], the index running from [i]. *)
Fixpoint filter_from (p : string → Z → bool) (i : Z) (a : list string) : list string :=
  match a with
  | [] => []
  | v :: r => if p v i then v :: filter_from p (i + 1) r else filter_from p (i + 1) r
  end.

(** [a.filter((v, i, a) => a.indexOf(v) === i)]. *)
Definition uniq (a : list string) : list string :=
  filter_from (fun v i => indexOf a v =? i) 0 a.

(** [s.startsWith(m)]. *)
Fixpoint startsWith (s m : string) : bool :=
  match m, s with
  | EmptyString, _ => true
  | String c m', String d s' => if Ascii.eqb c d then startsWith s' m' else false
  | String _ _, EmptyString => false
  end.

(** [s.includes(m)]. *)
Fixpoint includes (s m : string) : bool :=
  startsWith s m ||
  match s with
  | EmptyString => false
  | String _ s' => includes s' m
  end.

(** [s.split(', ')]: cut at every leftmost occurrence of a comma followed by a
    space. *)
Fixpoint split_comma_space (s : string) : list string :=
  match s with
  | EmptyString => [""]
  | String "," (String " " r) => "" :: split_comma_space r
  | String c r =>
      match split_comma_space r with
      | h :: t => String c h :: t
      | [] => [String c ""]
      end
  end.

(** [s.split('/')]. *)
Fixpoint split_slash (s : string) : list string :=
  match s with
  | EmptyString => [""]
  | String "/" r => "" :: split_slash r
  | String c r =>
      match split_slash r with
      | h :: t => String c h :: t
      | [] => [String c ""]
      end
  end.

End Js.

(** ** Values, exceptions, requests and responses *)

(** The object built by [error(httpStatusCode, title, description)]. *)
Record HttpError := {
  e_description : string;
  e_name : string;
  e_status : nat;
  e_title : string
}.

Inductive JsVal :=
| JUndefined
| JNull
| JBool (b : bool)
| JNum (n : Z)
| JNaN
| JStr (s : string)
| JObject (fields : list (string * JsVal))
| JError (message : string)            (* new Error(message) *)
| JHttpError (e : HttpError).

(** What [if (v)] and [!v] test. *)
Definition truthy (v : JsVal) : bool :=
  match v with
  | JUndefined | JNull | JNaN => false
  | JBool b => b
  | JNum n => negb (n =? 0)
  | JStr s => negb (String.eqb s "")
  | JObject _ | JError _ | JHttpError _ => true
  end.

Definition falsy (v : JsVal) : bool := negb (truthy v).

Inductive Result (A : Type) :=
| Ok (a : A)
| Throw (e : string).
Arguments Ok {A} a.
Arguments Throw {A} e.

#[global] Instance result_ret : MRet Result := λ A a, Ok a.
#[global] Instance result_bind : MBind Result := λ A B k m,
  match m with
  | Ok a => k a
  | Throw e => Throw e
  end.

(** An uploaded file as multer leaves it on the request. *)
Record File := {
  fieldname : option string;
  buffer : option string;
  file_path : JsVal
}.

(** The request, as far as this layer reads and writes it. [req_method] is one
    of the method names of Node's HTTP parser, in upper case. *)
Record Req := {
  req_method : string;
  req_headers : gmap string string;     (* keys in lower case *)
  req_params : gmap string JsVal;
  req_query : gmap string JsVal;
  req_body : JsVal;
  req_file : option File;
  req_files : option (list File);       (* [None]: not an array *)
  _expressroutes : option nat;          (* [None]: undefined *)
  requiredScopes : option (list string);
  swaggerDefinition : JsVal
}.

Definition set_params (r : Req) (v : gmap string JsVal) : Req :=
  {| req_method := req_method r; req_headers := req_headers r; req_params := v;
     req_query := req_query r; req_body := req_body r; req_file := req_file r;
     req_files := req_files r; _expressroutes := _expressroutes r;
     requiredScopes := requiredScopes r; swaggerDefinition := swaggerDefinition r |}.

Definition set_query (r : Req) (v : gmap string JsVal) : Req :=
  {| req_method := req_method r; req_headers := req_headers r; req_params := req_params r;
     req_query := v; req_body := req_body r; req_file := req_file r;
     req_files := req_files r; _expressroutes := _expressroutes r;
     requiredScopes := requiredScopes r; swaggerDefinition := swaggerDefinition r |}.

Definition set_body (r : Req) (v : JsVal) : Req :=
  {| req_method := req_method r; req_headers := req_headers r; req_params := req_params r;
     req_query := req_query r; req_body := v; req_file := req_file r;
     req_files := req_files r; _expressroutes := _expressroutes r;
     requiredScopes := requiredScopes r; swaggerDefinition := swaggerDefinition r |}.

Definition set_expressroutes (r : Req) (v : option nat) : Req :=
  {| req_method := req_method r; req_headers := req_headers r; req_params := req_params r;
     req_query := req_query r; req_body := req_body r; req_file := req_file r;
     req_files := req_files r; _expressroutes := v;
     requiredScopes := requiredScopes r; swaggerDefinition := swaggerDefinition r |}.

Definition set_requiredScopes (r : Req) (v : option (list string)) : Req :=
  {| req_method := req_method r; req_headers := req_headers r; req_params := req_params r;
     req_query := req_query r; req_body := req_body r; req_file := req_file r;
     req_files := req_files r; _expressroutes := _expressroutes r;
     requiredScopes := v; swaggerDefinition := swaggerDefinition r |}.

Definition set_swaggerDefinition (r : Req) (v : JsVal) : Req :=
  {| req_method := req_method r; req_headers := req_headers r; req_params := req_params r;
     req_query := req_query r; req_body := req_body r; req_file := req_file r;
     req_files := req_files r; _expressroutes := _expressroutes r;
     requiredScopes := requiredScopes r; swaggerDefinition := v |}.

(** Express's [req.header(name)]: the lookup is case-insensitive and the two
    spellings of the referrer header are one. [None] is [undefined]. *)
Definition header (r : Req) (name : string) : option string :=
  let lc := Js.toLowerCase name in
  if String.eqb lc "referer" || String.eqb lc "referrer" then
    match req_headers r !! "referrer" with
    | Some v => if String.eqb v "" then req_headers r !! "referer" else Some v
    | None => req_headers r !! "referer"
    end
  else req_headers r !! lc.

(** [options.api], as far as this layer reads it. *)
Record Api := {
  basePath : option string;
  securityDefinitions : option (gmap string JsVal);
  paths : option (list (string * JsVal))
}.

Definition set_basePath (a : Api) (v : string) : Api :=
  {| basePath := Some v; securityDefinitions := securityDefinitions a; paths := paths a |}.

(** The entry of a validation failure sent by [validateInput]. *)
Record ErrPayload := {
  err_detail : string;
  err_status : nat;
  err_title : string
}.

Inductive Body :=
| BodyText (s : string)                  (* res.sendStatus: the status text *)
| BodyErrors (errors : list ErrPayload)  (* { errors: [...] } *)
| BodyError (error : string)             (* { error: '...' } *)
| BodyJson (api : Api).                  (* res.json(options.api) *)

Record Res := {
  statusCode : nat;
  res_headers : gmap string string;
  sent : list Body                       (* the bodies handed to send, in order *)
}.

(** [res.set(field, value)], on a response that has not been sent: once the
    headers are sent Express throws instead, a state the statements on
    responding middlewares exclude with [sent res = []]. *)
Definition res_set (res : Res) (field value : string) : Res :=
  {| statusCode := statusCode res; res_headers := <[field := value]> (res_headers res);
     sent := sent res |}.

(** [res.status(code)] and the assignment [res.statusCode = code] *)
Definition res_status (res : Res) (code : nat) : Res :=
  {| statusCode := code; res_headers := res_headers res; sent := sent res |}.

(** [res.send(body)], on a response that has not been sent (see [res_set]). *)
Definition res_send (res : Res) (b : Body) : Res :=
  {| statusCode := statusCode res; res_headers := res_headers res; sent := sent res ++ [b] |}.

(** The reason phrases of the status codes this layer sends with [sendStatus]. *)
Definition status_text (code : nat) : string :=
  match code with
  | 405%nat => "Method Not Allowed"
  | _ => ""
  end.

(** [res.sendStatus(code).end()] *)
Definition res_sendStatus (res : Res) (code : nat) : Res :=
  res_send (res_status res code) (BodyText (status_text code)).

(** What a middleware leaves behind: the request and the response as mutated,
    and the argument of its call of [next], [None] when it did not call it
    ([Some JUndefined] is the plain [next()]). *)
Record Outcome := {
  o_req : Req;
  o_res : Res;
  o_next : option JsVal
}.

Definition next (req : Req) (res : Res) : Outcome :=
  {| o_req := req; o_res := res; o_next := Some JUndefined |}.
Definition next_with (req : Req) (res : Res) (v : JsVal) : Outcome :=
  {| o_req := req; o_res := res; o_next := Some v |}.
Definition responded (req : Req) (res : Res) : Outcome :=
  {| o_req := req; o_res := res; o_next := None |}.

(** ** Objects whose keys are enumerated *)

Module JsObject.

(** [o[k]] *)
Fixpoint get {V} (o : list (string * V)) (k : string) : option V :=
  match o with
  | [] => None
  | (k', v) :: r => if String.eqb k' k then Some v else get r k
  end.

(** [o[k] = v]: an existing key keeps its place, a new key goes last. *)
Fixpoint set {V} (o : list (string * V)) (k : string) (v : V) : list (string * V) :=
  match o with
  | [] => [(k, v)]
  | (k', v') :: r => if String.eqb k' k then (k', v) :: r else (k', v') :: set r k v
  end.

(** [Object.keys(o)] *)
Definition keys {V} (o : list (string * V)) : list string := o.*1.

End JsObject.

(** [o[key]] on a value. Only the own fields of an object literal are
    modelled: reading a property of another non-null value gives undefined. *)
Definition get_prop (o : JsVal) (key : string) : Result JsVal :=
  match o with
  | JUndefined | JNull => Throw "TypeError"
  | JObject fields => Ok (default JUndefined (JsObject.get fields key))
  | _ => Ok JUndefined
  end.

(** [o[key] = v] in strict mode. Extra fields of error objects are not kept. *)
Definition set_prop (o : JsVal) (key : string) (v : JsVal) : Result JsVal :=
  match o with
  | JObject fields => Ok (JObject (JsObject.set fields key v))
  | JError _ | JHttpError _ => Ok o
  | _ => Throw "TypeError"
  end.

(** ** Accessor layer: [defaultAccessor], [valueAccessor] *)

Inductive Location := InPath | InQuery | InHeader | InBody | InFormData.

Record Param := {
  p_name : string;
  p_in : Location;
  p_required : bool;
  p_type : option string
}.

(** [req.file || Array.isArray(req.files) && req.files[0]] *)
Inductive FileRef := FileIs (f : File) | FileFalse | FileUndefined.

Definition request_file (req : Req) : FileRef :=
  match req_file req with
  | Some f => FileIs f
  | None =>
      match req_files req with
      | None => FileFalse
      | Some [] => FileUndefined
      | Some (f :: _) => FileIs f
      end
  end.

Definition is_file (param : Param) : bool :=
  match p_type param with
  | Some t => String.eqb t "file"
  | None => false
  end.

(** A pair of accessor functions; both may throw. *)
Record Accessor := {
  acc_get : Req → string → Result JsVal;
  acc_set : Req → string → JsVal → Result Req
}.

(** The two data locations [defaultAccessor] is called with. *)
Inductive DataLoc := LocParams | LocQuery.

(** [defaultAccessor(dataLoc)] *)
Definition defaultAccessor (dataLoc : DataLoc) : Accessor :=
  match dataLoc with
  | LocParams =>
      {| acc_get req key := Ok (default JUndefined (req_params req !! key));
         acc_set req key val := Ok (set_params req (<[key := val]> (req_params req))) |}
  | LocQuery =>
      {| acc_get req key := Ok (default JUndefined (req_query req !! key));
         acc_set req key val := Ok (set_query req (<[key := val]> (req_query req))) |}
  end.

(** [valueAccessor(param, consumes)] *)
Definition valueAccessor (param : Param) (consumes : option (list string)) : Accessor :=
  match p_in param with
  | InPath => defaultAccessor LocParams
  | InQuery => defaultAccessor LocQuery
  | InHeader =>
      {| acc_get req key := Ok (from_option JStr JUndefined (header req key));
         acc_set req key val := Ok req |}
  | InBody =>
      {| acc_get req key := Ok (req_body req);
         acc_set req key val := Ok (set_body req val) |}
  | InFormData =>
      {| acc_get req key :=
           if is_file param then
             match request_file req with
             | FileUndefined => Throw "TypeError"
             | FileFalse => get_prop (req_body req) key
             | FileIs file =>
                 if bool_decide (fieldname file = Some key) then
                   match buffer file with
                   | Some b => Ok (JStr b)
                   | None => Ok (file_path file)
                   end
                 else get_prop (req_body req) key
             end
           else get_prop (req_body req) key;
         acc_set req key val :=
           v ← (if is_file param then get_prop val "value" else Ok val);
           b ← set_prop (req_body req) key v;
           Ok (set_body req b) |}
  end.

(** ** Validator adapter: [makeValidator] *)

(** The error a validate function reports: [name] and [details[i].message]. *)
Record VError := {
  verr_name : option string;
  verr_details : option (list (option string))
}.

Inductive ValidateResult :=
| Invalid (error : VError)
| Valid (newvalue : JsVal).

Record Validator := {
  parameter : Param;
  validate : JsVal → ValidateResult
}.

(** [error.details && error.details[0] && error.details[0].message || 'Validation Error'] *)
Definition detail_of (error : VError) : string :=
  match verr_details error with
  | Some (Some m :: _) => if String.eqb m "" then "Validation Error" else m
  | _ => "Validation Error"
  end.

(** [error.name || 'Bad Request'] *)
Definition title_of (error : VError) : string :=
  match verr_name error with
  | Some n => if String.eqb n "" then "Bad Request" else n
  | None => "Bad Request"
  end.

(** The object [err] as it is when it is sent. *)
Definition validation_error (param : Param) (value : JsVal) (error : VError) : ErrPayload :=
  let err := {| err_detail := detail_of error; err_status := 400; err_title := title_of error |} in
  let err :=
    if negb (String.eqb (p_name param) "")
       && String.eqb (Js.toLowerCase (p_name param)) "content-type"
    then {| err_detail := err_detail err; err_status := 415;
            err_title := "Unsupported Media Type" |}
    else err in
  if p_required param && falsy value
  then {| err_detail := err_detail err; err_status := 400;
          err_title := "Missing Value for Required Header" |}
  else err.

(** [validateInput(req, res, next)], the closure of [makeValidator(validator, consumes)]. *)
Definition validateInput (validator : Validator) (consumes : option (list string))
    (req : Req) (res : Res) : Result Outcome :=
  let param := parameter validator in
  let accessor := valueAccessor param consumes in
  value ← acc_get accessor req (p_name param);
  match validate validator value with
  | Invalid error =>
      let err := validation_error param value error in
      Ok (responded req (res_send (res_status res (err_status err)) (BodyErrors [err])))
  | Valid newvalue =>
      req' ← acc_set accessor req (p_name param) newvalue;
      Ok (next req' res)
  end.

(** ** Authorization adapter: [authorizeFor] *)

(** An entry of a route's security object. The authorize callback is a
    function of its [this] (the security definition), the request and the
    response to the value it hands to its continuation. *)
Record Scheme := {
  scopes : option (list string);
  authorize : option (JsVal → Req → Res → JsVal)
}.

(** [errors.shift()] *)
Definition shift (errors : list JsVal) : JsVal := hd JUndefined errors.

(** [async.some(Object.keys(security), passed, done)], for authorize
    callbacks that call their continuation before they return. [async.some]
    calls the iterator [passed] for every key, in the order of the keys, and
    goes on doing so after a scheme has passed; it calls [done] once: with
    true when the first scheme passes, or with false after the last key when
    none has. [called] is the outcome of [done(true)] once it has been
    called. The result is that outcome, or the one of [done(false)], and the
    request as the iteration leaves it, [req.requiredScopes] being written
    for every scheme with a callback. *)
Fixpoint some_passed (securityDefinitions : option (gmap string JsVal))
    (security : list (string * Scheme)) (errors : list JsVal) (called : option Outcome)
    (req : Req) (res : Res) : Outcome * Req :=
  match security with
  | [] =>
      (match called with
       | Some o => o
       | None => next_with req (res_status res 401) (shift errors)
       end, req)
  | (type, scheme) :: rest =>
      match authorize scheme with
      | Some f =>
          let securityDefinition :=
            match securityDefinitions with
            | Some defs => default JUndefined (defs !! type)
            | None => JUndefined
            end in
          let req := set_requiredScopes req (scopes scheme) in
          let error := f securityDefinition req res in
          if truthy error
          then some_passed securityDefinitions rest (errors ++ [error]) called req res
          else
            some_passed securityDefinitions rest errors
              (Some match called with Some o => o | None => next req res end) req res
      | None =>
          some_passed securityDefinitions rest (errors ++ [JError "Unauthorized."]) called
            req res
      end
  end.

(** [authorize(req, res, next)], the closure of
    [authorizeFor(security, securityDefinitions)]: what it hands to [next]. *)
Definition authorizeFor (security : list (string * Scheme))
    (securityDefinitions : option (gmap string JsVal)) (req : Req) (res : Res) : Outcome :=
  (some_passed securityDefinitions security [] None req res).1.

(** The request as [authorize] leaves it when it returns. *)
Definition authorize_leaves (security : list (string * Scheme))
    (securityDefinitions : option (gmap string JsVal)) (req : Req) (res : Res) : Req :=
  (some_passed securityDefinitions security [] None req res).2.

(** ** Routes, middlewares and the router *)

(** The HTTP verbs the route discovery library derives operations for. *)
Inductive Verb := VGet | VPost | VPut | VDelete | VOptions | VHead | VPatch.

Definition verb_name (v : Verb) : string :=
  match v with
  | VGet => "get" | VPost => "post" | VPut => "put" | VDelete => "delete"
  | VOptions => "options" | VHead => "head" | VPatch => "patch"
  end.

(** A handler function supplied by the application. *)
Definition Fn := Req → Res → Outcome.

(** [route.handler]: a function, or an array of functions of which the last is
    the handler proper; [HArray pre last] is [pre.concat([last])]. *)
Inductive Handler :=
| HFunction (f : Fn)
| HArray (pre : list Fn) (last : Fn).

Record Route := {
  method : Verb;
  path : string;
  handler : Handler;
  validators : list Validator;
  consumes : option (list string);
  produces : option (list string);
  security : option (list (string * Scheme))
}.

Definition set_handler (route : Route) (h : Handler) : Route :=
  {| method := method route; path := path route; handler := h;
     validators := validators route; consumes := consumes route;
     produces := produces route; security := security route |}.

(** The closures this layer hands to the router, each with what it captured. *)
Inductive Middleware :=
| MwDocs (api : Api)
| MwAuthorize (security : list (string * Scheme))
              (securityDefinitions : option (gmap string JsVal))
| MwHandler (f : Fn)
| MwValidateInput (validator : Validator) (consumes : option (list string))
| MwAppendSwaggerDefinitions (routePath : string) (swaggerDefinitions : Api)
| MwNotAllowed (methods : list string)
| MwContentType (consumes : gmap string (list string))
| MwAccept (produces consumes : gmap string (list string)).

(** A call made on the router: [router[method](path, ...chain)] or
    [router.use(pathRegexp(path), ...chain)]. *)
Inductive RouterCall :=
| Register (m : Verb) (path : string) (chain : list Middleware)
| Use (path : string) (chain : list Middleware).

(** The two functions of [swaggerize-routes/lib/utils] this layer calls. *)
Class Utils := {
  prefix : string → string → string;
  unsuffix : string → string → string
}.

(** [s.replace(/{([^}]+)}/g, ':$1')]. [pending] holds the characters read
    since an opening brace that is still waiting for its closing one. *)
Fixpoint replace_params (s : string) (pending : option string) : string :=
  match s, pending with
  | EmptyString, None => ""
  | EmptyString, Some run => "{" +:+ run
  | String c r, None =>
      if Ascii.eqb c "{" then replace_params r (Some "")
      else String c (replace_params r None)
  | String c r, Some run =>
      if Ascii.eqb c "}" then
        if String.eqb run "" then "{}" +:+ replace_params r None
        else ":" +:+ run +:+ replace_params r None
      else replace_params r (Some (run +:+ String c ""))
  end.

Section Registration.
Context `{Utils}.

(** [buildRoutePath(mountpath, path)] *)
Definition buildRoutePath (mountpath path : string) : string :=
  mountpath +:+ prefix (replace_params path None) "/".

(** [makeExpressRoute(router, mountpath, route, securityDefinitions)]: the
    router with the new registration, and the route object as it is left. *)
Definition makeExpressRoute (router : list RouterCall) (mountpath : string)
    (route : Route) (securityDefinitions : option (gmap string JsVal))
  : list RouterCall * Route :=
  let path := buildRoutePath mountpath (path route) in
  let before :=
    match security route with
    | Some sec => [MwAuthorize sec securityDefinitions]
    | None => []
    end in
  let '(before, route) :=
    match handler route with
    | HArray pre last =>
        (if (1 <? Z.of_nat (length (pre ++ [last]))) then before ++ (MwHandler <$> pre)
         else before,
         set_handler route (HFunction last))
    | HFunction _ => (before, route)
    end in
  let validators :=
    (fun v => MwValidateInput v (consumes route)) <$> validators route in
  let before := before ++ validators in
  let chain :=
    before ++ [match handler route with
               | HFunction f => MwHandler f
               | HArray _ last => MwHandler last
               end] in
  (router ++ [Register (method route) path chain], route).

End Registration.

(** ** Cross-route middleware shared by the two pipelines *)

(** [mediaTypes.join("', '")] between the quotes of the error texts. *)
Definition quoted (mediaTypes : list string) : string :=
  "'" +:+ Js.join "', '" mediaTypes +:+ "'".

Definition is_mutating (method : string) : bool :=
  String.eqb method "patch" || String.eqb method "post" || String.eqb method "put".

(** [!req._expressroutes] *)
Definition first_pass (req : Req) : bool :=
  match _expressroutes req with
  | None | Some O => true
  | Some (S _) => false
  end.

(** [routeFilter(route)] *)
Definition routeFilter (route : string) : string :=
  fold_left
    (fun out level =>
       match level with
       | EmptyString => out
       | String c _ =>
           if Ascii.eqb c ":" || Ascii.eqb c "{" then out +:+ "/:x"
           else out +:+ "/" +:+ level
       end)
    (Js.split_slash route) "".

(** [s.replace(pattern, '')] for a string pattern: the first occurrence goes. *)
Fixpoint remove_first (s pattern : string) : string :=
  if Js.startsWith s pattern then String.substring (String.length pattern) (String.length s) s
  else
    match s with
    | EmptyString => EmptyString
    | String c r => String c (remove_first r pattern)
    end.

(** [appendSwaggerDefinitionsToReq(routePath, swaggerDefinitions)], the closure
    the newer pipeline puts first in each group. *)
Definition appendSwaggerDefinitionsToReq (routePath : string) (swaggerDefinitions : Api)
    (req : Req) (res : Res) : Result Outcome :=
  let route :=
    remove_first (routeFilter routePath) (default "undefined" (basePath swaggerDefinitions)) in
  match paths swaggerDefinitions with
  | None => Throw "TypeError"
  | Some paths =>
      let key :=
        filter (fun path =>
                  String.eqb (routeFilter path) route = true
                  ∧ truthy (default JUndefined (JsObject.get paths path)) = true)
               (JsObject.keys paths) in
      let found := default JUndefined (JsObject.get paths (hd "undefined" key)) in
      let swaggerDefinitionForRoute := if truthy found then found else JObject [] in
      definition ← get_prop swaggerDefinitionForRoute (Js.toLowerCase (req_method req));
      Ok (next (set_swaggerDefinition req definition) res)
  end.

(** The registration tables filled by the [routes.forEach] of [expressroutes]. *)
Record Tables := {
  routesMethod : list (string * list string);
  routesConsumes : gmap string (gmap string (list string));
  routesProduces : gmap string (gmap string (list string))
}.

(** The statements on [routesConsumes] (and, alike, on [routesProduces]) for
    one route: create the entries, push the declared media types, filter. *)
Definition record_media (table : gmap string (gmap string (list string)))
    (routePath method : string) (declared : option (list string))
  : gmap string (gmap string (list string)) :=
  let forPath := default ∅ (table !! routePath) in
  let current := default [] (forPath !! method) in
  let pushed :=
    match declared with
    | Some l => if 0 <? Z.of_nat (length l) then current ++ l else current
    | None => current
    end in
  <[routePath := <[method := Js.uniq pushed]> forPath]> table.

Section Tables.
Context `{Utils}.

(** What one round of [routes.forEach] does to the tables. *)
Definition record_route (mountpath : string) (t : Tables) (route : Route) : Tables :=
  let method := Js.toLowerCase (verb_name (method route)) in
  let routePath := buildRoutePath mountpath (path route) in
  {| routesMethod :=
       JsObject.set (routesMethod t) routePath
         (default [] (JsObject.get (routesMethod t) routePath) ++ [method]);
     routesConsumes := record_media (routesConsumes t) routePath method (consumes route);
     routesProduces := record_media (routesProduces t) routePath method (produces route) |}.

(** The whole [routes.forEach]: the router, the tables and the route objects
    as they are left. *)
Fixpoint register_routes (mountpath : string)
    (securityDefinitions : option (gmap string JsVal))
    (routes : list Route) (router : list RouterCall) (t : Tables)
  : list RouterCall * Tables * list Route :=
  match routes with
  | [] => (router, t, [])
  | route :: rest =>
      let '(router, route') := makeExpressRoute router mountpath route securityDefinitions in
      let t := record_route mountpath t route' in
      let '(router, t, rest') := register_routes mountpath securityDefinitions rest router t in
      (router, t, route' :: rest')
  end.

End Tables.

Definition empty_tables : Tables :=
  {| routesMethod := []; routesConsumes := ∅; routesProduces := ∅ |}.

(** [options] of [expressroutes]. *)
Record Options := {
  routes : option (list Route);
  docspath : option string;
  api : Api;
  errorname : option string
}.

(** [x || d] on an optional string. *)
Definition or_default (x : option string) (d : string) : string :=
  match x with
  | Some v => if String.eqb v "" then d else v
  | None => d
  end.

(** What a call of [expressroutes] leaves: the router, the mutated options and
    the module variable [errorName]. *)
Record Mounted := {
  m_router : list RouterCall;
  m_options : Options;
  m_errorName : option string
}.

(** ** The older pipeline *)

Module V1.

(** [buildNotAllowedMiddleware(methods)] *)
Definition buildNotAllowedMiddleware (methods : list string) (req : Req) (res : Res)
  : Outcome :=
  if Js.indexOf methods (Js.toLowerCase (req_method req)) =? -1 then
    let res := res_set res "Allow" (Js.toUpperCase (Js.join ", " methods)) in
    let res := res_sendStatus res 405 in
    next req res
  else next req res.

(** [validateContentTypeHeaderMiddleware(consumes)] *)
Definition validateContentTypeHeaderMiddleware (consumes : gmap string (list string))
    (req : Req) (res : Res) : Outcome :=
  let method := Js.toLowerCase (req_method req) in
  let mediaTypes := default [] (consumes !! method) in
  match header req "content-type" with
  | Some header =>
      if negb (String.eqb header "") && negb (String.eqb header "*/*") then
        if is_mutating (Js.toLowerCase (req_method req)) then
          if Js.indexOf mediaTypes header =? -1 then
            responded req
              (res_send (res_status res 415)
                 (BodyError ("Unsupported header Content-Type '" +:+ header
                             +:+ "' (valid media types: " +:+ quoted mediaTypes +:+ ")")))
          else next req res
        else next req res
      else next req res
  | None => next req res
  end.

(** [validateAcceptHeaderMiddleware(produces, consumes)] *)
Definition validateAcceptHeaderMiddleware (produces consumes : gmap string (list string))
    (req : Req) (res : Res) : Outcome :=
  let method := Js.toLowerCase (req_method req) in
  let mediaTypes :=
    match produces !! method with
    | Some l => l
    | None => default [] (consumes !! method)
    end in
  match header req "accept" with
  | Some header =>
      if negb (String.eqb header "") && negb (String.eqb header "*/*") then
        if Js.indexOf mediaTypes header =? -1 then
          responded req
            (res_send (res_status res 406)
               (BodyError ("Unsupported header Accept '" +:+ header
                           +:+ "' (valid media types: " +:+ quoted mediaTypes +:+ ")")))
        else next req res
      else next req res
  | None => next req res
  end.

Section Mount.
Context `{Utils}.

(** The [router.use] of one key of [routesMethod]. *)
Definition use_group (t : Tables) (routePath : string) : RouterCall :=
  let consumes := default ∅ (routesConsumes t !! routePath) in
  Use routePath
    [MwNotAllowed (default [] (JsObject.get (routesMethod t) routePath));
     MwContentType consumes;
     MwAccept (default ∅ (routesProduces t !! routePath)) consumes].

(** [expressroutes(router, options)] *)
Definition expressroutes (router : list RouterCall) (options : Options) : Mounted :=
  let declared := routes options in
  let routes := default [] declared in
  let docspath := prefix (or_default (docspath options) "/api-docs") "/" in
  let api := set_basePath (api options) (prefix (or_default (basePath (api options)) "/") "/") in
  let mountpath := unsuffix (default "" (basePath api)) "/" in
  let router := router ++ [Register VGet (mountpath +:+ docspath) [MwDocs api]] in
  let '(router, t, routes') :=
    register_routes mountpath (securityDefinitions api) routes router empty_tables in
  let router := router ++ (use_group t <$> JsObject.keys (routesMethod t)) in
  {| m_router := router;
     m_options := {| routes := (match declared with Some _ => Some routes' | None => None end);
                     docspath := Some docspath; api := api;
                     errorname := errorname options |};
     m_errorName := None |}.

End Mount.

(** The meaning of the closures of this pipeline. *)
Definition run (mw : Middleware) (req : Req) (res : Res) : Result Outcome :=
  match mw with
  | MwDocs api => Ok (responded req (res_send res (BodyJson api)))
  | MwAuthorize security defs => Ok (authorizeFor security defs req res)
  | MwHandler f => Ok (f req res)
  | MwValidateInput validator consumes => validateInput validator consumes req res
  | MwAppendSwaggerDefinitions routePath swaggerDefinitions =>
      appendSwaggerDefinitionsToReq routePath swaggerDefinitions req res
  | MwNotAllowed methods => Ok (buildNotAllowedMiddleware methods req res)
  | MwContentType consumes => Ok (validateContentTypeHeaderMiddleware consumes req res)
  | MwAccept produces consumes => Ok (validateAcceptHeaderMiddleware produces consumes req res)
  end.

End V1.

(** ** The newer pipeline *)

Module V2.

(** [error(httpStatusCode, title, description)], reading the module variable
    [errorName]. *)
Definition error (errorName : option string) (httpStatusCode : nat)
    (title description : string) : HttpError :=
  {| e_description := description;
     e_name := or_default errorName "SwaggerizeExpressVmt";
     e_status := httpStatusCode;
     e_title := title |}.

(** [buildNotAllowedMiddleware(methods)] *)
Definition buildNotAllowedMiddleware (errorName : option string) (methods : list string)
    (req : Req) (res : Res) : Outcome :=
  if first_pass req && (Js.indexOf methods (Js.toLowerCase (req_method req)) =? -1) then
    let res := res_set res "Allow" (Js.toUpperCase (Js.join ", " methods)) in
    let res := res_sendStatus res 405 in
    next_with req res
      (JHttpError
         (error errorName 405 "Method Not Allowed"
            ("Method Not Allowed (valid methods: '"
             +:+ Js.toUpperCase (Js.join ", " methods) +:+ "')")))
  else
    let req := if first_pass req then set_expressroutes req (Some 0%nat) else req in
    let req :=
      match _expressroutes req with
      | Some n => set_expressroutes req (Some (S n))
      | None => req
      end in
    next req res.

(** [headers = headers ? headers.split(', ') : []] *)
Definition header_values (h : option string) : list string :=
  match h with
  | Some v => if String.eqb v "" then [] else Js.split_comma_space v
  | None => []
  end.

(** The two nested loops that set [validated]. *)
Definition validated (headers mediaTypes : list string) : bool :=
  fold_left
    (fun validated header =>
       fold_left
         (fun validated mediaType =>
            if Js.includes header mediaType then true else validated)
         mediaTypes validated)
    headers false.

(** [validateContentTypeHeaderMiddleware(consumes)] *)
Definition validateContentTypeHeaderMiddleware (errorName : option string)
    (consumes : gmap string (list string)) (req : Req) (res : Res) : Outcome :=
  let method := Js.toLowerCase (req_method req) in
  let mediaTypes := default [] (consumes !! method) in
  let headers := header_values (header req "content-type") in
  if Js.indexOf headers "*/*" =? -1 then
    if is_mutating (Js.toLowerCase (req_method req)) then
      if first_pass req && negb (validated headers mediaTypes) then
        next_with req res
          (JHttpError
             (error errorName 415 "Unsupported Content-Type header"
                ("Unsupported Content-Type header: '" +:+ Js.join ", " headers
                 +:+ "' (valid media types: " +:+ quoted mediaTypes +:+ ")")))
      else next req res
    else next req res
  else next req res.

(** [validateAcceptHeaderMiddleware(produces, consumes)] *)
Definition validateAcceptHeaderMiddleware (errorName : option string)
    (produces consumes : gmap string (list string)) (req : Req) (res : Res) : Outcome :=
  let method := Js.toLowerCase (req_method req) in
  let mediaTypes :=
    match produces !! method with
    | Some l => l
    | None => default [] (consumes !! method)
    end in
  let headers := header_values (header req "accept") in
  if Js.indexOf headers "*/*" =? -1 then
    if negb (validated headers mediaTypes) then
      next_with req res
        (JHttpError
           (error errorName 406 "Unsupported Accept header"
              ("Unsupported Accept header: '" +:+ Js.join ", " headers
               +:+ "' (valid media types: " +:+ quoted mediaTypes +:+ ")")))
    else next req res
  else next req res.

Section Mount.
Context `{Utils}.

(** The [router.use] of one key of [routesMethod]. *)
Definition use_group (api : Api) (t : Tables) (routePath : string) : RouterCall :=
  let consumes := default ∅ (routesConsumes t !! routePath) in
  Use routePath
    [MwAppendSwaggerDefinitions routePath api;
     MwNotAllowed (default [] (JsObject.get (routesMethod t) routePath));
     MwContentType consumes;
     MwAccept (default ∅ (routesProduces t !! routePath)) consumes].

(** [expressroutes(router, options)]; [errorName] is the module variable as
    the call finds it. *)
Definition expressroutes (errorName : option string) (router : list RouterCall)
    (options : Options) : Mounted :=
  let errorName :=
    match errorname options with
    | Some n => if String.eqb n "" then errorName else Some n
    | None => errorName
    end in
  let declared := routes options in
  let routes := default [] declared in
  let docspath := prefix (or_default (docspath options) "/api-docs") "/" in
  let api := set_basePath (api options) (prefix (or_default (basePath (api options)) "/") "/") in
  let mountpath := unsuffix (default "" (basePath api)) "/" in
  let router := router ++ [Register VGet (mountpath +:+ docspath) [MwDocs api]] in
  let '(router, t, routes') :=
    register_routes mountpath (securityDefinitions api) routes router empty_tables in
  let router := router ++ (use_group api t <$> JsObject.keys (routesMethod t)) in
  {| m_router := router;
     m_options := {| routes := (match declared with Some _ => Some routes' | None => None end);
                     docspath := Some docspath; api := api;
                     errorname := errorname options |};
     m_errorName := errorName |}.

End Mount.

(** The meaning of the closures of this pipeline. *)
Definition run (errorName : option string) (mw : Middleware) (req : Req) (res : Res)
  : Result Outcome :=
  match mw with
  | MwDocs api => Ok (responded req (res_send res (BodyJson api)))
  | MwAuthorize security defs => Ok (authorizeFor security defs req res)
  | MwHandler f => Ok (f req res)
  | MwValidateInput validator consumes => validateInput validator consumes req res
  | MwAppendSwaggerDefinitions routePath swaggerDefinitions =>
      appendSwaggerDefinitionsToReq routePath swaggerDefinitions req res
  | MwNotAllowed methods => Ok (buildNotAllowedMiddleware errorName methods req res)
  | MwContentType consumes =>
      Ok (validateContentTypeHeaderMiddleware errorName consumes req res)
  | MwAccept produces consumes =>
      Ok (validateAcceptHeaderMiddleware errorName produces consumes req res)
  end.

End V2.

(** Express walks the functions of one registration in order: a function
    that calls [next] with a falsy argument hands over to the following one;
    any other outcome ends the walk of this chain. *)
Fixpoint run_chain (run : Middleware → Req → Res → Result Outcome)
    (chain : list Middleware) (req : Req) (res : Res) : Result Outcome :=
  match chain with
  | [] => Ok (next req res)
  | mw :: rest =>
      o ← run mw req res;
      match o_next o with
      | Some v => if truthy v then Ok o else run_chain run rest (o_req o) (o_res o)
      | None => Ok o
      end
  end.

(** ** The scaffolding tool: [bin/lib/create.js] *)

Module Create.

(** An entry of [apis] and its operations, as the tool reads them. *)
Record Operation := {
  op_method : string;
  nickname : string;
  type : string
}.

Record ApiEntry := {
  api_path : string;
  operations : list Operation
}.

(** An element of [route.methods]. *)
Record MethodEntry := {
  me_method : string;
  me_name : string;
  me_output : string
}.

(** The object [route] handed to the handler template. *)
Record HandlerRoute := {
  route_path : string;
  pathname : string;
  methods : list MethodEntry
}.

Definition push_methods (route : HandlerRoute) (more : list MethodEntry) : HandlerRoute :=
  {| route_path := route_path route; pathname := pathname route;
     methods := methods route ++ more |}.

(** The properties every object literal inherits from [Object.prototype]. *)
Definition prototype_keys : list string :=
  ["constructor"; "__proto__"; "hasOwnProperty"; "isPrototypeOf";
   "propertyIsEnumerable"; "toLocaleString"; "toString"; "valueOf";
   "__defineGetter__"; "__defineSetter__"; "__lookupGetter__"; "__lookupSetter__"].

(** The elements of [api.path.split('/')] that are kept:
    [element && element.indexOf('{') < 0]. *)
Definition kept (element : string) : bool :=
  negb (String.eqb element "") && negb (Js.includes element "{").

Definition pathname_of (path : string) : string :=
  Js.join "/" (List.filter kept (Js.split_slash path)).

Definition method_entry (operation : Operation) : MethodEntry :=
  {| me_method := Js.toLowerCase (op_method operation);
     me_name := nickname operation;
     me_output := type operation |}.

(** The route built from one entry of [apis]. *)
Definition route_of (api : ApiEntry) : HandlerRoute :=
  {| route_path := api_path api;
     pathname := pathname_of (api_path api);
     methods := method_entry <$> operations api |}.

(** One round of [apis.forEach]: [routes[route.pathname]] is the route filed
    under that name, or else a member of [Object.prototype], which has no
    [methods] to push to. *)
Definition collect_one (routes : list (string * HandlerRoute)) (api : ApiEntry)
  : Result (list (string * HandlerRoute)) :=
  let route := route_of api in
  match JsObject.get routes (pathname route) with
  | Some filed =>
      Ok (JsObject.set routes (pathname route) (push_methods filed (methods route)))
  | None =>
      if bool_decide (pathname route ∈ prototype_keys) then Throw "TypeError"
      else Ok (JsObject.set routes (pathname route) route)
  end.

Fixpoint collect (routes : list (string * HandlerRoute)) (apis : list ApiEntry)
  : Result (list (string * HandlerRoute)) :=
  match apis with
  | [] => Ok routes
  | api :: rest => routes ← collect_one routes api; collect routes rest
  end.

(** *** [Object.keys]: array indices first, in ascending order *)

Definition digit (c : ascii) : option N :=
  let n := N_of_ascii c in
  if (48 <=? n)%N && (n <=? 57)%N then Some (n - 48)%N else None.

Fixpoint digits_value (s : string) (acc : N) : option N :=
  match s with
  | EmptyString => Some acc
  | String c r =>
      match digit c with
      | Some d => digits_value r (10 * acc + d)%N
      | None => None
      end
  end.

(** The number a key stands for when it is a canonical array index. *)
Definition array_index (s : string) : option N :=
  match s with
  | EmptyString => None
  | String "0" EmptyString => Some 0%N
  | String "0" _ => None
  | _ =>
      match digits_value s 0 with
      | Some n => if (n <? 4294967295)%N then Some n else None
      | None => None
      end
  end.

Fixpoint insert_index (k : N * string) (l : list (N * string)) : list (N * string) :=
  match l with
  | [] => [k]
  | k' :: r => if (k.1 <=? k'.1)%N then k :: l else k' :: insert_index k r
  end.

Definition own_keys {V} (o : list (string * V)) : list string :=
  let indexed :=
    omap (fun k => match array_index k with Some n => Some (n, k) | None => None end)
         (JsObject.keys o) in
  (foldr insert_index [] indexed).*2
  ++ List.filter (fun k => match array_index k with Some _ => false | None => true end)
       (JsObject.keys o).

(** *** The file system and the console *)

(** A normalized path: its segments from the root. *)
Definition FsPath := list string.

Inductive Node :=
| Dir
| File (content : string).

Record World := {
  fs : gmap (list string) Node;
  warned : list (list string)        (* console.warn('%s already exists.', p) *)
}.

(** A computation on the world that may throw; the world is kept either way. *)
Definition Fs (A : Type) : Type := World → Result A * World.

Definition fs_ret {A} (a : A) : Fs A := fun w => (Ok a, w).

Definition fs_bind {A B} (m : Fs A) (k : A → Fs B) : Fs B := fun w =>
  match m w with
  | (Ok a, w') => k a w'
  | (Throw e, w') => (Throw e, w')
  end.

(** [path.join(base, rel)] on a normalized [base]: empty and [.] segments
    vanish, [..] removes the segment before it. *)
Fixpoint resolve (base : list string) (segments : list string) : list string :=
  match segments with
  | [] => base
  | s :: r =>
      if String.eqb s "" || String.eqb s "." then resolve base r
      else if String.eqb s ".." then resolve (removelast base) r
      else resolve (base ++ [s]) r
  end.

Definition path_join (base : list string) (rel : string) : list string :=
  resolve base (Js.split_slash rel).

(** [fs.existsSync(p)] *)
Definition existsSync (p : list string) : Fs bool := fun w =>
  (Ok (bool_decide (is_Some (fs w !! p))), w).

(** [console.warn('%s already exists.', p)] *)
Definition warn (p : list string) : Fs () := fun w =>
  (Ok (), {| fs := fs w; warned := warned w ++ [p] |}).

(** What stands in the way of creating an entry at [p]: the entry that is
    there, or a parent that is not a directory. *)
Definition blocked (w : World) (p : list string) : option string :=
  match fs w !! removelast p with
  | Some Dir => None
  | Some (File _) => Some "ENOTDIR"
  | None => Some "ENOENT"
  end.

(** [fs.mkdirSync(p)], which creates one directory and not its parents. *)
Definition mkdirSync (p : list string) : Fs () := fun w =>
  match fs w !! p with
  | Some _ => (Throw "EEXIST", w)
  | None =>
      match blocked w p with
      | Some e => (Throw e, w)
      | None => (Ok (), {| fs := <[p := Dir]> (fs w); warned := warned w |})
      end
  end.

(** [fs.writeFileSync(p, content)] *)
Definition writeFileSync (p : list string) (content : string) : Fs () := fun w =>
  match fs w !! p with
  | Some Dir => (Throw "EISDIR", w)
  | _ =>
      match blocked w p with
      | Some e => (Throw e, w)
      | None => (Ok (), {| fs := <[p := File content]> (fs w); warned := warned w |})
      end
  end.

Section Handlers.
(** [lodash.template(template, route)] for the handler template. *)
Variable render : HandlerRoute → string.

(** The body of [Object.keys(routes).forEach] for one route. *)
Definition write_handler (handlersPath : list string) (route : HandlerRoute) : Fs () :=
  let pathnames := Js.split_slash (pathname route) in
  let file := path_join handlersPath (List.last pathnames "undefined" +:+ ".js") in
  fs_bind
    (if 1 <? Z.of_nat (length pathnames) then
       let dir := path_join handlersPath (Js.join "/" (removelast pathnames)) in
       fs_bind (existsSync dir) (fun there =>
       fs_bind (if there then warn dir else mkdirSync dir) (fun _ =>
       fs_ret (path_join handlersPath (Js.join "/" pathnames +:+ ".js"))))
     else fs_ret file)
    (fun file =>
       fs_bind (existsSync file) (fun there =>
       if there then warn file else writeFileSync file (render route))).

Fixpoint write_handlers (handlersPath : list string) (routes : list HandlerRoute) : Fs () :=
  match routes with
  | [] => fs_ret ()
  | route :: rest =>
      fs_bind (write_handler handlersPath route) (fun _ => write_handlers handlersPath rest)
  end.

(** [createHandlers(apis, handlersPath)] *)
Definition createHandlers (apis : list ApiEntry) (handlersPath : list string) : Fs () :=
  fun w =>
    match collect [] apis with
    | Throw e => (Throw e, w)
    | Ok routes =>
        write_handlers handlersPath
          (omap (fun routePath => JsObject.get routes routePath) (own_keys routes)) w
    end.

End Handlers.

Section Models.
Variable Model : Type.
(** [lodash.template(template, model)] for the model template. *)
Variable render_model : Model → string.

(** The body of [Object.keys(models).forEach] for one model. *)
Definition write_model (modelsPath : list string) (entry : string * Model) : Fs () :=
  let fileName := path_join modelsPath (Js.toLowerCase entry.1 +:+ ".js") in
  fs_bind (existsSync fileName) (fun there =>
  if negb there then writeFileSync fileName (render_model entry.2) else warn fileName).

Fixpoint write_models (modelsPath : list string) (entries : list (string * Model)) : Fs () :=
  match entries with
  | [] => fs_ret ()
  | entry :: rest =>
      fs_bind (write_model modelsPath entry) (fun _ => write_models modelsPath rest)
  end.

(** [createModels(models, modelsPath)] *)
Definition createModels (models : list (string * Model)) (modelsPath : list string) : Fs () :=
  write_models modelsPath
    (omap (fun modelName => (fun model => (modelName, model)) <$> JsObject.get models modelName)
          (own_keys models)).

End Models.

(** The methods of the operations of a group of entries, in order. *)
Definition methods_of (group : list ApiEntry) : list MethodEntry :=
  mjoin ((fun api => method_entry <$> operations api) <$> group).

(** The routes filed under [pathname] come from these entries of [apis]. *)
Definition grouped (pathname : string) (apis : list ApiEntry) : list ApiEntry :=
  List.filter (fun api => String.eqb (pathname_of (api_path api)) pathname) apis.

(** The route a group of entries with one pathname ends up as: the path of
    the first entry, the methods of all of them in order. *)
Definition merged (pathname : string) (group : list ApiEntry) : option HandlerRoute :=
  match group with
  | [] => None
  | first :: _ =>
      Some {| route_path := api_path first; pathname := pathname;
              methods := methods_of group |}
  end.

(** Sample input: two operations on one pathname, and a nested path. *)
Definition render_names (route : HandlerRoute) : string :=
  pathname route +:+ ": "
  +:+ Js.join " " ((fun m => me_method m +:+ "=" +:+ me_name m) <$> methods route).

Definition pets_apis : list ApiEntry :=
  [{| api_path := "/pets";
      operations := [{| op_method := "GET"; nickname := "findPets"; type := "array" |}] |};
   {| api_path := "/pets/{id}";
      operations := [{| op_method := "GET"; nickname := "findPet"; type := "Pet" |};
                     {| op_method := "DELETE"; nickname := "deletePet"; type := "void" |}] |}].

Definition nested_apis : list ApiEntry :=
  [{| api_path := "/store/order/{orderId}/items";
      operations := [{| op_method := "GET"; nickname := "getItems"; type := "array" |}] |}].

(** A world in which only the handlers directory exists. *)
Definition fresh_world : World :=
  {| fs := {[ ["handlers"] := Dir ]}; warned := [] |}.

(** A world in which a handler for pets was written before. *)
Definition used_world : World :=
  {| fs := {[ ["handlers"] := Dir; ["handlers"; "pets.js"] := File "mine" ]}; warned := [] |}.

(** A step keeps every entry of the file system that was there before it. *)
Definition keeps {A} (m : Fs A) : Prop :=
  ∀ w p n, fs w !! p = Some n → fs (m w).2 !! p = Some n.

(** [existsSync] followed by the write or the warning, as both functions of
    the tool do it. *)
Definition guarded_write (file : list string) (content : string) : Fs () :=
  fs_bind (existsSync file) (fun there =>
  if there then warn file else writeFileSync file content).

(** The file the handlers of a route go to. *)
Definition target (handlersPath : list string) (route : HandlerRoute) : list string :=
  let pathnames := Js.split_slash (pathname route) in
  if 1 <? Z.of_nat (length pathnames)
  then path_join handlersPath (Js.join "/" pathnames +:+ ".js")
  else path_join handlersPath (List.last pathnames "undefined" +:+ ".js").

(** The handler files of a world. *)
Definition files (w : World) : list (list string * Node) :=
  List.filter (fun entry => match entry.2 with File _ => true | Dir => false end)
    (map_to_list (fs w)).

End Create.

(** ** Notions used in the statements, and sample inputs *)

Definition res0 : Res := {| statusCode := 200; res_headers := ∅; sent := [] |}.

(** A request with the given method, headers and pass counter, and nothing else. *)
Definition request (method : string) (headers : list (string * string))
    (count : option nat) : Req :=
  {| req_method := method; req_headers := list_to_map headers; req_params := ∅;
     req_query := ∅; req_body := JUndefined; req_file := None; req_files := None;
     _expressroutes := count; requiredScopes := None; swaggerDefinition := JUndefined |}.


(** A middleware outcome that fails the request with [code]: the older
    pipeline sends the status itself and stops, the newer one forwards an
    error carrying it. *)
Definition fails_with (code : nat) (o : Outcome) : Prop :=
  (o_next o = None ∧ statusCode (o_res o) = code ∧ sent (o_res o) ≠ [])
  ∨ (∃ e, o_next o = Some (JHttpError e) ∧ e_status e = code).

(** A header matches a list of declared media types when one of its values,
    as separated by a comma and a space, contains one of the media types. *)
Definition matches (header : string) (mediaTypes : list string) : Prop :=
  ∃ value mediaType, value ∈ Js.split_comma_space header ∧ mediaType ∈ mediaTypes
    ∧ ∃ a b, value = a +:+ mediaType +:+ b.

(** The media types the Accept check compares with:
    [produces[method] || consumes[method] || []]. *)
Definition accepted_types (produces consumes : gmap string (list string))
    (method : string) : list string :=
  match produces !! method with
  | Some l => l
  | None => default [] (consumes !! method)
  end.

Definition json_only (method : string) : gmap string (list string) :=
  {[ method := ["application/json"] ]}.

(** The security definition an authorize callback is called on. *)
Definition definition_of (securityDefinitions : option (gmap string JsVal))
    (type : string) : JsVal :=
  match securityDefinitions with
  | Some defs => default JUndefined (defs !! type)
  | None => JUndefined
  end.

(** What the scheme [type] reports for a request: the value its authorize
    callback hands over, or the error raised for a scheme without callback. *)
Definition report (securityDefinitions : option (gmap string JsVal))
    (req : Req) (res : Res) (entry : string * Scheme) : JsVal :=
  match authorize entry.2 with
  | Some f =>
      f (definition_of securityDefinitions entry.1)
        (set_requiredScopes req (scopes entry.2)) res
  | None => JError "Unauthorized."
  end.

(** The scheme has an authorize callback and the callback reports success. *)
Definition authorizes (securityDefinitions : option (gmap string JsVal))
    (req : Req) (res : Res) (entry : string * Scheme) : Prop :=
  is_Some (authorize entry.2) ∧ truthy (report securityDefinitions req res entry) = false.

(** A validate function that fails whatever it is given. *)
Definition always_invalid (v : JsVal) : ValidateResult :=
  Invalid {| verr_name := None; verr_details := None |}.

Definition deny (this : JsVal) (req : Req) (res : Res) : JsVal := JError "denied".
Definition allow (this : JsVal) (req : Req) (res : Res) : JsVal := JUndefined.

(** Two application handlers that differ, and a route for each shape of
    [handler]. *)
Definition handler_ok : Fn := fun req res => responded req (res_status res 200).
Definition handler_log : Fn := fun req res => next req res.

Definition sample_route (method : Verb) (path : string) (handler : Handler)
    (consumes produces : option (list string)) : Route :=
  {| method := method; path := path; handler := handler; validators := [];
     consumes := consumes; produces := produces; security := None |}.

(** The behaviour of [swaggerize-routes/lib/utils] on the strings of the
    examples. *)
Definition ends_with (s suff : string) : bool :=
  Js.startsWith (String.rev s) (String.rev suff).

Definition sample_utils : Utils := {|
  prefix str pre := if Js.startsWith str pre then str else pre +:+ str;
  unsuffix str suff :=
    if negb (String.eqb suff "") && ends_with str suff
    then String.substring 0 (String.length str - String.length suff) str
    else str
|}.

Section Counting.
Context `{Utils}.

(** The resolved paths of a list of routes, one per operation. *)
Definition resolved_paths (mountpath : string) (routes : list Route) : list string :=
  (fun route => buildRoutePath mountpath (path route)) <$> routes.

(** The number of distinct strings of a list. *)
Definition distinct (l : list string) : nat := size (list_to_set l : gset string).

(** The mount path [expressroutes] works with. *)
Definition mountpath_of (options : Options) : string :=
  unsuffix (prefix (or_default (basePath (api options)) "/") "/") "/".

End Counting.

Definition is_register (call : RouterCall) : bool :=
  match call with Register _ _ _ => true | Use _ _ => false end.

Definition is_use (call : RouterCall) : bool :=
  match call with Register _ _ _ => false | Use _ _ => true end.

(** A call registers the operation of a route: its method on its resolved
    path, with the handler of the route at the end of the chain. *)
Definition registers `{Utils} (mountpath : string) (route : Route) (call : RouterCall)
  : Prop :=
  ∃ before f, call = Register (method route) (buildRoutePath mountpath (path route))
                       (before ++ [MwHandler f]).

(** A call attaches the group of cross-route middlewares to a path. *)
Definition attaches (routePath : string) (call : RouterCall) : Prop :=
  ∃ before methods consumes produces,
    call = Use routePath (before ++ [MwNotAllowed methods; MwContentType consumes;
                                     MwAccept produces consumes]).

(** The media-type lists a middleware was built with hold no entry twice. *)
Definition media_unique (mw : Middleware) : Prop :=
  match mw with
  | MwContentType consumes => ∀ method l, consumes !! method = Some l → NoDup l
  | MwAccept produces consumes =>
      (∀ method l, produces !! method = Some l → NoDup l)
      ∧ (∀ method l, consumes !! method = Some l → NoDup l)
  | _ => True
  end.

Definition negotiates_unique (call : RouterCall) : Prop :=
  match call with
  | Register _ _ _ => True
  | Use _ chain => Forall media_unique chain
  end.

(** The calls a mount made on the router it was given. *)
Definition added (router : list RouterCall) (m : Mounted) : list RouterCall :=
  drop (length router) (m_router m).

(** A table of media types holds no entry twice in any of its lists. *)
Definition table_unique (table : gmap string (gmap string (list string))) : Prop :=
  ∀ routePath forPath method l,
    table !! routePath = Some forPath → forPath !! method = Some l → NoDup l.

(** The entries of [suf] that are neither in [pre] nor earlier in [suf]. *)
Fixpoint fresh (pre suf : list string) : list string :=
  match suf with
  | [] => []
  | x :: s =>
      if bool_decide (x ∈ pre) then fresh (pre ++ [x]) s else x :: fresh (pre ++ [x]) s
  end.

(** What a mount adds to the router: the documentation endpoint, then the
    registration of each route in turn, then one group of cross-route
    middlewares for each of [keys], the distinct resolved paths. *)
Definition registration_shape `{Utils} (router : list RouterCall) (mountpath : string)
    (routes : list Route) (m : Mounted) : Prop :=
  ∃ docs registered keys groups,
    m_router m = router ++ docs :: registered ++ groups
    ∧ is_register docs = true
    ∧ Forall2 (registers mountpath) routes registered
    ∧ length registered = length routes
    ∧ Forall2 attaches keys groups
    ∧ NoDup keys
    ∧ (∀ p, p ∈ keys ↔ p ∈ resolved_paths mountpath routes)
    ∧ length groups = distinct (resolved_paths mountpath routes).

(** Three operations on two paths; the media types of the first are declared
    twice. *)
Definition pet_routes : list Route :=
  [sample_route VGet "/pets" (HFunction handler_ok) None
     (Some ["application/json"; "text/xml"; "application/json"]);
   sample_route VPost "/pets" (HArray [handler_log] handler_ok)
     (Some ["application/json"; "application/json"]) (Some ["application/json"]);
   sample_route VGet "/pets/{id}" (HFunction handler_ok) None None].

Definition pet_options : Options :=
  {| routes := Some pet_routes; docspath := None;
     api := {| basePath := Some "/v1"; securityDefinitions := None; paths := None |};
     errorname := None |}.

(** ** The mount orchestrator: [index.js] *)

Module Index.

(** [s.indexOf(pattern)] on strings: the first position, or -1. *)
Fixpoint indexOf (s pattern : string) : Z :=
  if Js.startsWith s pattern then 0
  else
    match s with
    | EmptyString => -1
    | String _ r => let k := indexOf r pattern in if k <? 0 then -1 else k + 1
    end.

(** The test of [loadApi]: is the file at [apiPath] read as YAML? *)
Definition is_yaml (apiPath : string) : bool :=
  (indexOf apiPath ".yaml" =? Z.of_nat (String.length apiPath) - 5)
  || (indexOf apiPath ".yml" =? Z.of_nat (String.length apiPath) - 4).

Section Load.
(** [yaml.load(fs.readFileSync(apiPath))] and [require(apiPath)]. *)
Variable yaml_load : string → Result JsVal.
Variable require_module : string → Result JsVal.

(** [loadApi(apiPath)] *)
Definition loadApi (apiPath : string) : Result JsVal :=
  if is_yaml apiPath then yaml_load apiPath else require_module apiPath.

End Load.

(** The parent application, as far as [onmount] touches it: the stack of its
    router (the calls that built it), the calls of [parent.set] in order, its
    [mountpath] and the property [swagger] once it is defined. *)
Record Parent := {
  stack : list RouterCall;
  set_calls : list (string * JsVal);
  parent_mountpath : option string;
  swagger : option (Api * option (list Route))
}.

(** The options of [swaggerize] that [mount] reads beside those of
    [expressroutes]: [options.express]. *)
Record MountOptions := {
  options : Options;
  express : list (string * JsVal)
}.

(** The literal [settings] of [onmount]. *)
Definition settings : list (string * JsVal) :=
  [("x-powered-by", JBool false);
   ("trust proxy", JBool false);
   ("jsonp callback name", JNull);
   ("json replacer", JNull);
   ("json spaces", JNum 0);
   ("case sensitive routing", JBool false);
   ("strict routing", JBool false);
   ("views", JNull);
   ("view cache", JBool false);
   ("view engine", JBool false)].

(** [Object.keys(o).forEach(function (option) { parent.set(option, o[option]); })] *)
Definition set_all (o : list (string * JsVal)) : list (string * JsVal) :=
  (fun option => (option, default JUndefined (JsObject.get o option))) <$> Create.own_keys o.

(** [options.api.basePath = app.mountpath !== '/' ? app.mountpath : options.api.basePath] *)
Definition mounted_api (app_mountpath : string) (api : Api) : Api :=
  if String.eqb app_mountpath "/" then api
  else {| basePath := Some app_mountpath; securityDefinitions := securityDefinitions api;
          paths := paths api |}.

Section Mount.
Context `{Utils}.

(** [onmount(parent)], the closure of [mount(app, options)]; [errorName] is the
    module variable of [expressroutes]. Defining [swagger] on a parent that
    has the property already is a TypeError, which ends the handler. *)
Definition onmount (errorName : option string) (app_mountpath : string)
    (opts : MountOptions) (parent : Parent) : Result () * Parent * option string :=
  let stack := removelast (stack parent) in
  let mounted := mounted_api app_mountpath (api (options opts)) in
  let options' := {| routes := routes (options opts); docspath := docspath (options opts);
                     api := mounted; errorname := errorname (options opts) |} in
  let calls := set_calls parent ++ set_all settings ++ set_all (express opts) in
  match swagger parent with
  | Some defined =>
      (Throw "TypeError",
       {| stack := stack; set_calls := calls; parent_mountpath := basePath mounted;
          swagger := Some defined |},
       errorName)
  | None =>
      let m := V2.expressroutes errorName stack options' in
      (Ok (),
       {| stack := m_router m; set_calls := calls; parent_mountpath := basePath mounted;
          swagger := Some (api (m_options m), routes (m_options m)) |},
       m_errorName m)
  end.

End Mount.

End Index.

(** ** Notions used in the further statements *)

(** The value of the last call of [parent.set] for a setting. *)
Definition last_set (calls : list (string * JsVal)) (setting : string) : option JsVal :=
  foldl (fun found call => if String.eqb call.1 setting then Some call.2 else found) None calls.

(** The options [expressroutes] is called with on mount. *)
Definition mount_options (app_mountpath : string) (opts : Index.MountOptions) : Options :=
  {| routes := routes (Index.options opts); docspath := docspath (Index.options opts);
     api := Index.mounted_api app_mountpath (api (Index.options opts));
     errorname := errorname (Index.options opts) |}.

Definition empty_parent : Index.Parent :=
  {| Index.stack := [Use "/v1" []]; Index.set_calls := []; Index.parent_mountpath := None;
     Index.swagger := None |}.

Definition pet_mount_options : Index.MountOptions :=
  {| Index.options := pet_options; Index.express := [("x-powered-by", JBool true)] |}.

(** A validate function that accepts its value and coerces it to a number. *)
Definition coerce_to_7 (v : JsVal) : ValidateResult := Valid (JNum 7).

Definition limit_param (location : Location) : Param :=
  {| p_name := "limit"; p_in := location; p_required := false; p_type := Some "integer" |}.

Definition upload_param : Param :=
  {| p_name := "photo"; p_in := InFormData; p_required := true; p_type := Some "file" |}.

(** A multipart request whose uploads are the given array. *)
Definition upload_request (uploads : list File) : Req :=
  {| req_method := "POST"; req_headers := ∅; req_params := ∅; req_query := ∅;
     req_body := JObject []; req_file := None; req_files := Some uploads;
     _expressroutes := None; requiredScopes := None; swaggerDefinition := JUndefined |}.

(** The route object as [makeExpressRoute] leaves it. *)
Definition unwrapped (route : Route) : Route :=
  match handler route with
  | HFunction _ => route
  | HArray _ last => set_handler route (HFunction last)
  end.

Section Shares.
Context `{Utils}.

(** The routes of a list that resolve to [routePath]. *)
Definition on_path (mountpath routePath : string) (routes : list Route) : list Route :=
  filter (fun route => buildRoutePath mountpath (path route) = routePath) routes.

(** Their methods, in lower case and in the order of the routes. *)
Definition methods_for (mountpath routePath : string) (routes : list Route) : list string :=
  (fun route => Js.toLowerCase (verb_name (method route))) <$> on_path mountpath routePath routes.

(** A route on [routePath] with the method [name] declares the media type
    [mediaType] in the list [declared] reads from it. *)
Definition declares (declared : Route → option (list string)) (mountpath routePath : string)
    (routes : list Route) (name mediaType : string) : Prop :=
  ∃ route l, route ∈ routes
    ∧ buildRoutePath mountpath (path route) = routePath
    ∧ Js.toLowerCase (verb_name (method route)) = name
    ∧ declared route = Some l ∧ mediaType ∈ l.

End Shares.

Section Served.
Context `{Utils}.

(** The API document as [expressroutes] leaves it: its base path begins with
    a slash. *)
Definition served_api (options : Options) : Api :=
  set_basePath (api options) (prefix (or_default (basePath (api options)) "/") "/").

(** The path of the documentation endpoint. *)
Definition docs_path (options : Options) : string :=
  mountpath_of options +:+ prefix (or_default (docspath options) "/api-docs") "/".

(** The tables [expressroutes] fills for the routes of [options]. *)
Definition tables_of (options : Options) : Tables :=
  foldl (record_route (mountpath_of options)) empty_tables (default [] (routes options)).

End Served.

(** The options of the pet API with the paths of its document. *)
Definition pet_paths : list (string * JsVal) :=
  [("/pets", JObject [("get", JStr "list the pets"); ("post", JStr "add a pet")]);
   ("/pets/{id}", JObject [("get", JStr "find a pet")])].

Definition documented_pet_options : Options :=
  {| routes := Some pet_routes; docspath := None;
     api := {| basePath := Some "/v1"; securityDefinitions := None;
               paths := Some pet_paths |};
     errorname := None |}.

(** A step creates no file but those [allowed]: a file that is there after it
    was there before, with the same content, or is one of them. *)
Definition creates_only {A} (allowed : list string → string → Prop) (m : Create.Fs A)
  : Prop :=
  ∀ w p c,
    Create.fs (m w).2 !! p = Some (Create.File c) →
    Create.fs w !! p = Some (Create.File c) ∨ allowed p c.

(** The file of a model. *)
Definition model_file (modelsPath : list string) (modelName : string) : list string :=
  Create.path_join modelsPath (Js.toLowerCase modelName +:+ ".js").

(** Sample models, two of which differ in case only, and a world in which
    only the models directory exists. *)
Definition pet_models : list (string * string) :=
  [("Pet", "a pet"); ("Error", "an error"); ("PET", "another pet")].

Definition render_text (model : string) : string := "model: " +:+ model.

Definition models_world : Create.World :=
  {| Create.fs := {[ ["models"] := Create.Dir ]}; Create.warned := [] |}.

(** What [routeFilter] appends to [out] for one level of a route. *)
Definition standard_level (level : string) : string :=
  match level with
  | EmptyString => ""
  | String c _ => if Ascii.eqb c ":" || Ascii.eqb c "{" then "/:x" else "/" +:+ level
  end.

(** A level of a path template that is either free of opening braces or one
    parameter in braces. *)
Definition template_level (level : string) : Prop :=
  Js.includes level "{" = false
  ∨ ∃ name, level = "{" +:+ name +:+ "}" ∧ name ≠ "" ∧ Js.includes name "}" = false.

(** What the iteration over a security object leaves in the request:
    [requiredScopes] as written for the last scheme that has a callback. *)
Definition consulted (security : list (string * Scheme)) (req : Req) : Req :=
  foldl (fun r entry =>
           match authorize entry.2 with
           | Some _ => set_requiredScopes r (scopes entry.2)
           | None => r
           end) req security.

(** What the chain of a route holds ahead of the validator that follows the
    validators [passing]: the authorization when the route has a security
    requirement, the functions before the last of a handler array, and the
    validators [passing]. *)
Definition ahead_of_validators (route : Route)
    (securityDefinitions : option (gmap string JsVal)) (passing : list Validator)
  : list Middleware :=
  match security route with
  | Some sec => [MwAuthorize sec securityDefinitions]
  | None => []
  end
  ++ match handler route with
     | HFunction _ => []
     | HArray pre _ => MwHandler <$> pre
     end
  ++ ((fun v => MwValidateInput v (consumes route)) <$> passing).

(** * Properties *)

Example toUpperCase_ex : Js.toUpperCase (Js.join ", " ["get"; "post"]) = "GET, POST".
Proof. reflexivity. Qed.

Example split_ex :
  Js.split_comma_space "text/html, application/json,x" = ["text/html"; "application/json,x"].
Proof. reflexivity. Qed.

Example uniq_ex : Js.uniq ["a"; "b"; "a"; "c"; "b"] = ["a"; "b"; "c"].
Proof. reflexivity. Qed.

Example replace_params_ex :
  replace_params "/pets/{id}/owners/{ownerId}" None = "/pets/:id/owners/:ownerId"
  ∧ replace_params "/a/{}/b" None = "/a/{}/b"
  ∧ replace_params "/a/{b{c}" None = "/a/:b{c"
  ∧ replace_params "/a/{bc" None = "/a/{bc".
Proof. done. Qed.

Example routeFilter_ex :
  routeFilter "/v1/pets/:id" = "/v1/pets/:x"
  ∧ remove_first (routeFilter "/v1/pets/:id") "/v1" = "/pets/:x"
  ∧ routeFilter "/pets/{id}" = "/pets/:x".
Proof. done. Qed.

Example buildRoutePath_ex :
  buildRoutePath (H := sample_utils) "/v1" "/pets/{id}" = "/v1/pets/:id"
  ∧ mountpath_of (H := sample_utils) pet_options = "/v1".
Proof. done. Qed.

Example includes_ex : Js.includes "application/json; charset=utf-8" "json" = true.
Proof. reflexivity. Qed.

(** ** JavaScript strings and arrays *)

Section JsFacts.

Lemma indexOf_ge a v : -1 <= Js.indexOf a v.
Proof.
  induction a as [|x r IH]; simpl; [lia|].
  destruct (String.eqb x v); [lia|].
  destruct (Js.indexOf r v <? 0) eqn:E; lia.
Qed.

Lemma indexOf_absent a v : Js.indexOf a v = -1 ↔ v ∉ a.
Proof.
  induction a as [|x r IH]; simpl.
  - split; [intros _; apply not_elem_of_nil | reflexivity].
  - pose proof (indexOf_ge r v) as Hge.
    destruct (String.eqb_spec x v) as [->|Hne].
    + split; [lia | intros Hn; exfalso; apply Hn; left].
    + rewrite not_elem_of_cons.
      destruct (Js.indexOf r v <? 0) eqn:E.
      * apply Z.ltb_lt in E. assert (Js.indexOf r v = -1) as Hr by lia.
        split; [intros _; split; [congruence | by apply IH] | reflexivity].
      * apply Z.ltb_ge in E.
        split; [lia | intros [_ Hn]; apply IH in Hn; lia].
Qed.

Lemma indexOf_absent_b a v : (Js.indexOf a v =? -1) = bool_decide (v ∉ a).
Proof.
  destruct (Js.indexOf a v =? -1) eqn:E; symmetry.
  - apply bool_decide_eq_true, indexOf_absent, Z.eqb_eq, E.
  - apply bool_decide_eq_false. rewrite <- indexOf_absent. by apply Z.eqb_neq.
Qed.

Lemma string_app_nil (b : string) : "" +:+ b = b.
Proof. reflexivity. Qed.

Lemma string_app_cons c (a b : string) : String c a +:+ b = String c (a +:+ b).
Proof. reflexivity. Qed.

Lemma string_app_assoc (a b c : string) : (a +:+ b) +:+ c = a +:+ b +:+ c.
Proof.
  induction a as [|ch a IH]; [reflexivity|].
  by rewrite !string_app_cons, IH.
Qed.



Lemma startsWith_spec s m : Js.startsWith s m = true ↔ ∃ b, s = m +:+ b.
Proof.
  revert s; induction m as [|c m IH]; intros s; simpl.
  - destruct s; (split; [intros _; eexists; reflexivity | reflexivity]).
  - destruct s as [|d s].
    + split; [discriminate | intros [b Hb]; discriminate].
    + simpl. destruct (Ascii.eqb_spec c d) as [->|Hne].
      * rewrite IH. split; intros [b Hb]; exists b.
        -- by rewrite string_app_cons, Hb.
        -- rewrite string_app_cons in Hb. congruence.
      * split; [discriminate | intros [b Hb]; rewrite string_app_cons in Hb; congruence].
Qed.

Lemma includes_spec s m : Js.includes s m = true ↔ ∃ a b, s = a +:+ m +:+ b.
Proof.
  induction s as [|c s IH].
  - cbn [Js.includes]. rewrite orb_false_r, startsWith_spec. split.
    + intros [b Hb]. exists "", b. exact Hb.
    + intros [a [b Hb]]. destruct a; [by exists b | discriminate].
  - cbn [Js.includes]. rewrite orb_true_iff, startsWith_spec, IH. split.
    + intros [[b Hb] | [a [b Hb]]].
      * exists "", b. exact Hb.
      * exists (String c a), b. by rewrite string_app_cons, Hb.
    + intros [a [b Hb]]. destruct a as [|c' a].
      * left. by exists b.
      * right. exists a, b. rewrite string_app_cons in Hb. congruence.
Qed.

Lemma validated_inner h ms v :
  fold_left (fun validated mediaType => if Js.includes h mediaType then true else validated)
    ms v = v || existsb (Js.includes h) ms.
Proof.
  revert v; induction ms as [|m ms IH]; intros v; simpl.
  - by rewrite orb_false_r.
  - rewrite IH. destruct (Js.includes h m), v; reflexivity.
Qed.

Lemma validated_existsb hs ms :
  V2.validated hs ms = existsb (fun h => existsb (Js.includes h) ms) hs.
Proof.
  unfold V2.validated.
  assert (∀ v, fold_left
    (fun validated header =>
       fold_left
         (fun validated mediaType =>
            if Js.includes header mediaType then true else validated) ms validated)
    hs v = v || existsb (fun h => existsb (Js.includes h) ms) hs) as Hgen.
  { induction hs as [|h hs IH]; intros v; simpl.
    - by rewrite orb_false_r.
    - rewrite IH, validated_inner. by rewrite orb_assoc. }
  rewrite Hgen. reflexivity.
Qed.

End JsFacts.

(** ** The not-allowed middleware *)

Section NotAllowed.





(** After a request went through the not-allowed middleware of the newer
    pipeline without an error, its pass counter is at least one. *)
Lemma V2_not_allowed_counts errorName methods req res :
  let o := V2.buildNotAllowedMiddleware errorName methods req res in
  o_next o = Some JUndefined → first_pass (o_req o) = false.
Proof.
  unfold V2.buildNotAllowedMiddleware.
  destruct (first_pass req && _) eqn:E; [discriminate|]. intros _. clear E.
  destruct req as [? ? ? ? ? ? ? [[|n]|] ? ?]; reflexivity.
Qed.

End NotAllowed.




(** ** Content negotiation *)

Section Negotiation.

Lemma eqb_false_of_ne (a b : string) : a ≠ b → String.eqb a b = false.
Proof. intros Hne. by apply String.eqb_neq. Qed.

Lemma header_values_some h : h ≠ "" → V2.header_values (Some h) = Js.split_comma_space h.
Proof. intros Hne. unfold V2.header_values. by rewrite eqb_false_of_ne. Qed.

Lemma existsb_elem_of {A} (f : A → bool) (l : list A) :
  existsb f l = true ↔ ∃ x, x ∈ l ∧ f x = true.
Proof.
  rewrite existsb_exists. split; intros [x [Hx Hf]]; exists x; split; try done.
  - by apply list_elem_of_In.
  - by apply list_elem_of_In.
Qed.

Lemma validated_matches h mediaTypes :
  V2.validated (Js.split_comma_space h) mediaTypes = true ↔ matches h mediaTypes.
Proof.
  rewrite validated_existsb, existsb_elem_of. unfold matches. split.
  - intros (v & Hv & Hex). apply existsb_elem_of in Hex as (m & Hm & Hinc).
    exists v, m. repeat split; try done. by apply includes_spec.
  - intros (v & m & Hv & Hm & Hsub). exists v. split; [done|].
    apply existsb_elem_of. exists m. split; [done|]. by apply includes_spec.
Qed.

Lemma not_fails_with_next code req res : ¬ fails_with code (next req res).
Proof. intros [[Hn _] | (e & He & _)]; simpl in *; discriminate. Qed.

(** *** The older pipeline: the whole header equals a declared media type *)

Lemma V1_content_type_rejects consumes req res h :
  is_mutating (Js.toLowerCase (req_method req)) = true →
  header req "content-type" = Some h → h ≠ "" → h ≠ "*/*" →
  h ∉ default [] (consumes !! Js.toLowerCase (req_method req)) →
  fails_with 415 (V1.validateContentTypeHeaderMiddleware consumes req res).
Proof.
  intros Hmut Hh Hne Hstar Hn. unfold V1.validateContentTypeHeaderMiddleware.
  rewrite Hh, !eqb_false_of_ne, Hmut by done. simpl.
  rewrite indexOf_absent_b, bool_decide_eq_true_2 by done.
  left. simpl. split; [done|]. split; [done|]. by destruct (sent res).
Qed.

Lemma V1_content_type_passes consumes req res h :
  header req "content-type" = Some h →
  h ∈ default [] (consumes !! Js.toLowerCase (req_method req)) →
  V1.validateContentTypeHeaderMiddleware consumes req res = next req res.
Proof.
  intros Hh Hin. unfold V1.validateContentTypeHeaderMiddleware. rewrite Hh.
  rewrite indexOf_absent_b, (bool_decide_eq_false_2 (_ ∉ _)) by (by intros Hn).
  by repeat case_match.
Qed.

Lemma V1_content_type_other_method consumes req res :
  is_mutating (Js.toLowerCase (req_method req)) = false →
  V1.validateContentTypeHeaderMiddleware consumes req res = next req res.
Proof.
  intros Hmut. unfold V1.validateContentTypeHeaderMiddleware. rewrite Hmut.
  by repeat case_match.
Qed.

Lemma V1_accept_rejects produces consumes req res h :
  header req "accept" = Some h → h ≠ "" → h ≠ "*/*" →
  h ∉ accepted_types produces consumes (Js.toLowerCase (req_method req)) →
  fails_with 406 (V1.validateAcceptHeaderMiddleware produces consumes req res).
Proof.
  intros Hh Hne Hstar Hn. unfold V1.validateAcceptHeaderMiddleware.
  fold (accepted_types produces consumes (Js.toLowerCase (req_method req))).
  rewrite Hh, !eqb_false_of_ne by done. simpl.
  rewrite indexOf_absent_b, bool_decide_eq_true_2 by done.
  left. simpl. split; [done|]. split; [done|]. by destruct (sent res).
Qed.

Lemma V1_accept_passes produces consumes req res h :
  header req "accept" = Some h →
  h ∈ accepted_types produces consumes (Js.toLowerCase (req_method req)) →
  V1.validateAcceptHeaderMiddleware produces consumes req res = next req res.
Proof.
  intros Hh Hin. unfold V1.validateAcceptHeaderMiddleware.
  fold (accepted_types produces consumes (Js.toLowerCase (req_method req))).
  rewrite Hh, indexOf_absent_b, (bool_decide_eq_false_2 (_ ∉ _)) by (by intros Hn).
  by repeat case_match.
Qed.

(** *** The newer pipeline: a value of the header contains a declared media type *)

Lemma V2_content_type_rejects errorName consumes req res h :
  is_mutating (Js.toLowerCase (req_method req)) = true →
  first_pass req = true →
  header req "content-type" = Some h → h ≠ "" → "*/*" ∉ Js.split_comma_space h →
  ¬ matches h (default [] (consumes !! Js.toLowerCase (req_method req))) →
  fails_with 415 (V2.validateContentTypeHeaderMiddleware errorName consumes req res).
Proof.
  intros Hmut Hfirst Hh Hne Hstar Hn. unfold V2.validateContentTypeHeaderMiddleware.
  rewrite Hh, header_values_some, Hmut, Hfirst by done.
  rewrite indexOf_absent_b, bool_decide_eq_true_2 by done.
  destruct (V2.validated _ _) eqn:Hv; [by apply validated_matches in Hv|]. simpl.
  right. eexists. split; reflexivity.
Qed.

Lemma V2_content_type_passes errorName consumes req res h :
  header req "content-type" = Some h → h ≠ "" →
  matches h (default [] (consumes !! Js.toLowerCase (req_method req))) →
  V2.validateContentTypeHeaderMiddleware errorName consumes req res = next req res.
Proof.
  intros Hh Hne Hm. unfold V2.validateContentTypeHeaderMiddleware.
  rewrite Hh, header_values_some by done.
  apply validated_matches in Hm. rewrite Hm, andb_false_r.
  by repeat case_match.
Qed.

Lemma V2_content_type_other_method errorName consumes req res :
  is_mutating (Js.toLowerCase (req_method req)) = false →
  V2.validateContentTypeHeaderMiddleware errorName consumes req res = next req res.
Proof.
  intros Hmut. unfold V2.validateContentTypeHeaderMiddleware. rewrite Hmut.
  by repeat case_match.
Qed.

(** Once the pass counter is set the newer Content-Type check lets every
    request through. *)
Lemma V2_content_type_later_pass errorName consumes req res :
  first_pass req = false →
  V2.validateContentTypeHeaderMiddleware errorName consumes req res = next req res.
Proof.
  intros Hfirst. unfold V2.validateContentTypeHeaderMiddleware. rewrite Hfirst.
  by repeat case_match.
Qed.

Lemma V2_accept_rejects errorName produces consumes req res h :
  header req "accept" = Some h → h ≠ "" → "*/*" ∉ Js.split_comma_space h →
  ¬ matches h (accepted_types produces consumes (Js.toLowerCase (req_method req))) →
  fails_with 406 (V2.validateAcceptHeaderMiddleware errorName produces consumes req res).
Proof.
  intros Hh Hne Hstar Hn. unfold V2.validateAcceptHeaderMiddleware.
  fold (accepted_types produces consumes (Js.toLowerCase (req_method req))).
  rewrite Hh, header_values_some by done.
  rewrite indexOf_absent_b, bool_decide_eq_true_2 by done.
  destruct (V2.validated _ _) eqn:Hv; [by apply validated_matches in Hv|]. simpl.
  right. eexists. split; reflexivity.
Qed.

Lemma V2_accept_passes errorName produces consumes req res h :
  header req "accept" = Some h → h ≠ "" →
  matches h (accepted_types produces consumes (Js.toLowerCase (req_method req))) →
  V2.validateAcceptHeaderMiddleware errorName produces consumes req res = next req res.
Proof.
  intros Hh Hne Hm. unfold V2.validateAcceptHeaderMiddleware.
  fold (accepted_types produces consumes (Js.toLowerCase (req_method req))).
  rewrite Hh, header_values_some by done.
  apply validated_matches in Hm. rewrite Hm. simpl.
  by repeat case_match.
Qed.

End Negotiation.

(** C2 (as amended). A PUT, POST or PATCH request whose Content-Type header
    is present, not empty and not the single value */* fails with status 415
    - in the older pipeline when the header equals no entry of the consumes
      list of the method and the response has not been sent: the middleware
      answers with status 415 by itself and does not call next,
    - in the newer pipeline when the request is on its first pass, none of the
      values of the header is */* and none of them contains an entry of the
      consumes list of the method: the middleware hands a 415 error to next
      and leaves the response alone;
    a request with any other method is never rejected by the Content-Type
    middleware of either pipeline, whatever the header and the consumes list. *)
Theorem content_type_415 (errorName : option string) (consumes : gmap string (list string))
    (req : Req) (res : Res) :
  let method := Js.toLowerCase (req_method req) in
  let mediaTypes := default [] (consumes !! method) in
  let v1 := V1.validateContentTypeHeaderMiddleware consumes req res in
  let v2 := V2.validateContentTypeHeaderMiddleware errorName consumes req res in
  (∀ h, is_mutating method = true →
        header req "content-type" = Some h → h ≠ "" → h ≠ "*/*" →
        (h ∉ mediaTypes → sent res = [] →
           fails_with 415 v1 ∧ o_next v1 = None ∧ statusCode (o_res v1) = 415%nat
           ∧ ∃ body, sent (o_res v1) = [body])
        ∧ (first_pass req = true → "*/*" ∉ Js.split_comma_space h →
           ¬ matches h mediaTypes →
           fails_with 415 v2 ∧ o_res v2 = res))
  ∧ (is_mutating method = false → v1 = next req res ∧ v2 = next req res).
Proof.
  intros method mediaTypes v1 v2. split.
  - intros h Hmut Hh Hne Hstar. split.
    + intros Hn Hsent. split; [by eapply V1_content_type_rejects|].
      subst v1 mediaTypes method. unfold V1.validateContentTypeHeaderMiddleware.
      rewrite Hh, !eqb_false_of_ne, Hmut by done. cbn [negb andb].
      rewrite indexOf_absent_b, bool_decide_eq_true_2 by done.
      cbn [o_next o_res responded statusCode sent res_send res_status]. rewrite Hsent.
      split; [done|]. split; [done|]. by eexists.
    + intros Hfirst Hvals Hn. split; [by eapply V2_content_type_rejects|].
      subst v2. unfold V2.validateContentTypeHeaderMiddleware. by repeat case_match.
  - intros Hmut. split.
    + by apply V1_content_type_other_method.
    + by apply V2_content_type_other_method.
Qed.

Lemma text_plain_not_json : ¬ matches "text/plain" ["application/json"].
Proof. intros Hm. apply validated_matches in Hm. discriminate Hm. Qed.

Lemma content_type_415_witness :
  fails_with 415
    (V1.validateContentTypeHeaderMiddleware (json_only "post")
       (request "POST" [("content-type", "text/plain")] None) res0)
  ∧ fails_with 415
      (V2.validateContentTypeHeaderMiddleware None (json_only "post")
         (request "POST" [("content-type", "text/plain")] None) res0)
  ∧ V2.validateContentTypeHeaderMiddleware None (json_only "post")
      (request "GET" [("content-type", "text/plain")] None) res0
    = next (request "GET" [("content-type", "text/plain")] None) res0.
Proof.
  destruct (content_type_415 None (json_only "post")
              (request "POST" [("content-type", "text/plain")] None) res0) as [Hrej _].
  destruct (Hrej "text/plain" eq_refl eq_refl) as [Hv1 Hv2]; [discriminate..|].
  split; [apply Hv1; [compute_done | reflexivity]|].
  split; [apply Hv2; [reflexivity | compute_done | exact text_plain_not_json]|].
  destruct (content_type_415 None (json_only "post")
              (request "GET" [("content-type", "text/plain")] None) res0) as [_ Hother].
  exact (proj2 (Hother eq_refl)).
Defined.

(** C2 as stated fails on the newer pipeline: a POST request whose pass
    counter is already set carries a Content-Type that no entry of the
    consumes list matches, and is let through. *)
Lemma content_type_later_pass_counterexample :
  is_mutating (Js.toLowerCase (req_method
     (request "POST" [("content-type", "text/plain")] (Some 1%nat)))) = true
  ∧ header (request "POST" [("content-type", "text/plain")] (Some 1%nat)) "content-type"
    = Some "text/plain"
  ∧ ("text/plain" ∉ default [] (json_only "post" !! "post"))
  ∧ ¬ matches "text/plain" (default [] (json_only "post" !! "post"))
  ∧ ¬ fails_with 415
        (V2.validateContentTypeHeaderMiddleware None (json_only "post")
           (request "POST" [("content-type", "text/plain")] (Some 1%nat)) res0).
Proof.
  split; [reflexivity|]. split; [reflexivity|]. split; [compute_done|].
  split; [exact text_plain_not_json|].
  rewrite V2_content_type_later_pass by reflexivity. apply not_fails_with_next.
Qed.

(** C3 (as amended). In the newer pipeline the two loops of the Content-Type
    and of the Accept middleware find a match exactly when one of the values
    of the header, as separated by a comma and a space, contains one of the
    declared media types as a substring, and a header that matches in this
    sense is let through by both middlewares. In the older pipeline a header
    that is not the single value */* is let through exactly when, as a whole,
    it equals a declared media type (for the Content-Type check: on a PUT,
    POST or PATCH request). *)
Theorem negotiation_matching (errorName : option string)
    (produces consumes : gmap string (list string)) (req : Req) (res : Res) (h : string) :
  h ≠ "" →
  let method := Js.toLowerCase (req_method req) in
  (∀ mediaTypes,
     V2.validated (V2.header_values (Some h)) mediaTypes = true ↔ matches h mediaTypes)
  ∧ (header req "content-type" = Some h → matches h (default [] (consumes !! method)) →
       V2.validateContentTypeHeaderMiddleware errorName consumes req res = next req res)
  ∧ (header req "accept" = Some h → matches h (accepted_types produces consumes method) →
       V2.validateAcceptHeaderMiddleware errorName produces consumes req res = next req res)
  ∧ (header req "content-type" = Some h → h ≠ "*/*" → is_mutating method = true →
       (V1.validateContentTypeHeaderMiddleware consumes req res = next req res
        ↔ h ∈ default [] (consumes !! method)))
  ∧ (header req "accept" = Some h → h ≠ "*/*" →
       (V1.validateAcceptHeaderMiddleware produces consumes req res = next req res
        ↔ h ∈ accepted_types produces consumes method)).
Proof.
  intros Hne method. split; [|split; [|split; [|split]]].
  - intros mediaTypes. rewrite header_values_some by done. apply validated_matches.
  - intros Hh Hm. by eapply V2_content_type_passes.
  - intros Hh Hm. by eapply V2_accept_passes.
  - intros Hh Hstar Hmut. split; [|by eapply V1_content_type_passes].
    intros Hpass. destruct (decide (h ∈ default [] (consumes !! method))) as [|Hn]; [done|].
    exfalso. eapply (not_fails_with_next 415 req res). rewrite <- Hpass.
    by eapply V1_content_type_rejects.
  - intros Hh Hstar. split; [|by eapply V1_accept_passes].
    intros Hpass. destruct (decide (h ∈ accepted_types produces consumes method)) as [|Hn];
      [done|].
    exfalso. eapply (not_fails_with_next 406 req res). rewrite <- Hpass.
    by eapply V1_accept_rejects.
Qed.

Lemma json_with_charset_matches :
  matches "text/html, application/json; charset=utf-8" ["application/json"].
Proof.
  exists "application/json; charset=utf-8", "application/json".
  split; [compute_done|]. split; [compute_done|].
  by exists "", "; charset=utf-8".
Qed.

Lemma negotiation_matching_witness :
  V2.validateAcceptHeaderMiddleware None (json_only "get") ∅
    (request "GET" [("accept", "text/html, application/json; charset=utf-8")] None) res0
  = next (request "GET" [("accept", "text/html, application/json; charset=utf-8")] None) res0.
Proof.
  destruct (negotiation_matching None (json_only "get") ∅
              (request "GET" [("accept", "text/html, application/json; charset=utf-8")] None)
              res0 "text/html, application/json; charset=utf-8") as (_ & _ & Hacc & _).
  - discriminate.
  - apply Hacc; [reflexivity | exact json_with_charset_matches].
Defined.

(** C3 as stated fails on the older pipeline: the Content-Type header
    contains the declared media type as a substring, and the request is
    rejected with 415 because the header is not equal to it. *)
Lemma exact_match_counterexample :
  matches "application/json; charset=utf-8" (default [] (json_only "post" !! "post"))
  ∧ fails_with 415
      (V1.validateContentTypeHeaderMiddleware (json_only "post")
         (request "POST" [("content-type", "application/json; charset=utf-8")] None) res0).
Proof.
  split.
  - exists "application/json; charset=utf-8", "application/json".
    split; [compute_done|]. split; [compute_done|].
    by exists "", "; charset=utf-8".
  - eapply V1_content_type_rejects; [reflexivity | reflexivity | discriminate..| compute_done].
Qed.

(** C4 (as amended). For a request whose Accept header is present and not
    empty, the media types compared with are the produces list of the method
    or, when there is none, its consumes list. The older pipeline, unless the
    header is the single value */*, lets the request through when the header
    equals one of them and, when it equals none of them and the response has
    not been sent, answers with status 406 by itself without calling next. The
    newer pipeline, unless one of the values of the header is */*, hands a
    406 error to next, leaving the response alone, when no value contains one
    of them and lets the request through otherwise. *)
Theorem accept_406 (errorName : option string)
    (produces consumes : gmap string (list string)) (req : Req) (res : Res) (h : string) :
  header req "accept" = Some h → h ≠ "" →
  let method := Js.toLowerCase (req_method req) in
  let mediaTypes := accepted_types produces consumes method in
  let v1 := V1.validateAcceptHeaderMiddleware produces consumes req res in
  let v2 := V2.validateAcceptHeaderMiddleware errorName produces consumes req res in
  (∀ l, produces !! method = Some l → mediaTypes = l)
  ∧ (produces !! method = None → mediaTypes = default [] (consumes !! method))
  ∧ (h ≠ "*/*" →
       (h ∉ mediaTypes → sent res = [] →
          fails_with 406 v1 ∧ o_next v1 = None ∧ statusCode (o_res v1) = 406%nat
          ∧ ∃ body, sent (o_res v1) = [body])
       ∧ (h ∈ mediaTypes → v1 = next req res))
  ∧ ("*/*" ∉ Js.split_comma_space h →
       (¬ matches h mediaTypes → fails_with 406 v2 ∧ o_res v2 = res)
       ∧ (matches h mediaTypes → v2 = next req res)).
Proof.
  intros Hh Hne method mediaTypes v1 v2. split; [|split; [|split]].
  - intros l Hl. subst mediaTypes. unfold accepted_types. by rewrite Hl.
  - intros Hnone. subst mediaTypes. unfold accepted_types. by rewrite Hnone.
  - intros Hstar. split.
    + intros Hn Hsent. split; [by eapply V1_accept_rejects|].
      subst v1 mediaTypes method. unfold V1.validateAcceptHeaderMiddleware.
      fold (accepted_types produces consumes (Js.toLowerCase (req_method req))).
      rewrite Hh, !eqb_false_of_ne by done. cbn [negb andb].
      rewrite indexOf_absent_b, bool_decide_eq_true_2 by done.
      cbn [o_next o_res responded statusCode sent res_send res_status]. rewrite Hsent.
      split; [done|]. split; [done|]. by eexists.
    + intros Hin. by eapply V1_accept_passes.
  - intros Hstar. split.
    + intros Hn. split; [by eapply V2_accept_rejects|].
      subst v2. unfold V2.validateAcceptHeaderMiddleware. by repeat case_match.
    + intros Hm. by eapply V2_accept_passes.
Qed.

Lemma accept_406_witness :
  fails_with 406
    (V2.validateAcceptHeaderMiddleware None ∅ (json_only "get")
       (request "GET" [("accept", "text/plain")] None) res0)
  ∧ fails_with 406
      (V1.validateAcceptHeaderMiddleware ∅ (json_only "get")
         (request "GET" [("accept", "text/plain")] None) res0).
Proof.
  destruct (accept_406 None ∅ (json_only "get")
              (request "GET" [("accept", "text/plain")] None) res0 "text/plain")
    as (_ & _ & Hv1 & Hv2); [reflexivity | discriminate |].
  split.
  - apply Hv2; [compute_done | exact text_plain_not_json].
  - apply Hv1; [discriminate | compute_done | reflexivity].
Defined.

Lemma plain_or_any_not_json : ¬ matches "text/plain, */*" ["application/json"].
Proof. intros Hm. apply validated_matches in Hm. discriminate Hm. Qed.

(** C4 as stated fails on the newer pipeline: the Accept header is present,
    is not */*, and matches no entry of the produces list; because one of its
    values is */* the request is let through. *)
Lemma accept_any_value_counterexample :
  header (request "GET" [("accept", "text/plain, */*")] None) "accept"
    = Some "text/plain, */*"
  ∧ "text/plain, */*" ≠ "*/*"
  ∧ ("text/plain, */*" ∉ accepted_types (json_only "get") ∅ "get")
  ∧ ¬ matches "text/plain, */*" (accepted_types (json_only "get") ∅ "get")
  ∧ ¬ fails_with 406
        (V2.validateAcceptHeaderMiddleware None (json_only "get") ∅
           (request "GET" [("accept", "text/plain, */*")] None) res0).
Proof.
  split; [reflexivity|]. split; [discriminate|]. split; [compute_done|].
  split; [exact plain_or_any_not_json|].
  change (V2.validateAcceptHeaderMiddleware None (json_only "get") ∅
            (request "GET" [("accept", "text/plain, */*")] None) res0)
    with (next (request "GET" [("accept", "text/plain, */*")] None) res0).
  apply not_fails_with_next.
Qed.

(** The same claim fails on the older pipeline at an empty Accept header:
    nothing is declared that it could match, and it is let through. *)
Example V1_accept_empty_header :
  V1.validateAcceptHeaderMiddleware (json_only "get") ∅
    (request "GET" [("accept", "")] None) res0
  = next (request "GET" [("accept", "")] None) res0.
Proof. reflexivity. Qed.

(** In the newer pipeline a request without an Accept header, or without a
    Content-Type header on a first pass, is rejected as well. *)
Example V2_accept_absent_header :
  fails_with 406
    (V2.validateAcceptHeaderMiddleware None (json_only "get") ∅ (request "GET" [] None) res0).
Proof. right. eexists. split; reflexivity. Qed.

(** ** The validator adapter *)

Section ValidatorAdapter.

Lemma lower_content_type_nonempty name :
  Js.toLowerCase name = "content-type" → String.eqb name "" = false.
Proof. intros Hl. apply String.eqb_neq. intros ->. discriminate Hl. Qed.

Lemma validateInput_invalid validator consumes req res value error :
  acc_get (valueAccessor (parameter validator) consumes) req (p_name (parameter validator))
  = Ok value →
  validate validator value = Invalid error →
  validateInput validator consumes req res
  = Ok (responded req
          (res_send
             (res_status res (err_status (validation_error (parameter validator) value error)))
             (BodyErrors [validation_error (parameter validator) value error]))).
Proof. intros Hget Hval. unfold validateInput. rewrite Hget. simpl. by rewrite Hval. Qed.

Lemma detail_of_cases error :
  (∀ m rest, verr_details error = Some (Some m :: rest) → m ≠ "" → detail_of error = m)
  ∧ ((∀ m rest, verr_details error = Some (Some m :: rest) → m = "") →
     detail_of error = "Validation Error").
Proof.
  unfold detail_of. split.
  - intros m rest -> Hne. by rewrite eqb_false_of_ne.
  - intros Hall. destruct (verr_details error) as [[|[m|] rest]|]; try reflexivity.
    by rewrite (Hall m rest eq_refl).
Qed.

Lemma title_of_cases error :
  (∀ n, verr_name error = Some n → n ≠ "" → title_of error = n)
  ∧ (verr_name error = None ∨ verr_name error = Some "" → title_of error = "Bad Request").
Proof.
  unfold title_of. split.
  - intros n -> Hne. by rewrite eqb_false_of_ne.
  - intros [-> | ->]; reflexivity.
Qed.

End ValidatorAdapter.

(** C5 (as amended). When the validate function of a parameter reports an
    error, the validator middleware sends one error entry and does not call
    next. The status of the response is the status of the entry. Its detail is
    the first detail message the validator reported, or "Validation Error".
    When the parameter is required and the accessed value is falsy, the status
    is 400 and the title "Missing Value for Required Header"; otherwise, when
    the name of the parameter is content-type in any letter case, the status
    is 415 and the title "Unsupported Media Type"; otherwise the status is 400
    and the title is the name of the error, or "Bad Request". *)
Theorem validator_failure_payload (validator : Validator) (consumes : option (list string))
    (req : Req) (res : Res) (value : JsVal) (error : VError) :
  let param := parameter validator in
  acc_get (valueAccessor param consumes) req (p_name param) = Ok value →
  validate validator value = Invalid error →
  ∃ err,
    validateInput validator consumes req res
    = Ok (responded req (res_send (res_status res (err_status err)) (BodyErrors [err])))
    ∧ err_detail err = detail_of error
    ∧ (p_required param = true → falsy value = true →
         err_status err = 400%nat ∧ err_title err = "Missing Value for Required Header")
    ∧ (p_required param && falsy value = false →
         (Js.toLowerCase (p_name param) = "content-type" →
            err_status err = 415%nat ∧ err_title err = "Unsupported Media Type")
         ∧ (Js.toLowerCase (p_name param) ≠ "content-type" →
              err_status err = 400%nat ∧ err_title err = title_of error)).
Proof.
  intros param Hget Hval. exists (validation_error param value error).
  split; [by apply validateInput_invalid|].
  unfold validation_error. split; [|split].
  - by repeat case_match.
  - intros -> ->. simpl. done.
  - intros ->. split.
    + intros Hl. rewrite (lower_content_type_nonempty _ Hl), Hl. simpl. done.
    + intros Hl. rewrite (eqb_false_of_ne _ _ Hl), andb_false_r. done.
Qed.

Lemma validator_failure_payload_witness :
  ∃ err,
    validateInput
      {| parameter := {| p_name := "Content-Type"; p_in := InHeader; p_required := true;
                         p_type := Some "string" |};
         validate := always_invalid |}
      None (request "POST" [("content-type", "text/xml")] None) res0
    = Ok (responded (request "POST" [("content-type", "text/xml")] None)
            (res_send (res_status res0 (err_status err)) (BodyErrors [err])))
    ∧ err_status err = 415%nat ∧ err_title err = "Unsupported Media Type"
    ∧ err_detail err = "Validation Error".
Proof.
  destruct (validator_failure_payload
              {| parameter := {| p_name := "Content-Type"; p_in := InHeader;
                                 p_required := true; p_type := Some "string" |};
                 validate := always_invalid |}
              None (request "POST" [("content-type", "text/xml")] None) res0
              (JStr "text/xml") {| verr_name := None; verr_details := None |}
              eq_refl eq_refl) as (err & Hrun & Hdetail & _ & Hother).
  exists err. split; [exact Hrun|].
  destruct (Hother eq_refl) as [Hct _]. destruct (Hct eq_refl) as [Hs Ht].
  split; [exact Hs|]. split; [exact Ht | exact Hdetail].
Defined.

(** C5 as stated fails where its two exceptions meet: a required parameter
    named Content-Type whose header is missing from the request is answered
    with 400 and "Missing Value for Required Header", not with 415. *)
Lemma required_content_type_counterexample :
  Js.toLowerCase "Content-Type" = "content-type"
  ∧ validateInput
      {| parameter := {| p_name := "Content-Type"; p_in := InHeader; p_required := true;
                         p_type := Some "string" |};
         validate := always_invalid |}
      None (request "POST" [] None) res0
    = Ok (responded (request "POST" [] None)
            (res_send (res_status res0 400)
               (BodyErrors [{| err_detail := "Validation Error"; err_status := 400;
                               err_title := "Missing Value for Required Header" |}])))
  ∧ 400%nat ≠ 415%nat.
Proof. split; [reflexivity|]. split; [reflexivity | discriminate]. Qed.

(** ** The authorization adapter *)

Section Authorization.

Lemma report_scopes defs req res s entry :
  report defs (set_requiredScopes req s) res entry = report defs req res entry.
Proof. reflexivity. Qed.

(** Once [done(true)] has been called, the outcome is settled. *)
Lemma some_passed_called defs security errors o req res :
  (some_passed defs security errors (Some o) req res).1 = o.
Proof.
  revert errors req. induction security as [|[type scheme] rest IH]; intros errors req;
    [done|].
  cbn [some_passed]. destruct (authorize scheme) as [f|]; [|apply IH].
  destruct (truthy _); apply IH.
Qed.

(** Every scheme with a callback writes its scopes, whatever the outcome. *)
Lemma some_passed_leaves defs security errors called req res :
  (some_passed defs security errors called req res).2 = consulted security req.
Proof.
  revert errors called req.
  induction security as [|[type scheme] rest IH]; intros errors called req; [done|].
  cbn [some_passed consulted foldl snd]. destruct (authorize scheme) as [f|]; [|apply IH].
  destruct (truthy _); apply IH.
Qed.

Lemma some_passed_success defs security errors req res :
  Exists (authorizes defs req res) security →
  o_next (some_passed defs security errors None req res).1 = Some JUndefined
  ∧ o_res (some_passed defs security errors None req res).1 = res.
Proof.
  revert errors req. induction security as [|[type scheme] rest IH]; intros errors req Hex.
  - by apply Exists_nil in Hex.
  - cbn [some_passed]. destruct (authorize scheme) as [f|] eqn:Hf.
    + fold (definition_of defs type).
      destruct (truthy (f _ _ res)) eqn:Ht.
      * apply Exists_cons in Hex as [[_ Hpass] | Hex].
        -- unfold report in Hpass. simpl in Hpass. rewrite Hf in Hpass. congruence.
        -- apply IH. eapply Exists_impl; [exact Hex|].
           intros entry [Hsome Hrep]. split; [done|]. by rewrite report_scopes.
      * by rewrite some_passed_called.
    + apply Exists_cons in Hex as [[Hsome _] | Hex].
      * simpl in Hsome. rewrite Hf in Hsome. by destruct Hsome.
      * by apply IH.
Qed.

Lemma some_passed_failure defs security errors req res :
  Forall (fun entry => ¬ authorizes defs req res entry) security →
  o_next (some_passed defs security errors None req res).1
    = Some (shift (errors ++ (report defs req res <$> security)))
  ∧ o_res (some_passed defs security errors None req res).1 = res_status res 401.
Proof.
  revert errors req. induction security as [|[type scheme] rest IH]; intros errors req Hall.
  - simpl. by rewrite app_nil_r.
  - apply Forall_cons in Hall as [Hhead Hall]. cbn [some_passed].
    destruct (authorize scheme) as [f|] eqn:Hf.
    + fold (definition_of defs type).
      destruct (truthy (f _ _ res)) eqn:Ht.
      * destruct (IH (errors ++ [f (definition_of defs type)
                                   (set_requiredScopes req (scopes scheme)) res])
                    (set_requiredScopes req (scopes scheme))) as [Hn Hr].
        { eapply Forall_impl; [exact Hall|]. intros entry Hno [Hsome Hrep].
          apply Hno. split; [done|]. by rewrite report_scopes in Hrep. }
        rewrite Hn, Hr. split; [|done]. rewrite <- app_assoc. simpl.
        assert (report defs req res (type, scheme)
                = f (definition_of defs type) (set_requiredScopes req (scopes scheme)) res)
          as -> by (unfold report; simpl; by rewrite Hf).
        reflexivity.
      * exfalso. apply Hhead. split; [simpl; by rewrite Hf|].
        unfold report. simpl. by rewrite Hf.
    + destruct (IH (errors ++ [JError "Unauthorized."]) req Hall) as [Hn Hr].
      rewrite Hn, Hr. split; [|done]. rewrite <- app_assoc. simpl.
      assert (report defs req res (type, scheme) = JError "Unauthorized.")
        as -> by (unfold report; simpl; by rewrite Hf).
      reflexivity.
Qed.

Lemma report_failure_truthy defs req res entry :
  ¬ authorizes defs req res entry → truthy (report defs req res entry) = true.
Proof.
  intros Hno. destruct (truthy (report defs req res entry)) eqn:Ht; [done|].
  destruct (authorize entry.2) as [f|] eqn:Hf.
  - exfalso. apply Hno. split; [by rewrite Hf | done].
  - unfold report in Ht. by rewrite Hf in Ht.
Qed.

End Authorization.

(** C6 (the code departs from it on a security object without schemes).
    The schemes of a security requirement are alternatives. If one of them
    has an authorize callback that reports success, the middleware calls next
    without an error and leaves the response as it is. If the security object
    names at least one scheme and each scheme lacks a callback or has one that
    reports an error, the status code of the response is set to 401 and next
    is called with the error of the first scheme that failed (the error raised
    for a scheme without callback is "Unauthorized."), which is an error for
    the error handling of Express. With a security object that names no
    scheme the middleware refuses in the same way, the status code being set
    to 401, but has no error to forward: next is called with undefined and the
    request goes on to the handler. *)
Theorem authorize_any_scheme (security : list (string * Scheme))
    (securityDefinitions : option (gmap string JsVal)) (req : Req) (res : Res) :
  let o := authorizeFor security securityDefinitions req res in
  (Exists (authorizes securityDefinitions req res) security →
     o_next o = Some JUndefined ∧ o_res o = res)
  ∧ (Forall (fun entry => ¬ authorizes securityDefinitions req res entry) security →
       statusCode (o_res o) = 401%nat
       ∧ o_next o = Some (shift (report securityDefinitions req res <$> security))
       ∧ ∀ first rest, security = first :: rest →
           o_next o = Some (report securityDefinitions req res first)
           ∧ truthy (report securityDefinitions req res first) = true
           ∧ (authorize first.2 = None →
                report securityDefinitions req res first = JError "Unauthorized."))
  ∧ (security = [] → o = next req (res_status res 401)).
Proof.
  intros o. subst o. unfold authorizeFor. split; [|split].
  - intros Hex. by apply some_passed_success.
  - intros Hall.
    destruct (some_passed_failure securityDefinitions security [] req res Hall) as [Hn Hr].
    rewrite Hn, Hr. simpl. split; [done|]. split; [done|].
    intros first rest ->. simpl. split; [done|].
    apply Forall_cons in Hall as [Hfirst _].
    split; [by apply report_failure_truthy|].
    intros Hnone. unfold report. by rewrite Hnone.
  - by intros ->.
Qed.

Lemma authorize_any_scheme_witness :
  o_next (authorizeFor
            [("api_key", {| scopes := None; authorize := None |});
             ("oauth", {| scopes := Some ["read"]; authorize := Some allow |})]
            None (request "GET" [] None) res0) = Some JUndefined
  ∧ statusCode (o_res (authorizeFor
            [("api_key", {| scopes := None; authorize := None |});
             ("oauth", {| scopes := Some ["read"]; authorize := Some deny |})]
            None (request "GET" [] None) res0)) = 401%nat
  ∧ o_next (authorizeFor
            [("api_key", {| scopes := None; authorize := None |});
             ("oauth", {| scopes := Some ["read"]; authorize := Some deny |})]
            None (request "GET" [] None) res0) = Some (JError "Unauthorized.").
Proof.
  split.
  - refine (proj1 (proj1 (authorize_any_scheme _ None (request "GET" [] None) res0) _)).
    apply Exists_cons_tl, Exists_cons_hd. split; [by eexists | reflexivity].
  - assert (Forall (fun entry => ¬ authorizes None (request "GET" [] None) res0 entry)
              [("api_key", {| scopes := None; authorize := None |});
               ("oauth", {| scopes := Some ["read"]; authorize := Some deny |})]) as Hall.
    { repeat apply Forall_cons_2; [| |apply Forall_nil_2].
      - intros [[f Hf] _]. discriminate Hf.
      - intros [_ Ht]. discriminate Ht. }
    destruct (proj1 (proj2 (authorize_any_scheme _ None (request "GET" [] None) res0)) Hall)
      as (Hstatus & _ & Hfirst).
    split; [exact Hstatus|].
    exact (proj1 (Hfirst _ _ eq_refl)).
Defined.

(** The input on which the code departs from C6: a security object without
    schemes. Every scheme of it lacks a callback or fails, none being there,
    yet no error is forwarded: the status code is set to 401, next is called
    without an error, and the handler of the route runs. *)
Lemma empty_security_counterexample :
  Forall (fun entry => ¬ authorizes None (request "GET" [] None) res0 entry) []
  ∧ authorizeFor [] None (request "GET" [] None) res0
    = next (request "GET" [] None) (res_status res0 401)
  ∧ truthy JUndefined = false
  ∧ run_chain V1.run [MwAuthorize [] None; MwHandler handler_ok] (request "GET" [] None) res0
    = Ok (handler_ok (request "GET" [] None) (res_status res0 401)).
Proof. split; [by apply Forall_nil|]. repeat split. Qed.

(** ** Route registration *)

Section RouteBuilder.
Context `{Utils}.

Lemma makeExpressRoute_router router mountpath route defs :
  ∃ call, (makeExpressRoute router mountpath route defs).1 = router ++ [call]
          ∧ registers mountpath route call.
Proof.
  unfold makeExpressRoute, registers.
  destruct (handler route) as [f|pre last] eqn:Hh; simpl; rewrite ?Hh.
  - eexists. split; [reflexivity|]. by eexists _, f.
  - eexists. split; [reflexivity|]. by eexists _, last.
Qed.

Lemma makeExpressRoute_route router mountpath route defs :
  (makeExpressRoute router mountpath route defs).2
  = match handler route with
    | HFunction _ => route
    | HArray _ last => set_handler route (HFunction last)
    end.
Proof. unfold makeExpressRoute. by destruct (handler route). Qed.

End RouteBuilder.

(** C8 (as amended). Registering a route with makeExpressRoute leaves its
    method, path, validators, consumes, produces and security as they were. Its
    handler is left as it was when it is a function; when it was declared as
    an array, the field is overwritten with the last entry of the array. *)
Theorem makeExpressRoute_frame `{Utils} (router : list RouterCall) (mountpath : string)
    (route : Route) (securityDefinitions : option (gmap string JsVal)) :
  let route' := (makeExpressRoute router mountpath route securityDefinitions).2 in
  method route' = method route
  ∧ path route' = path route
  ∧ validators route' = validators route
  ∧ consumes route' = consumes route
  ∧ produces route' = produces route
  ∧ security route' = security route
  ∧ (∀ f, handler route = HFunction f → route' = route)
  ∧ (∀ pre last, handler route = HArray pre last → handler route' = HFunction last).
Proof.
  intros route'. subst route'. rewrite makeExpressRoute_route.
  destruct (handler route) as [f|pre last] eqn:Hh; simpl; repeat split; try done.
  intros pre' last' [= _ ->]. done.
Qed.

Lemma makeExpressRoute_frame_witness :
  handler (makeExpressRoute (H := sample_utils) [] "/v1"
             (sample_route VGet "/pets/{id}" (HArray [handler_log] handler_ok) None None)
             None).2
  = HFunction handler_ok.
Proof.
  exact (proj2 (proj2 (proj2 (proj2 (proj2 (proj2 (proj2
    (makeExpressRoute_frame (H := sample_utils) [] "/v1"
       (sample_route VGet "/pets/{id}" (HArray [handler_log] handler_ok) None None)
       None)))))))
    [handler_log] handler_ok eq_refl).
Defined.

(** C8 as stated fails for a route whose handler is an array: after the
    registration the handler field holds the last function of the array. *)
Lemma handler_array_counterexample :
  handler (makeExpressRoute (H := sample_utils) [] "/v1"
             (sample_route VGet "/pets/{id}" (HArray [handler_log] handler_ok) None None)
             None).2
  ≠ handler (sample_route VGet "/pets/{id}" (HArray [handler_log] handler_ok) None None).
Proof. discriminate. Qed.

(** ** The registration tables *)

Section ArrayFacts.

Lemma indexOf_app_in pre suf v : v ∈ pre → Js.indexOf (pre ++ suf) v = Js.indexOf pre v.
Proof.
  induction pre as [|x r IH]; intros Hin; [by apply elem_of_nil in Hin|].
  simpl. destruct (String.eqb_spec x v) as [->|Hne]; [done|].
  apply elem_of_cons in Hin as [->|Hin]; [done|]. by rewrite IH.
Qed.

Lemma indexOf_lt a v : Js.indexOf a v < Z.of_nat (length a).
Proof.
  induction a as [|x r IH]; simpl; [lia|].
  destruct (String.eqb x v); [lia|].
  destruct (Js.indexOf r v <? 0); lia.
Qed.

Lemma indexOf_app_first pre s v :
  v ∉ pre → Js.indexOf (pre ++ v :: s) v = Z.of_nat (length pre).
Proof.
  induction pre as [|x r IH]; intros Hn; simpl.
  - by rewrite String.eqb_refl.
  - apply not_elem_of_cons in Hn as [Hne Hn].
    rewrite eqb_false_of_ne by done. rewrite IH by done.
    destruct (Z.of_nat (length r) <? 0) eqn:E; [apply Z.ltb_lt in E|]; lia.
Qed.

Lemma filter_from_fresh suf pre :
  Js.filter_from (fun v i => Js.indexOf (pre ++ suf) v =? i) (Z.of_nat (length pre)) suf
  = fresh pre suf.
Proof.
  revert pre. induction suf as [|x s IH]; intros pre; [done|].
  simpl. replace (pre ++ x :: s) with ((pre ++ [x]) ++ s) by (by rewrite <- app_assoc).
  replace (Z.of_nat (length pre) + 1) with (Z.of_nat (length (pre ++ [x])))
    by (rewrite length_app; simpl; lia).
  rewrite IH. rewrite <- app_assoc. simpl.
  destruct (decide (x ∈ pre)) as [Hin|Hn].
  - rewrite bool_decide_eq_true_2 by done. rewrite indexOf_app_in by done.
    pose proof (indexOf_lt pre x).
    destruct (Js.indexOf pre x =? Z.of_nat (length pre)) eqn:E; [|done].
    apply Z.eqb_eq in E. lia.
  - rewrite bool_decide_eq_false_2 by done. rewrite indexOf_app_first by done.
    by rewrite Z.eqb_refl.
Qed.

Lemma fresh_spec suf pre :
  NoDup (fresh pre suf) ∧ ∀ y, y ∈ fresh pre suf ↔ y ∈ suf ∧ y ∉ pre.
Proof.
  revert pre. induction suf as [|x s IH]; intros pre; simpl.
  - split; [constructor | set_solver].
  - destruct (IH (pre ++ [x])) as [Hnd Hmem].
    destruct (decide (x ∈ pre)) as [Hin|Hn].
    + rewrite bool_decide_eq_true_2 by done. split; [done|].
      intros y. rewrite Hmem. set_solver.
    + rewrite bool_decide_eq_false_2 by done. split.
      * apply NoDup_cons. split; [|done]. rewrite Hmem. set_solver.
      * intros y. rewrite elem_of_cons, Hmem.
        destruct (decide (y = x)) as [->|Hne]; set_solver.
Qed.

Lemma uniq_fresh a : Js.uniq a = fresh [] a.
Proof. unfold Js.uniq. exact (filter_from_fresh a []). Qed.

Lemma uniq_NoDup a : NoDup (Js.uniq a).
Proof. rewrite uniq_fresh. apply fresh_spec. Qed.

Lemma uniq_elem_of a y : y ∈ Js.uniq a ↔ y ∈ a.
Proof.
  rewrite uniq_fresh. destruct (fresh_spec a []) as [_ Hmem]. rewrite Hmem. set_solver.
Qed.

Lemma keys_set {V} (o : list (string * V)) k v :
  JsObject.keys (JsObject.set o k v)
  = if bool_decide (k ∈ JsObject.keys o) then JsObject.keys o else JsObject.keys o ++ [k].
Proof.
  unfold JsObject.keys. induction o as [|[k' v'] r IH]; [done|].
  cbn [JsObject.set]. destruct (String.eqb_spec k' k) as [->|Hne].
    + rewrite !fmap_cons. simpl. by rewrite bool_decide_eq_true_2 by left.
    + rewrite !fmap_cons, IH. simpl. destruct (decide (k ∈ r.*1)) as [Hin|Hn].
      * rewrite !bool_decide_eq_true_2; [done | by right | done].
      * rewrite !bool_decide_eq_false_2; [done | | done].
        apply not_elem_of_cons. split; [congruence | done].
Qed.

Lemma get_set_eq {V} (o : list (string * V)) k v :
  JsObject.get (JsObject.set o k v) k = Some v.
Proof.
  induction o as [|[k' v'] r IH]; simpl.
  - by rewrite String.eqb_refl.
  - destruct (String.eqb_spec k' k) as [->|Hne]; simpl.
    + by rewrite String.eqb_refl.
    + by rewrite eqb_false_of_ne.
Qed.

Lemma record_media_unique table routePath method declared :
  table_unique table → table_unique (record_media table routePath method declared).
Proof.
  intros Huniq p forPath m l. unfold record_media.
  destruct (decide (routePath = p)) as [->|Hp].
  - rewrite lookup_insert_eq. intros [= <-].
    destruct (decide (method = m)) as [->|Hm].
    + rewrite lookup_insert_eq. intros [= <-]. apply uniq_NoDup.
    + rewrite lookup_insert_ne by done.
      destruct (table !! p) as [fp|] eqn:Hfp; simpl.
      * by apply (Huniq p fp).
      * by rewrite lookup_empty.
  - rewrite lookup_insert_ne by done. apply Huniq.
Qed.

End ArrayFacts.

Section RegistrationFacts.
Context `{Utils}.

Lemma record_route_frame mountpath t router route defs :
  record_route mountpath t (makeExpressRoute router mountpath route defs).2
  = record_route mountpath t route.
Proof. rewrite makeExpressRoute_route. by destruct (handler route). Qed.

Lemma register_routes_tables mountpath defs routes router t :
  (register_routes mountpath defs routes router t).1.2 = foldl (record_route mountpath) t routes.
Proof.
  revert router t. induction routes as [|route rest IH]; intros router t; [done|].
  simpl. destruct (makeExpressRoute router mountpath route defs) as [router1 route1] eqn:E1.
  specialize (IH router1 (record_route mountpath t route1)).
  destruct (register_routes mountpath defs rest router1 _) as [[router2 t2] rest2].
  simpl in *. rewrite IH. f_equal.
  replace route1 with (makeExpressRoute router mountpath route defs).2 by (by rewrite E1).
  apply record_route_frame.
Qed.

Lemma register_routes_router mountpath defs routes router t :
  ∃ calls, (register_routes mountpath defs routes router t).1.1 = router ++ calls
           ∧ Forall2 (registers mountpath) routes calls.
Proof.
  revert router t. induction routes as [|route rest IH]; intros router t.
  - exists []. split; [by rewrite app_nil_r | constructor].
  - simpl. destruct (makeExpressRoute_router router mountpath route defs) as (call & Hr & Hc).
    destruct (makeExpressRoute router mountpath route defs) as [router1 route1].
    simpl in Hr. subst router1.
    destruct (IH (router ++ [call]) (record_route mountpath t route1)) as (calls & Hcalls & Hall).
    destruct (register_routes mountpath defs rest (router ++ [call]) _) as [[router2 t2] rest2].
    simpl in *. exists (call :: calls). split.
    + by rewrite Hcalls, <- app_assoc.
    + by constructor.
Qed.

Lemma record_route_keys mountpath t route :
  let p := buildRoutePath mountpath (path route) in
  JsObject.keys (routesMethod (record_route mountpath t route))
  = if bool_decide (p ∈ JsObject.keys (routesMethod t))
    then JsObject.keys (routesMethod t)
    else JsObject.keys (routesMethod t) ++ [p].
Proof. simpl. apply keys_set. Qed.

Lemma foldl_record_route_keys mountpath routes t :
  NoDup (JsObject.keys (routesMethod t)) →
  NoDup (JsObject.keys (routesMethod (foldl (record_route mountpath) t routes)))
  ∧ ∀ p, p ∈ JsObject.keys (routesMethod (foldl (record_route mountpath) t routes))
         ↔ p ∈ JsObject.keys (routesMethod t) ∨ p ∈ resolved_paths mountpath routes.
Proof.
  revert t. induction routes as [|route rest IH]; intros t Hnd; simpl.
  - split; [done|]. intros p. unfold resolved_paths. set_solver.
  - pose proof (record_route_keys mountpath t route) as Hk. cbv zeta in Hk.
    destruct (IH (record_route mountpath t route)) as [Hnd' Hmem].
    + rewrite Hk. case_bool_decide; [done|].
      apply NoDup_app. split; [done|]. split; [set_solver | apply NoDup_singleton].
    + split; [done|]. intros p. rewrite Hmem, Hk.
      change (resolved_paths mountpath (route :: rest))
        with (buildRoutePath mountpath (path route) :: resolved_paths mountpath rest).
      case_bool_decide; set_solver.
Qed.

Lemma distinct_keys (keys paths : list string) :
  NoDup keys → (∀ p, p ∈ keys ↔ p ∈ paths) → length keys = distinct paths.
Proof.
  intros Hnd Hmem. unfold distinct. rewrite <- (size_list_to_set (C := gset string) keys) by done.
  f_equal. apply set_eq. intros p. by rewrite !elem_of_list_to_set.
Qed.

Lemma foldl_record_route_unique mountpath routes t :
  table_unique (routesConsumes t) → table_unique (routesProduces t) →
  table_unique (routesConsumes (foldl (record_route mountpath) t routes))
  ∧ table_unique (routesProduces (foldl (record_route mountpath) t routes)).
Proof.
  revert t. induction routes as [|route rest IH]; intros t Hc Hp; [done|].
  simpl. apply IH; simpl; by apply record_media_unique.
Qed.

Lemma table_unique_lookup table routePath :
  table_unique table →
  ∀ method l, default ∅ (table !! routePath) !! method = Some l → NoDup l.
Proof.
  intros Huniq method l. destruct (table !! routePath) as [fp|] eqn:Hfp; simpl.
  - by apply (Huniq routePath fp).
  - by rewrite lookup_empty.
Qed.

Lemma table_unique_empty : table_unique ∅.
Proof. intros p fp m l Hp. by rewrite lookup_empty in Hp. Qed.

Lemma V1_use_group_attaches t p : attaches p (V1.use_group t p).
Proof. by eexists [], _, _, _. Qed.

Lemma V2_use_group_attaches api t p : attaches p (V2.use_group api t p).
Proof. by eexists [_], _, _, _. Qed.

Lemma V1_use_group_unique t p :
  table_unique (routesConsumes t) → table_unique (routesProduces t) →
  negotiates_unique (V1.use_group t p).
Proof.
  intros Hc Hp. simpl. repeat constructor; simpl; by apply table_unique_lookup.
Qed.

Lemma V2_use_group_unique api t p :
  table_unique (routesConsumes t) → table_unique (routesProduces t) →
  negotiates_unique (V2.use_group api t p).
Proof.
  intros Hc Hp. simpl. repeat constructor; simpl; by apply table_unique_lookup.
Qed.

Lemma registers_unique mountpath route call :
  registers mountpath route call → negotiates_unique call.
Proof. by intros (before & f & ->). Qed.

Ltac mount_shape :=
  cbv zeta;
  match goal with
  | |- context [register_routes ?mp ?defs ?rs ?r0 ?t0] =>
      let Ht := fresh "Ht" in
      let Hcalls := fresh "Hcalls" in
      let Hall := fresh "Hall" in
      let calls := fresh "calls" in
      pose proof (register_routes_tables mp defs rs r0 t0) as Ht;
      destruct (register_routes_router mp defs rs r0 t0) as (calls & Hcalls & Hall);
      destruct (register_routes mp defs rs r0 t0) as [[? ?] ?];
      cbn [fst snd] in Ht, Hcalls; subst;
      cbn [m_router]; rewrite <- !app_assoc;
      eexists _, calls
  end.

(** The router a mount leaves, in both pipelines: the documentation endpoint,
    one registration per route, one group per key of [routesMethod]. *)
Lemma V1_expressroutes_router router options :
  let mountpath := mountpath_of options in
  let routes := default [] (routes options) in
  let t := foldl (record_route mountpath) empty_tables routes in
  ∃ docs calls,
    m_router (V1.expressroutes router options)
    = router ++ docs :: calls ++ (V1.use_group t <$> JsObject.keys (routesMethod t))
    ∧ is_register docs = true
    ∧ Forall2 (registers mountpath) routes calls.
Proof.
  unfold V1.expressroutes. mount_shape.
  split; [reflexivity|]. split; [reflexivity | exact Hall].
Qed.

Lemma V2_expressroutes_router errorName router options :
  let mountpath := mountpath_of options in
  let routes := default [] (routes options) in
  let t := foldl (record_route mountpath) empty_tables routes in
  ∃ docs calls api,
    m_router (V2.expressroutes errorName router options)
    = router ++ docs :: calls ++ (V2.use_group api t <$> JsObject.keys (routesMethod t))
    ∧ is_register docs = true
    ∧ Forall2 (registers mountpath) routes calls.
Proof.
  unfold V2.expressroutes. mount_shape. eexists.
  split; [reflexivity|]. split; [reflexivity | exact Hall].
Qed.

End RegistrationFacts.

Section Mounting.
Context `{Utils}.

Lemma Forall2_fmap_diag {A B} (R : A → B → Prop) (f : A → B) (l : list A) :
  (∀ x, R x (f x)) → Forall2 R l (f <$> l).
Proof. intros HR. induction l; constructor; auto. Qed.

Lemma shape_of_router router mountpath routes m docs calls (group : string → RouterCall) t :
  t = foldl (record_route mountpath) empty_tables routes →
  m_router m = router ++ docs :: calls ++ (group <$> JsObject.keys (routesMethod t)) →
  is_register docs = true →
  Forall2 (registers mountpath) routes calls →
  (∀ p, attaches p (group p)) →
  registration_shape router mountpath routes m.
Proof.
  intros -> Hrouter Hdocs Hcalls Hgroup.
  destruct (foldl_record_route_keys mountpath routes empty_tables) as [Hnd Hmem];
    [constructor|].
  exists docs, calls,
    (JsObject.keys (routesMethod (foldl (record_route mountpath) empty_tables routes))),
    (group <$> JsObject.keys (routesMethod (foldl (record_route mountpath)
                                             empty_tables routes))).
  split; [exact Hrouter|]. split; [exact Hdocs|]. split; [exact Hcalls|].
  split; [symmetry; by eapply Forall2_length|].
  split; [by apply Forall2_fmap_diag|].
  split; [exact Hnd|].
  assert (∀ p, p ∈ JsObject.keys (routesMethod (foldl (record_route mountpath)
                                                  empty_tables routes))
               ↔ p ∈ resolved_paths mountpath routes) as Hsame.
  { intros p. rewrite Hmem. simpl. set_solver. }
  split; [exact Hsame|].
  rewrite length_fmap. by apply distinct_keys.
Qed.

Lemma unique_of_router router m docs calls (group : string → RouterCall) keys mountpath routes :
  m_router m = router ++ docs :: calls ++ (group <$> keys) →
  is_register docs = true →
  Forall2 (registers mountpath) routes calls →
  (∀ p, negotiates_unique (group p)) →
  Forall negotiates_unique (added router m).
Proof.
  intros Hrouter Hdocs Hcalls Hgroup. unfold added. rewrite Hrouter, drop_app_length.
  apply Forall_cons. split; [by destruct docs|].
  apply Forall_app. split.
  - clear Hrouter. induction Hcalls as [|route call]; constructor; [|done].
    by eapply registers_unique.
  - apply Forall_fmap, Forall_forall. intros p _. apply Hgroup.
Qed.

End Mounting.

(** C7. Mounting a list of routes adds to the router, after the documentation
    endpoint, exactly one method-handler registration per route, each under
    the method and the resolved path of its route, and then exactly one group
    of not-allowed and content-negotiation middlewares per distinct resolved
    path: as many groups as there are distinct resolved paths. This holds for
    both pipelines. *)
Theorem expressroutes_registrations `{Utils} (errorName : option string)
    (router : list RouterCall) (options : Options) :
  registration_shape router (mountpath_of options) (default [] (routes options))
    (V1.expressroutes router options)
  ∧ registration_shape router (mountpath_of options) (default [] (routes options))
      (V2.expressroutes errorName router options).
Proof.
  split.
  - destruct (V1_expressroutes_router router options) as (docs & calls & Hrouter & Hdocs & Hcalls).
    eapply shape_of_router; [reflexivity | exact Hrouter | exact Hdocs | exact Hcalls |].
    intros p. apply V1_use_group_attaches.
  - destruct (V2_expressroutes_router errorName router options)
      as (docs & calls & api & Hrouter & Hdocs & Hcalls).
    eapply shape_of_router; [reflexivity | exact Hrouter | exact Hdocs | exact Hcalls |].
    intros p. apply V2_use_group_attaches.
Qed.

Example pet_routes_counts :
  length pet_routes = 3%nat
  ∧ distinct (resolved_paths (H := sample_utils) "/v1" pet_routes) = 2%nat
  ∧ length (filter (fun c => is_register c = true)
              (m_router (V2.expressroutes (H := sample_utils) None [] pet_options))) = 4%nat
  ∧ length (filter (fun c => is_use c = true)
              (m_router (V2.expressroutes (H := sample_utils) None [] pet_options))) = 2%nat.
Proof. vm_compute. done. Qed.

(** C10. Every list of media types that a mount hands to a Content-Type or
    Accept middleware, for whatever path and method, holds no entry twice, in
    both pipelines and whatever the routes declare. *)
Theorem recorded_media_types_unique `{Utils} (errorName : option string)
    (router : list RouterCall) (options : Options) :
  Forall negotiates_unique (added router (V1.expressroutes router options))
  ∧ Forall negotiates_unique (added router (V2.expressroutes errorName router options)).
Proof.
  destruct (foldl_record_route_unique (mountpath_of options) (default [] (routes options))
              empty_tables table_unique_empty table_unique_empty) as [Hc Hp].
  split.
  - destruct (V1_expressroutes_router router options) as (docs & calls & Hrouter & Hdocs & Hcalls).
    eapply unique_of_router; [exact Hrouter | exact Hdocs | exact Hcalls |].
    intros p. by apply V1_use_group_unique.
  - destruct (V2_expressroutes_router errorName router options)
      as (docs & calls & api & Hrouter & Hdocs & Hcalls).
    eapply unique_of_router; [exact Hrouter | exact Hdocs | exact Hcalls |].
    intros p. by apply V2_use_group_unique.
Qed.

Example pet_routes_media :
  (λ call, match call with Use p chain => Some (p, chain) | _ => None end)
    <$> m_router (V1.expressroutes (H := sample_utils) [] pet_options) !! 4%nat
  = Some (Some ("/v1/pets",
       [MwNotAllowed ["get"; "post"];
        MwContentType {[ "get" := []; "post" := ["application/json"] ]};
        MwAccept {[ "get" := ["application/json"; "text/xml"];
                    "post" := ["application/json"] ]}
                 {[ "get" := []; "post" := ["application/json"] ]}])).
Proof. vm_compute. reflexivity. Qed.

(** ** The scaffolding tool *)

Section Scaffolding.
Import Create.

Example pathname_of_ex :
  pathname_of "/pets/{id}" = "pets" ∧ pathname_of "/pets" = "pets"
  ∧ pathname_of "/store/order/{orderId}/items" = "store/order/items".
Proof. done. Qed.

Example own_keys_ex :
  own_keys [("b", 1%nat); ("10", 2%nat); ("a", 3%nat); ("2", 4%nat); ("01", 5%nat)]
  = ["2"; "10"; "b"; "a"; "01"].
Proof. reflexivity. Qed.

(** The two operations of the sample end up in one file, written once. *)
Example pets_one_file :
  createHandlers render_names pets_apis ["handlers"] fresh_world
  = (Ok (), {| fs := {[ ["handlers"] := Dir;
                        ["handlers"; "pets.js"]
                          := File "pets: get=findPets get=findPet delete=deletePet" ]};
               warned := [] |}).
Proof. vm_compute. reflexivity. Qed.

(** A file that is there is left alone, with a warning. *)
Example pets_not_overwritten :
  createHandlers render_names pets_apis ["handlers"] used_world
  = (Ok (), {| fs := fs used_world; warned := [["handlers"; "pets.js"]] |}).
Proof. vm_compute. reflexivity. Qed.

(** *** Nothing that exists is overwritten *)

Lemma keeps_ret {A} (a : A) : keeps (fs_ret a).
Proof. by intros w p n Hp. Qed.

Lemma keeps_bind {A B} (m : Fs A) (k : A → Fs B) :
  keeps m → (∀ a, keeps (k a)) → keeps (fs_bind m k).
Proof.
  intros Hm Hk w p n Hp. unfold fs_bind.
  specialize (Hm w p n Hp). destruct (m w) as [[a|e] w']; simpl in *; [|done].
  by apply Hk.
Qed.

Lemma keeps_warn p : keeps (warn p).
Proof. by intros w q n Hq. Qed.

Lemma keeps_existsSync p : keeps (existsSync p).
Proof. by intros w q n Hq. Qed.

Lemma keeps_mkdirSync p : keeps (mkdirSync p).
Proof.
  intros w q n Hq. unfold mkdirSync.
  destruct (fs w !! p) eqn:Hp; [done|].
  destruct (blocked w p); [done|]. simpl.
  rewrite lookup_insert_ne; [done|]. intros ->. congruence.
Qed.

Lemma keeps_guarded_write file content : keeps (guarded_write file content).
Proof.
  intros w q n Hq. unfold guarded_write, fs_bind, existsSync.
  case_bool_decide as Hex; [done|]. unfold writeFileSync.
  assert (fs w !! file = None) as Hnone.
  { destruct (fs w !! file) eqn:E; [|done]. exfalso. apply Hex. by eexists. }
  rewrite Hnone. destruct (blocked w file); [done|]. simpl.
  rewrite lookup_insert_ne; [done|]. intros ->. congruence.
Qed.

Lemma guarded_write_existing file content w n :
  fs w !! file = Some n →
  guarded_write file content w = (Ok (), {| fs := fs w; warned := warned w ++ [file] |}).
Proof.
  intros Hf. unfold guarded_write, fs_bind, existsSync.
  rewrite bool_decide_eq_true_2; [done|]. by eexists.
Qed.

Lemma keeps_write_handler render handlersPath route :
  keeps (write_handler render handlersPath route).
Proof.
  unfold write_handler. apply keeps_bind.
  - case_match; [|apply keeps_ret].
    apply keeps_bind; [apply keeps_existsSync|]. intros there.
    apply keeps_bind; [|intros; apply keeps_ret].
    destruct there; [apply keeps_warn | apply keeps_mkdirSync].
  - intros file. apply keeps_guarded_write.
Qed.

Lemma keeps_write_handlers render handlersPath routes :
  keeps (write_handlers render handlersPath routes).
Proof.
  induction routes as [|route rest IH]; simpl; [apply keeps_ret|].
  apply keeps_bind; [apply keeps_write_handler | by intros].
Qed.

(** Whatever the entries of [apis] and whether or not the run ends with an
    exception, every file and directory that was there before
    [createHandlers] is there after it, unchanged. *)
Lemma createHandlers_keeps render apis handlersPath :
  keeps (createHandlers render apis handlersPath).
Proof.
  intros w p n Hp. unfold createHandlers.
  destruct (collect [] apis); [|done]. by apply keeps_write_handlers.
Qed.

Lemma keeps_write_model {Model} (render_model : Model → string) modelsPath entry :
  keeps (write_model Model render_model modelsPath entry).
Proof.
  intros w q n Hq. unfold write_model.
  pose proof (keeps_guarded_write
                (path_join modelsPath (Js.toLowerCase entry.1 +:+ ".js"))
                (render_model entry.2) w q n Hq) as Hk.
  unfold guarded_write, fs_bind, existsSync in *. by case_bool_decide.
Qed.

Lemma createModels_keeps {Model} (render_model : Model → string) models modelsPath :
  keeps (createModels Model render_model models modelsPath).
Proof.
  unfold createModels. generalize (omap
    (fun modelName => (fun model => (modelName, model)) <$> JsObject.get models modelName)
    (own_keys models)) as entries.
  induction entries as [|entry rest IH]; simpl; [apply keeps_ret|].
  apply keeps_bind; [apply keeps_write_model | by intros].
Qed.

(** A handler file is only ever written through the guarded write. *)
Lemma write_handler_guarded render handlersPath route :
  ∃ target : Fs (list string),
    keeps target
    ∧ write_handler render handlersPath route
      = fs_bind target (fun file => guarded_write file (render route)).
Proof.
  eexists. split; [|reflexivity]. case_match; [|apply keeps_ret].
  apply keeps_bind; [apply keeps_existsSync|]. intros there.
  apply keeps_bind; [|intros; apply keeps_ret].
  destruct there; [apply keeps_warn | apply keeps_mkdirSync].
Qed.

(** *** Operations with one pathname are grouped *)

Lemma get_set {V} (o : list (string * V)) k v k' :
  JsObject.get (JsObject.set o k v) k' = if String.eqb k k' then Some v else JsObject.get o k'.
Proof.
  induction o as [|[k0 v0] r IH]; simpl.
  - done.
  - destruct (String.eqb_spec k0 k) as [->|Hne]; simpl.
    + by destruct (String.eqb k k').
    + rewrite IH. destruct (String.eqb_spec k0 k') as [->|Hne'].
      * by rewrite eqb_false_of_ne.
      * done.
Qed.

Lemma push_methods_twice route a b :
  push_methods (push_methods route a) b = push_methods route (a ++ b).
Proof. unfold push_methods. simpl. by rewrite app_assoc. Qed.

Lemma collect_get apis acc routes :
  collect acc apis = Ok routes →
  ∀ pathname,
    JsObject.get routes pathname
    = match JsObject.get acc pathname with
      | Some filed => Some (push_methods filed (methods_of (grouped pathname apis)))
      | None => merged pathname (grouped pathname apis)
      end.
Proof.
  revert acc. induction apis as [|api rest IH]; intros acc Hc pn.
  - simpl in Hc. injection Hc as ->. simpl.
    destruct (JsObject.get routes pn) as [[]|]; [|done].
    unfold push_methods, methods_of. simpl. by rewrite app_nil_r.
  - simpl in Hc. destruct (collect_one acc api) as [acc'|e] eqn:Hone; [|done].
    simpl in Hc. rewrite (IH acc' Hc pn). clear IH Hc.
    unfold collect_one in Hone. cbn [pathname route_of] in Hone.
    unfold grouped. cbn [List.filter]. fold (grouped pn rest).
    destruct (JsObject.get acc (pathname_of (api_path api))) as [filed|] eqn:Hfiled.
    + injection Hone as <-. rewrite get_set.
      destruct (String.eqb_spec (pathname_of (api_path api)) pn) as [<-|Hne].
      * rewrite Hfiled, push_methods_twice. reflexivity.
      * reflexivity.
    + case_bool_decide; [done|]. injection Hone as <-. rewrite get_set.
      destruct (String.eqb_spec (pathname_of (api_path api)) pn) as [<-|Hne].
      * rewrite Hfiled. reflexivity.
      * reflexivity.
Qed.

(** When the table of routes is built, each pathname is filed once and holds
    the methods of all the operations of the entries with that pathname, in
    the order of the entries. *)
Lemma collect_grouped apis routes :
  collect [] apis = Ok routes →
  ∀ pathname, JsObject.get routes pathname = merged pathname (grouped pathname apis).
Proof. intros Hc pn. by rewrite (collect_get apis [] routes Hc pn). Qed.

Example pets_grouped :
  collect [] pets_apis
  = Ok [("pets", {| route_path := "/pets"; pathname := "pets";
                    methods := [{| me_method := "get"; me_name := "findPets";
                                   me_output := "array" |};
                                {| me_method := "get"; me_name := "findPet";
                                   me_output := "Pet" |};
                                {| me_method := "delete"; me_name := "deletePet";
                                   me_output := "void" |}] |})].
Proof. reflexivity. Qed.

(** *** A run that ends without exception leaves a file for every pathname *)

Lemma guarded_write_ok file content w :
  (guarded_write file content w).1 = Ok () →
  is_Some (fs (guarded_write file content w).2 !! file).
Proof.
  unfold guarded_write, fs_bind, existsSync. case_bool_decide as Hex; [by intros _|].
  unfold writeFileSync. destruct (fs w !! file) as [[|c]|]; [done| |];
    (destruct (blocked w file); [done|]); intros _; simpl; rewrite lookup_insert_eq;
    by eexists.
Qed.

Lemma fs_bind_guarded_ok (m : Fs (list string)) content w file :
  (∀ w0 a w1, m w0 = (Ok a, w1) → a = file) →
  (fs_bind m (fun file => guarded_write file content) w).1 = Ok () →
  is_Some (fs (fs_bind m (fun file => guarded_write file content) w).2 !! file).
Proof.
  intros Hm. unfold fs_bind. destruct (m w) as [[a|e] w'] eqn:E; [|done].
  rewrite (Hm _ _ _ E). apply guarded_write_ok.
Qed.

Lemma write_handler_ok render handlersPath route w :
  (write_handler render handlersPath route w).1 = Ok () →
  is_Some (fs (write_handler render handlersPath route w).2 !! target handlersPath route).
Proof.
  unfold write_handler, target.
  destruct (1 <? Z.of_nat (length (Js.split_slash (pathname route)))).
  - apply (fs_bind_guarded_ok _ (render route) w).
    intros w0 a w1. unfold fs_bind, existsSync. case_bool_decide.
    + simpl. by intros [= <- _].
    + destruct (mkdirSync _ w0) as [[[]|e] w']; simpl; [by intros [= <- _] | done].
  - apply (fs_bind_guarded_ok _ (render route) w).
    intros w0 a w1. by intros [= <- _].
Qed.

Lemma write_handlers_ok render handlersPath routes w :
  (write_handlers render handlersPath routes w).1 = Ok () →
  ∀ route, route ∈ routes →
    is_Some (fs (write_handlers render handlersPath routes w).2 !! target handlersPath route).
Proof.
  revert w. induction routes as [|r rest IH]; intros w Hok route Hin.
  - by apply elem_of_nil in Hin.
  - simpl in *. unfold fs_bind in *.
    pose proof (write_handler_ok render handlersPath r w) as Hr.
    destruct (write_handler render handlersPath r w) as [[[]|e] w'] eqn:Hw; [|done].
    apply elem_of_cons in Hin as [->|Hin].
    + destruct (Hr eq_refl) as [n Hn]. exists n.
      by apply (keeps_write_handlers render handlersPath rest w').
    + by apply IH.
Qed.

Lemma get_elem_of_keys {V} (o : list (string * V)) k v :
  JsObject.get o k = Some v → k ∈ JsObject.keys o.
Proof.
  unfold JsObject.keys. induction o as [|[k' v'] r IH]; [done|]. simpl.
  destruct (String.eqb_spec k' k) as [->|Hne]; [intros _; left|].
  intros Hg. right. by apply IH.
Qed.

Lemma insert_index_perm k l : insert_index k l ≡ₚ k :: l.
Proof.
  induction l as [|k' r IH]; [done|]. simpl.
  destruct (k.1 <=? k'.1)%N; [done|]. rewrite IH. apply Permutation_swap.
Qed.

Lemma sort_index_perm l : foldr insert_index [] l ≡ₚ l.
Proof.
  induction l as [|k r IH]; [done|]. simpl. by rewrite insert_index_perm, IH.
Qed.

Lemma own_keys_elem_of {V} (o : list (string * V)) k :
  k ∈ own_keys o ↔ k ∈ JsObject.keys o.
Proof.
  unfold own_keys. rewrite elem_of_app, sort_index_perm, list_elem_of_fmap.
  rewrite (list_elem_of_In (List.filter _ _)), filter_In, <- list_elem_of_In.
  split.
  - intros [([n k'] & -> & Hin) | [Hin _]]; [|done].
    apply list_elem_of_omap in Hin as (k'' & Hin & Hk).
    destruct (array_index k''); [|done]. by injection Hk as _ ->.
  - intros Hin. destruct (array_index k) as [n|] eqn:Hidx.
    + left. exists (n, k). split; [done|]. apply list_elem_of_omap.
      exists k. by rewrite Hidx.
    + by right.
Qed.

(** When [createHandlers] ends without exception, the handler file of the
    pathname of every entry of [apis] exists, and it belongs to the route
    that holds the methods of all the entries with that pathname. *)
Lemma createHandlers_ok render apis handlersPath w :
  (createHandlers render apis handlersPath w).1 = Ok () →
  ∀ api, api ∈ apis →
    ∃ route,
      merged (pathname_of (api_path api)) (grouped (pathname_of (api_path api)) apis)
      = Some route
      ∧ is_Some (fs (createHandlers render apis handlersPath w).2
                 !! target handlersPath route).
Proof.
  unfold createHandlers. intros Hok api Hin.
  destruct (collect [] apis) as [routes|e] eqn:Hc; [|done].
  pose proof (collect_grouped apis routes Hc (pathname_of (api_path api))) as Hget.
  assert (∃ route, merged (pathname_of (api_path api))
                     (grouped (pathname_of (api_path api)) apis) = Some route)
    as [route Hroute].
  { assert (api ∈ grouped (pathname_of (api_path api)) apis) as Hg.
    { unfold grouped. apply list_elem_of_In, filter_In. split; [by apply list_elem_of_In|].
      apply String.eqb_refl. }
    destruct (grouped _ apis); [by apply elem_of_nil in Hg | by eexists]. }
  exists route. split; [done|]. rewrite Hroute in Hget.
  apply write_handlers_ok; [done|].
  apply list_elem_of_omap. exists (pathname_of (api_path api)). split; [|done].
  apply own_keys_elem_of. by eapply get_elem_of_keys.
Qed.

(** *** A pathname of three segments *)

(** A nested path whose upper directory was made for an earlier entry is
    written. *)
Example nested_path_after_parent :
  (createHandlers render_names
     ({| api_path := "/store/order"; operations := [] |} :: nested_apis)
     ["handlers"] fresh_world).1 = Ok ()
  ∧ is_Some (fs (createHandlers render_names
                   ({| api_path := "/store/order"; operations := [] |} :: nested_apis)
                   ["handlers"] fresh_world).2
             !! ["handlers"; "store"; "order"; "items.js"]).
Proof. split; [vm_compute; reflexivity | by eexists; vm_compute]. Qed.

(** A pathname that names a member of [Object.prototype] ends the run. *)
Example prototype_pathname :
  createHandlers render_names [{| api_path := "/constructor"; operations := [] |}]
    ["handlers"] fresh_world
  = (Throw "TypeError", fresh_world).
Proof. reflexivity. Qed.

End Scaffolding.

(** C9 (the code departs from it). The handlers of an entry whose normalized
    pathname has three segments are not written when the handlers directory
    is new: the tool makes only the directory next above the file, the call
    fails because the directory above that one is missing, and the run ends
    with this exception before any handler file exists. The pathname is
    [store/order/items]; the file system is left as it was. *)
Theorem nested_path_not_written (render : Create.HandlerRoute → string) :
  Create.pathname_of "/store/order/{orderId}/items" = "store/order/items"
  ∧ Create.createHandlers render Create.nested_apis ["handlers"] Create.fresh_world
    = (Throw "ENOENT", Create.fresh_world)
  ∧ Create.files Create.fresh_world = [].
Proof. split; [reflexivity|]. split; [reflexivity | vm_compute; reflexivity]. Qed.

(** ** The group of the newer pipeline as a whole *)

(** In a group the not-allowed middleware runs before the Content-Type
    check and sets the pass counter, so the check of the newer pipeline never
    fails a request that reaches it through the group. *)
Lemma V2_group_never_415 (errorName : option string) (methods : list string)
    (produces consumes : gmap string (list string)) (req : Req) (res : Res) (o : Outcome) :
  run_chain (V2.run errorName)
    [MwNotAllowed methods; MwContentType consumes; MwAccept produces consumes] req res = Ok o →
  ¬ ∃ e, o_next o = Some (JHttpError e) ∧ e_status e = 415%nat.
Proof.
  cbn [run_chain V2.run mbind result_bind].
  pose proof (V2_not_allowed_counts errorName methods req res) as Hcount. cbv zeta in Hcount.
  destruct (V2.buildNotAllowedMiddleware errorName methods req res) as [req1 res1 next1] eqn:E1.
  cbn [o_next o_req o_res] in *.
  assert (next1 = Some JUndefined ∨ ∃ e, next1 = Some (JHttpError e) ∧ e_status e = 405%nat)
    as [-> | (e & -> & He)].
  { unfold V2.buildNotAllowedMiddleware in E1.
    destruct (first_pass req && _); injection E1 as <- <- <-; [right | by left].
    eexists. split; reflexivity. }
  - cbn [truthy]. rewrite V2_content_type_later_pass by (by apply Hcount).
    cbn [o_next o_req o_res next truthy].
    unfold V2.validateAcceptHeaderMiddleware.
    repeat case_match; cbn; intros [= <-]; intros (e & He & Hs); simpl in He;
      try discriminate; injection He as <-; discriminate Hs.
  - cbn [truthy]. intros [= <-]. intros (e' & He' & Hs). simpl in He'.
    injection He' as <-. congruence.
Qed.

(** * Further properties *)

(** ** Loading the API document: [loadApi] *)

Section LoadApi.

Lemma startsWith_longer s pattern :
  (String.length s < String.length pattern)%nat → Js.startsWith s pattern = false.
Proof.
  revert s. induction pattern as [|c m IH]; intros s Hlen; simpl in Hlen; [lia|].
  destruct s as [|d s]; [done|]. simpl in *.
  destruct (Ascii.eqb c d); [apply IH; lia | done].
Qed.

Lemma str_indexOf_longer s pattern :
  (String.length s < String.length pattern)%nat → Index.indexOf s pattern = -1.
Proof.
  induction s as [|c r IH]; intros Hlen.
  - cbn [Index.indexOf]. by rewrite startsWith_longer.
  - cbn [Index.indexOf]. rewrite startsWith_longer by done.
    rewrite IH by (simpl in Hlen; lia). reflexivity.
Qed.

Lemma str_indexOf_ge s pattern : -1 <= Index.indexOf s pattern.
Proof.
  induction s as [|c r IH]; cbn [Index.indexOf]; destruct (Js.startsWith _ _); try lia.
  destruct (Index.indexOf r pattern <? 0); lia.
Qed.

Lemma str_indexOf_absent s pattern :
  Js.includes s pattern = false → Index.indexOf s pattern = -1.
Proof.
  induction s as [|c r IH]; cbn [Js.includes Index.indexOf]; intros Hinc;
    apply orb_false_iff in Hinc as [-> Hrest]; [done|].
  by rewrite IH.
Qed.

Lemma startsWith_refl s : Js.startsWith s s = true.
Proof. induction s as [|c s IH]; [done|]. simpl. by rewrite Ascii.eqb_refl. Qed.

Lemma startsWith_nil s : Js.startsWith s "" = true.
Proof. by destruct s. Qed.

(** The first occurrence of an extension that begins with [.y] is the one at
    the end when nothing before it has a [.y]. *)
Lemma str_indexOf_extension stem ext :
  Js.includes stem ".y" = false →
  Index.indexOf (stem +:+ String "." (String "y" ext)) (String "." (String "y" ext))
  = Z.of_nat (String.length stem).
Proof.
  induction stem as [|c r IH]; intros Hinc.
  - rewrite string_app_nil. cbn [Index.indexOf]. by rewrite startsWith_refl.
  - cbn [Js.includes] in Hinc. apply orb_false_iff in Hinc as [Hhead Hrest].
    rewrite string_app_cons. cbn [Index.indexOf].
    assert (Js.startsWith (String c (r +:+ String "." (String "y" ext)))
              (String "." (String "y" ext)) = false) as ->.
    { cbn [Js.startsWith] in Hhead |- *. destruct (Ascii.eqb "." c); [|done].
      destruct r as [|d r'].
      - rewrite string_app_nil. reflexivity.
      - rewrite string_app_cons. cbn [Js.startsWith] in Hhead |- *.
        destruct (Ascii.eqb "y" d); [|done]. by rewrite startsWith_nil in Hhead. }
    rewrite IH by done.
    destruct (Z.of_nat (String.length r) <? 0) eqn:E; [apply Z.ltb_lt in E; lia|].
    simpl String.length. lia.
Qed.

Lemma string_length_app (a b : string) :
  String.length (a +:+ b) = (String.length a + String.length b)%nat.
Proof. induction a as [|c a IH]; [done|]. rewrite string_app_cons. simpl. by rewrite IH. Qed.

End LoadApi.

(** X1. A path of exactly three or four characters is always read as YAML,
    whatever its extension: no extension is found in it, and -1 is also what
    the length less four (or five) comes to. *)
Theorem loadApi_short_path (yaml_load require_module : string → Result JsVal)
    (apiPath : string) :
  String.length apiPath = 3%nat ∨ String.length apiPath = 4%nat →
  Index.is_yaml apiPath = true
  ∧ Index.loadApi yaml_load require_module apiPath = yaml_load apiPath.
Proof.
  intros Hlen. assert (Index.is_yaml apiPath = true) as Hy.
  { unfold Index.is_yaml. destruct Hlen as [Hlen | Hlen]; rewrite Hlen.
    - rewrite (str_indexOf_longer apiPath ".yml") by (rewrite Hlen; simpl; lia).
      apply orb_true_r.
    - by rewrite (str_indexOf_longer apiPath ".yaml") by (rewrite Hlen; simpl; lia). }
  split; [done|]. unfold Index.loadApi. by rewrite Hy.
Qed.

Lemma loadApi_short_path_witness :
  Index.loadApi (fun _ => Throw "YAMLException") (fun _ => Ok (JObject [])) "a.js"
  = Throw "YAMLException".
Proof.
  exact (proj2 (loadApi_short_path (fun _ => Throw "YAMLException")
                  (fun _ => Ok (JObject [])) "a.js" (or_intror eq_refl))).
Defined.

(** X2. A path that ends in .yaml or .yml is read as YAML when no [.y]
    occurs before the extension; a path of five characters or more in which
    neither extension occurs is loaded with require. *)
Theorem loadApi_by_extension (yaml_load require_module : string → Result JsVal)
    (stem apiPath : string) :
  (Js.includes stem ".y" = false →
     Index.loadApi yaml_load require_module (stem +:+ ".yaml") = yaml_load (stem +:+ ".yaml")
     ∧ Index.loadApi yaml_load require_module (stem +:+ ".yml") = yaml_load (stem +:+ ".yml"))
  ∧ (Js.includes apiPath ".yaml" = false → Js.includes apiPath ".yml" = false →
     (5 ≤ String.length apiPath)%nat →
     Index.loadApi yaml_load require_module apiPath = require_module apiPath).
Proof.
  split.
  - intros Hstem. unfold Index.loadApi, Index.is_yaml. split.
    + rewrite (str_indexOf_extension stem "aml" Hstem), string_length_app.
      replace (Z.of_nat (String.length stem) =?
               Z.of_nat (String.length stem + String.length ".yaml") - 5) with true; [done|].
      symmetry. apply Z.eqb_eq. simpl String.length. lia.
    + rewrite (str_indexOf_extension stem "ml" Hstem), string_length_app.
      replace (Z.of_nat (String.length stem) =?
               Z.of_nat (String.length stem + String.length ".yml") - 4) with true;
        [by rewrite orb_true_r|].
      symmetry. apply Z.eqb_eq. simpl String.length. lia.
  - intros Hyaml Hyml Hlen. unfold Index.loadApi, Index.is_yaml.
    rewrite (str_indexOf_absent _ _ Hyaml), (str_indexOf_absent _ _ Hyml).
    replace (-1 =? Z.of_nat (String.length apiPath) - 5) with false
      by (symmetry; apply Z.eqb_neq; lia).
    replace (-1 =? Z.of_nat (String.length apiPath) - 4) with false
      by (symmetry; apply Z.eqb_neq; lia).
    done.
Qed.

Lemma loadApi_by_extension_witness :
  Index.loadApi (fun p => Ok (JStr p)) (fun _ => Throw "MODULE_NOT_FOUND") "./config/api.yaml"
  = Ok (JStr "./config/api.yaml")
  ∧ Index.loadApi (fun p => Ok (JStr p)) (fun _ => Throw "MODULE_NOT_FOUND") "./api.json"
    = Throw "MODULE_NOT_FOUND".
Proof.
  destruct (loadApi_by_extension (fun p => Ok (JStr p)) (fun _ => Throw "MODULE_NOT_FOUND")
              "./config/api" "./api.json") as [Hext Hother].
  split.
  - exact (proj1 (Hext eq_refl)).
  - apply Hother; [reflexivity | reflexivity | simpl; lia].
Defined.

(** A second extension hides the first from [indexOf]. *)
Example loadApi_double_extension : Index.is_yaml "api.yaml.yaml" = false.
Proof. reflexivity. Qed.

(** ** Mounting: [mount] *)

Section MountFacts.
Context `{Utils}.

Lemma last_set_app calls more setting :
  last_set (calls ++ more) setting
  = match last_set more setting with
    | Some v => Some v
    | None => last_set calls setting
    end.
Proof.
  unfold last_set. rewrite foldl_app. generalize (foldl
    (fun found call => if String.eqb call.1 setting then Some call.2 else found) None calls).
  induction more as [|call more IH] using rev_ind; intros found; [done|].
  rewrite !foldl_app. simpl. destruct (String.eqb call.1 setting); [done|]. apply IH.
Qed.

Lemma last_set_all o setting :
  last_set (Index.set_all o) setting
  = if bool_decide (setting ∈ JsObject.keys o)
    then Some (default JUndefined (JsObject.get o setting)) else None.
Proof.
  unfold Index.set_all.
  rewrite <- (bool_decide_ext _ _ (own_keys_elem_of o setting)).
  induction (Create.own_keys o) as [|k ks IH] using rev_ind; [done|].
  rewrite fmap_app. simpl. rewrite last_set_app. unfold last_set at 1. simpl.
  destruct (String.eqb_spec k setting) as [->|Hne].
  - rewrite bool_decide_eq_true_2; [done|]. apply elem_of_app. right. left.
  - rewrite IH. rewrite (bool_decide_ext (setting ∈ ks ++ [k]) (setting ∈ ks)); [done|].
    rewrite elem_of_app, list_elem_of_singleton.
    split; [intros [?|?]; [done | congruence] | tauto].
Qed.

End MountFacts.

(** X3. On mount the settings of the caller are set after the fixed ones:
    for every setting of [options.express] the last call of [parent.set]
    carries the caller's value, and a fixed setting the caller does not name
    keeps the fixed value. This holds whether or not the mount goes through. *)
Theorem onmount_settings `{Utils} (errorName : option string) (app_mountpath : string)
    (opts : Index.MountOptions) (parent : Index.Parent) (setting : string) :
  let calls := Index.set_calls (Index.onmount errorName app_mountpath opts parent).1.2 in
  (setting ∈ JsObject.keys (Index.express opts) →
     last_set calls setting
     = Some (default JUndefined (JsObject.get (Index.express opts) setting)))
  ∧ (setting ∉ JsObject.keys (Index.express opts) →
     ∀ v, JsObject.get Index.settings setting = Some v → last_set calls setting = Some v).
Proof.
  intros calls.
  assert (calls = Index.set_calls parent ++ Index.set_all Index.settings
                  ++ Index.set_all (Index.express opts)) as ->.
  { subst calls. unfold Index.onmount. by destruct (Index.swagger parent). }
  rewrite !last_set_app, !last_set_all. split.
  - intros Hin. by rewrite bool_decide_eq_true_2.
  - intros Hn v Hv. rewrite bool_decide_eq_false_2 by done.
    rewrite bool_decide_eq_true_2 by (by eapply get_elem_of_keys). by rewrite Hv.
Qed.

Example onmount_settings_ex :
  last_set (Index.set_calls
              (Index.onmount (H := sample_utils) None "/v1" pet_mount_options empty_parent).1.2)
    "x-powered-by" = Some (JBool true)
  ∧ last_set (Index.set_calls
                (Index.onmount (H := sample_utils) None "/v1" pet_mount_options empty_parent).1.2)
      "trust proxy" = Some (JBool false).
Proof. split; reflexivity. Qed.

(** X4. A mount on a parent without [swagger] property goes through: the
    last entry of the parent's router stack is removed and, after what is
    left, the documentation endpoint, one registration per route and the
    groups are added. The routes are registered under the mount path of the
    application, or under the base path of the API document when the
    application is mounted at the root; [parent.mountpath] is set
    accordingly. *)
Theorem onmount_registers `{Utils} (errorName : option string) (app_mountpath : string)
    (opts : Index.MountOptions) (parent : Index.Parent) :
  Index.swagger parent = None →
  let result := Index.onmount errorName app_mountpath opts parent in
  let mountpath := mountpath_of (mount_options app_mountpath opts) in
  result.1.1 = Ok ()
  ∧ (∃ docs registered groups,
       Index.stack result.1.2
       = removelast (Index.stack parent) ++ docs :: registered ++ groups
       ∧ is_register docs = true
       ∧ Forall2 (registers mountpath) (default [] (routes (Index.options opts))) registered
       ∧ Forall (fun call => is_use call = true) groups)
  ∧ (app_mountpath ≠ "/" → app_mountpath ≠ "" →
       mountpath = unsuffix (prefix app_mountpath "/") "/"
       ∧ Index.parent_mountpath result.1.2 = Some app_mountpath)
  ∧ (app_mountpath = "/" →
       mountpath = mountpath_of (Index.options opts)
       ∧ Index.parent_mountpath result.1.2 = basePath (api (Index.options opts))).
Proof.
  intros Hnone result mountpath. subst result. unfold Index.onmount. rewrite Hnone.
  cbn [fst snd Index.stack Index.parent_mountpath].
  split; [done|]. split; [|split].
  - destruct (V2_expressroutes_router errorName (removelast (Index.stack parent))
                (mount_options app_mountpath opts)) as (docs & calls & a & Hr & Hd & Hc).
    eexists docs, calls, _. split; [exact Hr|]. split; [done|]. split; [exact Hc|].
    apply Forall_fmap, Forall_forall. by intros p _.
  - intros Hroot Hempty. subst mountpath. unfold mountpath_of, mount_options, Index.mounted_api.
    cbn [api]. rewrite !eqb_false_of_ne by done. cbn [basePath or_default].
    by rewrite eqb_false_of_ne.
  - intros ->. done.
Qed.

Lemma onmount_registers_witness :
  (Index.onmount (H := sample_utils) None "/v1" pet_mount_options empty_parent).1.1 = Ok ()
  ∧ Index.parent_mountpath
      (Index.onmount (H := sample_utils) None "/v1" pet_mount_options empty_parent).1.2
    = Some "/v1".
Proof.
  destruct (onmount_registers (H := sample_utils) None "/v1" pet_mount_options empty_parent
              eq_refl) as (Hok & _ & Hpath & _).
  split; [exact Hok|]. apply Hpath; discriminate.
Defined.

(** X5. A parent takes one mount only. A second mount on the parent of an
    earlier one ends with a TypeError when the property [swagger] is to be
    defined again: its own entry is removed from the stack, no route is
    registered, and [swagger] and the error name stay those of the first. *)
Theorem onmount_twice `{Utils} (errorName : option string) (app_mountpath : string)
    (opts : Index.MountOptions) (parent : Index.Parent) (layer : RouterCall) :
  is_Some (Index.swagger parent) →
  let again :=
    Index.onmount errorName app_mountpath opts
      {| Index.stack := Index.stack parent ++ [layer];
         Index.set_calls := Index.set_calls parent;
         Index.parent_mountpath := Index.parent_mountpath parent;
         Index.swagger := Index.swagger parent |} in
  again.1.1 = Throw "TypeError"
  ∧ Index.stack again.1.2 = Index.stack parent
  ∧ Index.swagger again.1.2 = Index.swagger parent
  ∧ again.2 = errorName.
Proof.
  intros [defined Hd] again. subst again. unfold Index.onmount.
  cbn [Index.swagger Index.stack]. rewrite Hd, removelast_last. done.
Qed.

Lemma onmount_twice_witness :
  (Index.onmount (H := sample_utils) (Some "First") "/v2" pet_mount_options
     {| Index.stack :=
          Index.stack (Index.onmount (H := sample_utils) (Some "First") "/v1"
                         pet_mount_options empty_parent).1.2 ++ [Use "/v2" []];
        Index.set_calls := [];
        Index.parent_mountpath := Some "/v1";
        Index.swagger :=
          Index.swagger (Index.onmount (H := sample_utils) (Some "First") "/v1"
                           pet_mount_options empty_parent).1.2 |}).1.1
  = Throw "TypeError".
Proof.
  refine (proj1 (onmount_twice (H := sample_utils) (Some "First") "/v2" pet_mount_options
            {| Index.stack :=
                 Index.stack (Index.onmount (H := sample_utils) (Some "First") "/v1"
                                pet_mount_options empty_parent).1.2;
               Index.set_calls := [];
               Index.parent_mountpath := Some "/v1";
               Index.swagger :=
                 Index.swagger (Index.onmount (H := sample_utils) (Some "First") "/v1"
                                  pet_mount_options empty_parent).1.2 |}
            (Use "/v2" []) _)).
  by eexists.
Defined.

(** ** The accessor layer and the success path of the validator *)

Lemma accessor_set_get_helper (param : Param) (consumes : option (list string))
    (req : Req) (key : string) (val : JsVal) :
  p_in param = InPath ∨ p_in param = InQuery ∨ p_in param = InBody →
  ∃ req',
    acc_set (valueAccessor param consumes) req key val = Ok req'
    ∧ acc_get (valueAccessor param consumes) req' key = Ok val.
Proof.
  unfold valueAccessor. intros [-> | [-> | ->]]; simpl; eexists; (split; [reflexivity|]);
    simpl; by rewrite ?lookup_insert_eq.
Qed.

(** X6. For a path, query or body parameter the setter of the accessor
    stores what its getter reads back; for path and query parameters the
    other keys read as before; the method and the headers of the request are
    not touched. *)
Theorem accessor_set_get (param : Param) (consumes : option (list string))
    (req : Req) (key : string) (val : JsVal) :
  p_in param = InPath ∨ p_in param = InQuery ∨ p_in param = InBody →
  ∃ req',
    acc_set (valueAccessor param consumes) req key val = Ok req'
    ∧ acc_get (valueAccessor param consumes) req' key = Ok val
    ∧ (p_in param ≠ InBody → ∀ other, other ≠ key →
         acc_get (valueAccessor param consumes) req' other
         = acc_get (valueAccessor param consumes) req other)
    ∧ req_method req' = req_method req
    ∧ req_headers req' = req_headers req.
Proof.
  unfold valueAccessor. intros [-> | [-> | ->]]; simpl; eexists; (split; [reflexivity|]);
    simpl; rewrite ?lookup_insert_eq; (split; [reflexivity|]); (split; [|done]).
  - intros _ other Hne. by rewrite lookup_insert_ne.
  - intros _ other Hne. by rewrite lookup_insert_ne.
  - done.
Qed.

Lemma accessor_set_get_witness :
  ∃ req',
    acc_set (valueAccessor (limit_param InQuery) None) (request "GET" [] None) "limit" (JNum 7)
    = Ok req'
    ∧ acc_get (valueAccessor (limit_param InQuery) None) req' "limit" = Ok (JNum 7).
Proof.
  destruct (accessor_set_get (limit_param InQuery) None (request "GET" [] None) "limit" (JNum 7)
              (or_intror (or_introl eq_refl))) as (req' & Hset & Hget & _).
  exists req'. split; [exact Hset | exact Hget].
Defined.

(** X7. The value a validator coerces a header parameter to is not written
    back: when the validation of a header parameter succeeds, the middleware
    calls next and the request is exactly as it was. *)
Theorem header_value_not_written_back (validator : Validator)
    (consumes : option (list string)) (req : Req) (res : Res) (newvalue : JsVal) :
  p_in (parameter validator) = InHeader →
  validate validator
    (from_option JStr JUndefined (header req (p_name (parameter validator))))
  = Valid newvalue →
  validateInput validator consumes req res = Ok (next req res).
Proof.
  intros Hin Hvalid. unfold validateInput, valueAccessor. rewrite Hin. simpl.
  by rewrite Hvalid.
Qed.

Lemma header_value_not_written_back_witness :
  validateInput {| parameter := limit_param InHeader; validate := coerce_to_7 |} None
    (request "GET" [("limit", "7")] None) res0
  = Ok (next (request "GET" [("limit", "7")] None) res0).
Proof.
  exact (header_value_not_written_back
           {| parameter := limit_param InHeader; validate := coerce_to_7 |} None
           (request "GET" [("limit", "7")] None) res0 (JNum 7) eq_refl eq_refl).
Defined.

(** X8. When the validation of a path, query or body parameter succeeds, the
    middleware calls next without an error, leaves the response alone, and
    the accessor of the parameter then reads the coerced value from the
    request. *)
Theorem validated_value_written_back (validator : Validator)
    (consumes : option (list string)) (req : Req) (res : Res) (value newvalue : JsVal) :
  let param := parameter validator in
  p_in param = InPath ∨ p_in param = InQuery ∨ p_in param = InBody →
  acc_get (valueAccessor param consumes) req (p_name param) = Ok value →
  validate validator value = Valid newvalue →
  ∃ req',
    validateInput validator consumes req res = Ok (next req' res)
    ∧ acc_get (valueAccessor param consumes) req' (p_name param) = Ok newvalue.
Proof.
  intros param Hin Hget Hvalid.
  destruct (accessor_set_get_helper param consumes req (p_name param) newvalue Hin)
    as (req' & Hset & Hread).
  exists req'. split; [|done].
  unfold validateInput. fold param. rewrite Hget. simpl. rewrite Hvalid, Hset. done.
Qed.

Lemma validated_value_written_back_witness :
  ∃ req',
    validateInput {| parameter := limit_param InQuery; validate := coerce_to_7 |} None
      (request "GET" [] None) res0 = Ok (next req' res0)
    ∧ acc_get (valueAccessor (limit_param InQuery) None) req' "limit" = Ok (JNum 7).
Proof.
  exact (validated_value_written_back
           {| parameter := limit_param InQuery; validate := coerce_to_7 |} None
           (request "GET" [] None) res0 JUndefined (JNum 7)
           (or_intror (or_introl eq_refl)) eq_refl eq_refl).
Defined.

(** X9. The accessor of a form parameter of type file, on a request without
    [req.file]: when [req.files] is an empty array the getter throws a
    TypeError; when the first uploaded file carries the name of the
    parameter, the getter gives the buffer of the file as a string if there
    is one and the path of the file otherwise; when [req.files] is no array,
    the getter reads the field of the body. *)
Theorem form_file_accessor (param : Param) (consumes : option (list string))
    (req : Req) (key : string) :
  p_in param = InFormData → p_type param = Some "file" → req_file req = None →
  (req_files req = Some [] →
     acc_get (valueAccessor param consumes) req key = Throw "TypeError")
  ∧ (∀ file rest, req_files req = Some (file :: rest) → fieldname file = Some key →
       acc_get (valueAccessor param consumes) req key
       = Ok (from_option JStr (file_path file) (buffer file)))
  ∧ (req_files req = None →
       acc_get (valueAccessor param consumes) req key = get_prop (req_body req) key).
Proof.
  intros Hin Htype Hfile. unfold valueAccessor. rewrite Hin. simpl.
  unfold is_file, request_file. rewrite Htype, Hfile. simpl.
  split; [by intros ->|]. split.
  - intros file rest -> Hname. rewrite bool_decide_eq_true_2 by done.
    by destruct (buffer file).
  - by intros ->.
Qed.

Lemma form_file_accessor_witness :
  acc_get (valueAccessor upload_param None) (upload_request []) "photo" = Throw "TypeError"
  ∧ acc_get (valueAccessor upload_param None)
      (upload_request [{| fieldname := Some "photo"; buffer := Some "GIF89a";
                          file_path := JStr "/tmp/up1" |}]) "photo"
    = Ok (JStr "GIF89a").
Proof.
  split.
  - exact (proj1 (form_file_accessor upload_param None (upload_request []) "photo"
                    eq_refl eq_refl eq_refl) eq_refl).
  - exact (proj1 (proj2 (form_file_accessor upload_param None
                    (upload_request [{| fieldname := Some "photo"; buffer := Some "GIF89a";
                                        file_path := JStr "/tmp/up1" |}]) "photo"
                    eq_refl eq_refl eq_refl)) _ _ eq_refl eq_refl).
Defined.

(** ** Path templates: [buildRoutePath] *)

Section PathTemplates.

Lemma string_app_nil_r (s : string) : s +:+ "" = s.
Proof. induction s as [|c s IH]; [done|]. by rewrite string_app_cons, IH. Qed.

Lemma includes_char c d r :
  Js.includes (String c r) (String d "") = Ascii.eqb d c || Js.includes r (String d "").
Proof. cbn [Js.includes Js.startsWith]. rewrite startsWith_nil. by destruct (Ascii.eqb d c). Qed.

Lemma replace_params_plain s :
  Js.includes s "{" = false → replace_params s None = s.
Proof.
  induction s as [|c r IH]; [done|]. rewrite includes_char.
  intros Hinc. apply orb_false_iff in Hinc as [Hc Hr]. simpl.
  rewrite Ascii.eqb_sym, Hc. by rewrite IH.
Qed.

Lemma replace_params_pending n run rest :
  Js.includes n "}" = false → run +:+ n ≠ "" →
  replace_params (n +:+ String "}" rest) (Some run)
  = ":" +:+ run +:+ n +:+ replace_params rest None.
Proof.
  revert run. induction n as [|c n IH]; intros run Hinc Hne.
  - rewrite string_app_nil. rewrite string_app_nil_r in Hne. simpl.
    by rewrite eqb_false_of_ne.
  - rewrite includes_char in Hinc. apply orb_false_iff in Hinc as [Hc Hn].
    rewrite string_app_cons. simpl. rewrite Ascii.eqb_sym, Hc.
    rewrite IH; [|done|].
    + by rewrite !string_app_assoc.
    + rewrite string_app_assoc. simpl. by destruct run.
Qed.

Lemma replace_params_prefix a rest :
  Js.includes a "{" = false →
  replace_params (a +:+ rest) None = a +:+ replace_params rest None.
Proof.
  induction a as [|c r IH]; [done|]. rewrite includes_char.
  intros Hinc. apply orb_false_iff in Hinc as [Hc Hr].
  rewrite !string_app_cons. simpl. rewrite Ascii.eqb_sym, Hc. by rewrite IH.
Qed.

End PathTemplates.

(** X10. The conversion of a path template leaves a path without opening
    brace as it is, and turns a parameter [{name}] (a name that is not empty
    and holds no closing brace, after a part without opening brace) into
    [:name], going on with what follows the parameter. *)
Theorem path_template_conversion (before name rest : string) :
  Js.includes before "{" = false →
  replace_params before None = before
  ∧ (name ≠ "" → Js.includes name "}" = false →
     replace_params (before +:+ "{" +:+ name +:+ "}" +:+ rest) None
     = before +:+ ":" +:+ name +:+ replace_params rest None).
Proof.
  intros Hbefore. split; [by apply replace_params_plain|].
  intros Hne Hname. rewrite replace_params_prefix by done.
  change ("{" +:+ name +:+ "}" +:+ rest) with (String "{" (name +:+ String "}" rest)).
  cbn [replace_params]. rewrite Ascii.eqb_refl.
  rewrite replace_params_pending; [done | done | by rewrite string_app_nil].
Qed.

Lemma path_template_conversion_witness :
  replace_params "/pets/{petId}/photos" None = "/pets/:petId/photos".
Proof.
  exact (proj2 (path_template_conversion "/pets/" "petId" "/photos" eq_refl)
           ltac:(discriminate) eq_refl).
Defined.

(** ** What a mount registers *)

Section MountedTables.
Context `{Utils}.

Lemma register_routes_routes mountpath defs routes router t :
  (register_routes mountpath defs routes router t).2 = unwrapped <$> routes.
Proof.
  revert router t. induction routes as [|route rest IH]; intros router t; [done|].
  simpl. pose proof (makeExpressRoute_route router mountpath route defs) as Hroute.
  destruct (makeExpressRoute router mountpath route defs) as [router1 route1].
  specialize (IH router1 (record_route mountpath t route1)).
  destruct (register_routes mountpath defs rest router1 _) as [[router2 t2] rest2].
  simpl in *. by rewrite IH, Hroute.
Qed.

Ltac mounted :=
  cbv zeta;
  match goal with
  | |- context [register_routes ?mp ?defs ?rs ?r0 ?t0] =>
      let Ht := fresh "Ht" in
      let Hrs := fresh "Hrs" in
      let Hcalls := fresh "Hcalls" in
      let Hall := fresh "Hall" in
      let calls := fresh "calls" in
      pose proof (register_routes_tables mp defs rs r0 t0) as Ht;
      pose proof (register_routes_routes mp defs rs r0 t0) as Hrs;
      destruct (register_routes_router mp defs rs r0 t0) as (calls & Hcalls & Hall);
      destruct (register_routes mp defs rs r0 t0) as [[? ?] ?];
      cbn [fst snd] in Ht, Hrs, Hcalls; subst;
      cbn [m_router m_options m_errorName routes docspath api errorname];
      rewrite <- ?app_assoc
  end.

(** The exact sequence of calls of a mount, the options and the error name
    it leaves. *)
Lemma V1_mounted router options :
  ∃ calls,
    m_router (V1.expressroutes router options)
    = router ++ Register VGet (docs_path options) [MwDocs (served_api options)]
        :: calls ++ (V1.use_group (tables_of options)
                       <$> JsObject.keys (routesMethod (tables_of options)))
    ∧ Forall2 (registers (mountpath_of options)) (default [] (routes options)) calls
    ∧ m_options (V1.expressroutes router options)
      = {| routes := fmap (M := option) (fmap (M := list) unwrapped) (routes options);
           docspath := Some (prefix (or_default (docspath options) "/api-docs") "/");
           api := served_api options; errorname := errorname options |}.
Proof.
  unfold V1.expressroutes. mounted. exists calls.
  split; [reflexivity|]. split; [exact Hall|]. by destruct (routes options).
Qed.

Lemma V2_mounted errorName router options :
  ∃ calls,
    m_router (V2.expressroutes errorName router options)
    = router ++ Register VGet (docs_path options) [MwDocs (served_api options)]
        :: calls ++ (V2.use_group (served_api options) (tables_of options)
                       <$> JsObject.keys (routesMethod (tables_of options)))
    ∧ Forall2 (registers (mountpath_of options)) (default [] (routes options)) calls
    ∧ m_options (V2.expressroutes errorName router options)
      = {| routes := fmap (M := option) (fmap (M := list) unwrapped) (routes options);
           docspath := Some (prefix (or_default (docspath options) "/api-docs") "/");
           api := served_api options; errorname := errorname options |}
    ∧ m_errorName (V2.expressroutes errorName router options)
      = match errorname options with
        | Some n => if String.eqb n "" then errorName else Some n
        | None => errorName
        end.
Proof.
  unfold V2.expressroutes. mounted. exists calls.
  split; [reflexivity|]. split; [exact Hall|]. split; by destruct (routes options).
Qed.

(** A group among the calls of a mount is the group of its path. *)
Lemma use_among_added router m docs calls (group : string → RouterCall) keys mountpath routes
    p chain :
  m_router m = router ++ docs :: calls ++ (group <$> keys) →
  is_register docs = true →
  Forall2 (registers mountpath) routes calls →
  (∀ k, ∃ c, group k = Use k c) →
  Use p chain ∈ added router m → Use p chain = group p.
Proof.
  intros Hrouter Hdocs Hcalls Hgroup. unfold added. rewrite Hrouter, drop_app_length.
  rewrite elem_of_cons, elem_of_app. intros [<- | [Hin | Hin]].
  - discriminate Hdocs.
  - exfalso. clear Hrouter. induction Hcalls as [|route call ? ? Hreg]; [by apply elem_of_nil in Hin|].
    apply elem_of_cons in Hin as [Heq | Hin]; [|by apply IHHcalls].
    subst call. by destruct Hreg as (before & f & Hreg).
  - apply list_elem_of_fmap in Hin as (k & Heq & _).
    destruct (Hgroup k) as [c Hk]. rewrite Hk in Heq. injection Heq as -> ->. by rewrite Hk.
Qed.

Lemma V1_use_among_added router options p chain :
  Use p chain ∈ added router (V1.expressroutes router options) →
  Use p chain = V1.use_group (tables_of options) p.
Proof.
  destruct (V1_mounted router options) as (calls & Hrouter & Hcalls & _).
  eapply use_among_added; [exact Hrouter | done | exact Hcalls |].
  intros k. by eexists.
Qed.

Lemma V2_use_among_added errorName router options p chain :
  Use p chain ∈ added router (V2.expressroutes errorName router options) →
  Use p chain = V2.use_group (served_api options) (tables_of options) p.
Proof.
  destruct (V2_mounted errorName router options) as (calls & Hrouter & Hcalls & _).
  eapply use_among_added; [exact Hrouter | done | exact Hcalls |].
  intros k. by eexists.
Qed.

Lemma foldl_record_route_methods mountpath routes t p :
  default [] (JsObject.get (routesMethod (foldl (record_route mountpath) t routes)) p)
  = default [] (JsObject.get (routesMethod t) p) ++ methods_for mountpath p routes.
Proof.
  revert t. induction routes as [|route rest IH]; intros t.
  - by rewrite app_nil_r.
  - cbn [foldl]. rewrite IH. unfold methods_for, on_path. rewrite filter_cons.
    cbn [record_route routesMethod]. rewrite get_set.
    destruct (String.eqb_spec (buildRoutePath mountpath (path route)) p) as [Hp|Hp].
    + rewrite decide_True by done. rewrite Hp. cbn [default]. rewrite fmap_cons.
      unfold id. by rewrite <- app_assoc.
    + by rewrite decide_False by done.
Qed.

Lemma record_media_elem table p name declared p' name' x :
  x ∈ default [] (default ∅ (record_media table p name declared !! p') !! name')
  ↔ x ∈ default [] (default ∅ (table !! p') !! name')
    ∨ (p' = p ∧ name' = name ∧ ∃ l, declared = Some l ∧ x ∈ l).
Proof.
  unfold record_media. destruct (decide (p = p')) as [<-|Hp].
  - rewrite lookup_insert_eq. cbn [default]; unfold id.
    destruct (decide (name = name')) as [<-|Hn].
    + rewrite lookup_insert_eq. cbn [default]; unfold id. rewrite uniq_elem_of.
      destruct declared as [l|].
      * destruct (0 <? Z.of_nat (length l)) eqn:Hl.
        -- rewrite elem_of_app. split; [intros [?|?]; [by left | right; eauto] |].
           intros [?|(_ & _ & l' & [= <-] & ?)]; [by left | by right].
        -- destruct l; [|apply Z.ltb_ge in Hl; cbn [length] in Hl; lia]. split; [by left|].
           intros [?|(_ & _ & l' & [= <-] & Hx)]; [done | by apply elem_of_nil in Hx].
      * split; [by left|]. by intros [?|(_ & _ & l' & ? & _)].
    + rewrite lookup_insert_ne by done. split; [by left|].
      intros [?|(_ & ? & _)]; [done | congruence].
  - rewrite lookup_insert_ne by done. split; [by left|].
    intros [?|(? & _)]; [done | congruence].
Qed.

Lemma foldl_record_route_consumes mountpath routes t p name x :
  x ∈ default [] (default ∅ (routesConsumes (foldl (record_route mountpath) t routes) !! p)
                  !! name)
  ↔ x ∈ default [] (default ∅ (routesConsumes t !! p) !! name)
    ∨ declares consumes mountpath p routes name x.
Proof.
  revert t. induction routes as [|route rest IH]; intros t.
  - split; [by left|]. intros [?|(r & l & Hin & _)]; [done | by apply elem_of_nil in Hin].
  - cbn [foldl]. rewrite IH. cbn [record_route routesConsumes]. rewrite record_media_elem.
    unfold declares. split.
    + intros [[?|(-> & -> & l & Hl & Hx)] | (r & l & Hin & ?)].
      * by left.
      * right. exists route, l. split; [left | done].
      * right. exists r, l. split; [by right | done].
    + intros [?|(r & l & Hin & Hp & Hn & Hl & Hx)]; [by left; left|].
      apply elem_of_cons in Hin as [-> | Hin].
      * left. right. eauto.
      * right. exists r, l. done.
Qed.

Lemma foldl_record_route_produces mountpath routes t p name x :
  x ∈ default [] (default ∅ (routesProduces (foldl (record_route mountpath) t routes) !! p)
                  !! name)
  ↔ x ∈ default [] (default ∅ (routesProduces t !! p) !! name)
    ∨ declares produces mountpath p routes name x.
Proof.
  revert t. induction routes as [|route rest IH]; intros t.
  - split; [by left|]. intros [?|(r & l & Hin & _)]; [done | by apply elem_of_nil in Hin].
  - cbn [foldl]. rewrite IH. cbn [record_route routesProduces]. rewrite record_media_elem.
    unfold declares. split.
    + intros [[?|(-> & -> & l & Hl & Hx)] | (r & l & Hin & ?)].
      * by left.
      * right. exists route, l. split; [left | done].
      * right. exists r, l. split; [by right | done].
    + intros [?|(r & l & Hin & Hp & Hn & Hl & Hx)]; [by left; left|].
      apply elem_of_cons in Hin as [-> | Hin].
      * left. right. eauto.
      * right. exists r, l. done.
Qed.

End MountedTables.


Section GroupFacts.
Context `{Utils}.

Lemma record_media_dom table p name declared p' name' :
  is_Some (default ∅ (record_media table p name declared !! p') !! name')
  ↔ is_Some (default ∅ (table !! p') !! name') ∨ (p' = p ∧ name' = name).
Proof.
  unfold record_media. destruct (decide (p = p')) as [<-|Hp].
  - rewrite lookup_insert_eq. cbn [default]; unfold id.
    destruct (decide (name = name')) as [<-|Hn].
    + rewrite lookup_insert_eq. split; [by right | by eexists].
    + rewrite lookup_insert_ne by done. split; [by left|].
      intros [?|(_ & ?)]; [done | congruence].
  - rewrite lookup_insert_ne by done. split; [by left|].
    intros [?|(? & _)]; [done | congruence].
Qed.

Lemma methods_for_cons mountpath p route rest name :
  name ∈ methods_for mountpath p (route :: rest)
  ↔ (p = buildRoutePath mountpath (path route)
     ∧ name = Js.toLowerCase (verb_name (method route)))
    ∨ name ∈ methods_for mountpath p rest.
Proof.
  unfold methods_for, on_path. rewrite filter_cons.
  destruct (decide (buildRoutePath mountpath (path route) = p)) as [Hp|Hp].
  - rewrite fmap_cons, elem_of_cons. split; [intros [?|?]; [by left | by right]|].
    intros [[_ ?]|?]; [by left | by right].
  - split; [by right|]. intros [[? _]|?]; [congruence | done].
Qed.

Lemma foldl_record_route_dom mountpath routes t p name :
  (is_Some (default ∅ (routesConsumes (foldl (record_route mountpath) t routes) !! p) !! name)
   ↔ is_Some (default ∅ (routesConsumes t !! p) !! name)
     ∨ name ∈ methods_for mountpath p routes)
  ∧ (is_Some (default ∅ (routesProduces (foldl (record_route mountpath) t routes) !! p) !! name)
     ↔ is_Some (default ∅ (routesProduces t !! p) !! name)
       ∨ name ∈ methods_for mountpath p routes).
Proof.
  revert t. induction routes as [|route rest IH]; intros t.
  - split; (split; [by left|]); (intros [?|Hin]; [done | by apply elem_of_nil in Hin]).
  - cbn [foldl]. destruct (IH (record_route mountpath t route)) as [IHc IHp].
    rewrite IHc, IHp. cbn [record_route routesConsumes routesProduces].
    rewrite !record_media_dom, methods_for_cons. split; tauto.
Qed.

Lemma empty_table_lookup (p name : string) :
  default ∅ ((∅ : gmap string (gmap string (list string))) !! p) !! name = None.
Proof. by rewrite lookup_empty. Qed.

(** The group of a path, in either pipeline: the not-allowed middleware and
    the two tables of the negotiation middlewares. *)
Lemma group_among_added errorName router options p chain :
  Use p chain ∈ added router (V1.expressroutes router options)
  ∨ Use p chain ∈ added router (V2.expressroutes errorName router options) →
  ∃ before,
    chain = before ++
      [MwNotAllowed (default [] (JsObject.get (routesMethod (tables_of options)) p));
       MwContentType (default ∅ (routesConsumes (tables_of options) !! p));
       MwAccept (default ∅ (routesProduces (tables_of options) !! p))
                (default ∅ (routesConsumes (tables_of options) !! p))].
Proof.
  intros [Hin | Hin].
  - apply V1_use_among_added in Hin. injection Hin as ->. by exists [].
  - apply (V2_use_among_added errorName) in Hin. injection Hin as ->. by eexists [_].
Qed.

(** Every key of the table of methods has its group among the calls of a
    mount of the newer pipeline. *)
Lemma V2_group_exists errorName router options p :
  p ∈ JsObject.keys (routesMethod (tables_of options)) →
  ∃ chain, Use p chain ∈ added router (V2.expressroutes errorName router options).
Proof.
  intros Hin. destruct (V2_mounted errorName router options) as (calls & Hrouter & _).
  eexists. unfold added. rewrite Hrouter, drop_app_length.
  apply list_elem_of_further, elem_of_app. right.
  apply list_elem_of_fmap. exists p. split; [reflexivity | exact Hin].
Qed.

Lemma pet_keys :
  JsObject.keys (routesMethod (tables_of (H := sample_utils) pet_options))
  = ["/v1/pets"; "/v1/pets/:id"].
Proof. vm_compute. reflexivity. Qed.

End GroupFacts.

(** X11. The not-allowed middleware attached to a path, in either pipeline,
    is built with the lower-case methods of the routes that resolve to this
    path, in the order of the routes and with a method declared twice listed
    twice. *)
Theorem not_allowed_methods `{Utils} (errorName : option string) (router : list RouterCall)
    (options : Options) (p : string) (chain : list Middleware) :
  Use p chain ∈ added router (V1.expressroutes router options)
  ∨ Use p chain ∈ added router (V2.expressroutes errorName router options) →
  MwNotAllowed (methods_for (mountpath_of options) p (default [] (routes options))) ∈ chain.
Proof.
  intros Hin. destruct (group_among_added errorName router options p chain Hin) as [before ->].
  unfold tables_of. rewrite foldl_record_route_methods. cbn [empty_tables routesMethod].
  change (default [] (JsObject.get [] p)) with (@nil string). rewrite app_nil_l.
  apply elem_of_app. right. apply list_elem_of_here.
Qed.

Lemma not_allowed_methods_witness :
  ∃ chain,
    Use "/v1/pets" chain
      ∈ added [] (V2.expressroutes (H := sample_utils) None [] pet_options)
    ∧ MwNotAllowed ["get"; "post"] ∈ chain.
Proof.
  assert (∃ chain, Use "/v1/pets" chain
                     ∈ added [] (V2.expressroutes (H := sample_utils) None [] pet_options))
    as [chain Hin].
  { apply (V2_group_exists (H := sample_utils)). rewrite pet_keys. apply list_elem_of_here. }
  exists chain. split; [exact Hin|].
  exact (not_allowed_methods (H := sample_utils) None [] pet_options "/v1/pets" chain
           (or_intror Hin)).
Defined.

(** X12. The tables handed to the Content-Type and Accept middlewares of a
    path hold, for a method, exactly the media types that the routes of this
    path and method declare: those of [consumes] in the first, those of
    [produces] in the second. *)
Theorem negotiation_tables `{Utils} (errorName : option string) (router : list RouterCall)
    (options : Options) (p : string) (chain : list Middleware) :
  Use p chain ∈ added router (V1.expressroutes router options)
  ∨ Use p chain ∈ added router (V2.expressroutes errorName router options) →
  ∃ consumed produced,
    MwContentType consumed ∈ chain
    ∧ MwAccept produced consumed ∈ chain
    ∧ (∀ name mediaType,
         mediaType ∈ default [] (consumed !! name)
         ↔ declares consumes (mountpath_of options) p (default [] (routes options))
             name mediaType)
    ∧ (∀ name mediaType,
         mediaType ∈ default [] (produced !! name)
         ↔ declares produces (mountpath_of options) p (default [] (routes options))
             name mediaType).
Proof.
  intros Hin. destruct (group_among_added errorName router options p chain Hin) as [before ->].
  eexists _, _. split; [|split; [|split]].
  - apply elem_of_app. right. apply list_elem_of_further, list_elem_of_here.
  - apply elem_of_app. right. do 2 apply list_elem_of_further. apply list_elem_of_here.
  - intros name x. unfold tables_of. rewrite foldl_record_route_consumes.
    cbn [empty_tables routesConsumes]. rewrite empty_table_lookup. cbn [default].
    split; [intros [Hx|?]; [by apply elem_of_nil in Hx | done] | by right].
  - intros name x. unfold tables_of. rewrite foldl_record_route_produces.
    cbn [empty_tables routesProduces]. rewrite empty_table_lookup. cbn [default].
    split; [intros [Hx|?]; [by apply elem_of_nil in Hx | done] | by right].
Qed.

Lemma negotiation_tables_witness :
  ∃ chain consumed produced,
    Use "/v1/pets" chain
      ∈ added [] (V2.expressroutes (H := sample_utils) None [] pet_options)
    ∧ MwAccept produced consumed ∈ chain
    ∧ "text/xml" ∈ default [] (produced !! "get").
Proof.
  assert (∃ chain, Use "/v1/pets" chain
                     ∈ added [] (V2.expressroutes (H := sample_utils) None [] pet_options))
    as [chain Hin].
  { apply (V2_group_exists (H := sample_utils)). rewrite pet_keys. apply list_elem_of_here. }
  destruct (negotiation_tables (H := sample_utils) None [] pet_options "/v1/pets" chain
              (or_intror Hin)) as (consumed & produced & _ & Haccept & _ & Hproduced).
  exists chain, consumed, produced. split; [exact Hin|]. split; [exact Haccept|].
  apply Hproduced. eexists _, _. split; [apply list_elem_of_here|].
  repeat split. apply list_elem_of_further, list_elem_of_here.
Defined.

(** X13. In the group of a path the Accept middleware never falls back on
    the consumed media types: the two tables have an entry for the same
    methods, those of the routes of the path, so that for a route that
    declares no [produces] the list of valid media types is empty whatever
    it consumes. *)
Theorem accept_never_falls_back `{Utils} (errorName : option string)
    (router : list RouterCall) (options : Options) (p : string) (chain : list Middleware) :
  Use p chain ∈ added router (V1.expressroutes router options)
  ∨ Use p chain ∈ added router (V2.expressroutes errorName router options) →
  ∃ consumed produced,
    MwAccept produced consumed ∈ chain
    ∧ (∀ name,
         is_Some (produced !! name)
         ↔ name ∈ methods_for (mountpath_of options) p (default [] (routes options)))
    ∧ (∀ name,
         match produced !! name with
         | Some l => l
         | None => default [] (consumed !! name)
         end = default [] (produced !! name)).
Proof.
  intros Hin. destruct (group_among_added errorName router options p chain Hin) as [before ->].
  eexists _, _. split; [|split].
  - apply elem_of_app. right. do 2 apply list_elem_of_further. apply list_elem_of_here.
  - intros name. unfold tables_of.
    rewrite (proj2 (foldl_record_route_dom _ _ _ _ _)).
    cbn [empty_tables routesProduces]. rewrite empty_table_lookup.
    split; [intros [[? [=]]|?]; done | by right].
  - intros name.
    pose proof (proj1 (foldl_record_route_dom (mountpath_of options)
                         (default [] (routes options)) empty_tables p name)) as Hc.
    pose proof (proj2 (foldl_record_route_dom (mountpath_of options)
                         (default [] (routes options)) empty_tables p name)) as Hp.
    cbn [empty_tables routesProduces routesConsumes] in Hc, Hp.
    rewrite empty_table_lookup in Hc, Hp. fold (tables_of options) in Hc, Hp.
    destruct (default ∅ (routesProduces (tables_of options) !! p) !! name) as [l|] eqn:El;
      [done|].
    destruct (default ∅ (routesConsumes (tables_of options) !! p) !! name) as [l|] eqn:Ec;
      [|done].
    exfalso. assert (is_Some (@None (list string))) as [? [=]].
    apply Hp. right. destruct (proj1 Hc) as [[? [=]] | Hm]; [by eexists | exact Hm].
Qed.

Lemma accept_never_falls_back_witness :
  ∃ chain consumed produced,
    Use "/v1/pets/:id" chain
      ∈ added [] (V2.expressroutes (H := sample_utils) None [] pet_options)
    ∧ MwAccept produced consumed ∈ chain
    ∧ is_Some (produced !! "get").
Proof.
  assert (∃ chain, Use "/v1/pets/:id" chain
                     ∈ added [] (V2.expressroutes (H := sample_utils) None [] pet_options))
    as [chain Hin].
  { apply (V2_group_exists (H := sample_utils)). rewrite pet_keys.
    apply list_elem_of_further, list_elem_of_here. }
  destruct (accept_never_falls_back (H := sample_utils) None [] pet_options "/v1/pets/:id"
              chain (or_intror Hin)) as (consumed & produced & Haccept & Hdom & _).
  exists chain, consumed, produced. split; [exact Hin|]. split; [exact Haccept|].
  apply Hdom.
  replace (methods_for _ _ _) with ["get"] by (vm_compute; reflexivity).
  apply list_elem_of_here.
Defined.

(** X14. The documentation endpoint is the first registration of a mount,
    before any route of the API: a GET on the mount path followed by the
    documentation path, [/api-docs] unless the options give one. It answers
    with the API document, whose base path begins with a slash, and hands
    over to nothing. *)
Theorem docs_endpoint_first `{Utils} (errorName : option string) (router : list RouterCall)
    (options : Options) (req : Req) (res : Res) :
  (∃ rest,
     added router (V1.expressroutes router options)
     = Register VGet (docs_path options) [MwDocs (served_api options)] :: rest)
  ∧ (∃ rest,
       added router (V2.expressroutes errorName router options)
       = Register VGet (docs_path options) [MwDocs (served_api options)] :: rest)
  ∧ run_chain V1.run [MwDocs (served_api options)] req res
    = Ok (responded req (res_send res (BodyJson (served_api options))))
  ∧ run_chain (V2.run errorName) [MwDocs (served_api options)] req res
    = Ok (responded req (res_send res (BodyJson (served_api options))))
  ∧ basePath (served_api options)
    = Some (prefix (or_default (basePath (api options)) "/") "/")
  ∧ (docspath options = None → docs_path options = mountpath_of options +:+ prefix "/api-docs" "/").
Proof.
  split; [|split; [|split; [|split; [|split]]]]; try done.
  - destruct (V1_mounted router options) as (calls & Hrouter & _).
    unfold added. rewrite Hrouter, drop_app_length. by eexists.
  - destruct (V2_mounted errorName router options) as (calls & Hrouter & _).
    unfold added. rewrite Hrouter, drop_app_length. by eexists.
  - intros Hnone. unfold docs_path. by rewrite Hnone.
Qed.

(** X15. The error name is kept from one mount to the next: after a mount
    whose options name the errors, a mount whose options give no name leaves
    that name in place, and the errors of the cross-route middlewares carry
    it. *)
Theorem error_name_persists `{Utils} (errorName : option string)
    (router router' : list RouterCall) (options options' : Options) (name : string) :
  errorname options = Some name → name ≠ "" →
  errorname options' = None ∨ errorname options' = Some "" →
  let current :=
    m_errorName (V2.expressroutes
                   (m_errorName (V2.expressroutes errorName router options))
                   router' options') in
  current = Some name
  ∧ ∀ methods consumed produced req res e,
      o_next (V2.buildNotAllowedMiddleware current methods req res) = Some (JHttpError e)
      ∨ o_next (V2.validateContentTypeHeaderMiddleware current consumed req res)
        = Some (JHttpError e)
      ∨ o_next (V2.validateAcceptHeaderMiddleware current produced consumed req res)
        = Some (JHttpError e) →
      e_name e = name.
Proof.
  intros Hname Hne Hnone current.
  assert (current = Some name) as ->.
  { subst current.
    destruct (V2_mounted errorName router options) as (? & _ & _ & _ & ->).
    destruct (V2_mounted (match errorname options with
                          | Some n => if String.eqb n "" then errorName else Some n
                          | None => errorName
                          end) router' options') as (? & _ & _ & _ & ->).
    rewrite Hname, eqb_false_of_ne by done. by destruct Hnone as [-> | ->]. }
  split; [done|]. intros methods consumed produced req res e.
  assert (∀ code title description,
            e_name (V2.error (Some name) code title description) = name) as Herr.
  { intros. unfold V2.error, or_default. cbn [e_name]. by rewrite eqb_false_of_ne. }
  unfold V2.buildNotAllowedMiddleware, V2.validateContentTypeHeaderMiddleware,
    V2.validateAcceptHeaderMiddleware.
  intros [Hn | [Hn | Hn]]; repeat case_match; cbn [o_next next next_with] in Hn;
    try discriminate; injection Hn as <-; apply Herr.
Qed.

Lemma error_name_persists_witness :
  m_errorName
    (V2.expressroutes (H := sample_utils)
       (m_errorName
          (V2.expressroutes (H := sample_utils) None []
             {| routes := None; docspath := None; api := api pet_options;
                errorname := Some "PetError" |}))
       [] pet_options)
  = Some "PetError".
Proof.
  refine (proj1 (error_name_persists (H := sample_utils) None [] []
                   {| routes := None; docspath := None; api := api pet_options;
                      errorname := Some "PetError" |}
                   pet_options "PetError" eq_refl _ (or_introl eq_refl))).
  discriminate.
Defined.

(** X16. The property [swagger] a mount defines on the parent holds the very
    objects [expressroutes] works on: its API document has the base path as
    prefixed with a slash, and in its routes every handler array has been
    replaced by its last function. *)
Theorem onmount_swagger `{Utils} (errorName : option string) (app_mountpath : string)
    (opts : Index.MountOptions) (parent : Index.Parent) :
  Index.swagger parent = None →
  Index.swagger (Index.onmount errorName app_mountpath opts parent).1.2
  = Some (served_api (mount_options app_mountpath opts),
          fmap (M := option) (fmap (M := list) unwrapped) (routes (Index.options opts)))
  ∧ ∀ defined route,
      routes (Index.options opts) = Some defined → route ∈ defined →
      ∃ f, handler (unwrapped route) = HFunction f.
Proof.
  intros Hnone. split.
  - unfold Index.onmount. rewrite Hnone. cbn [fst snd Index.swagger].
    destruct (V2_mounted errorName (removelast (Index.stack parent))
                (mount_options app_mountpath opts)) as (? & _ & _ & Hopts & _).
    unfold mount_options in Hopts |- *. by rewrite Hopts.
  - intros defined route _ _. unfold unwrapped.
    destruct (handler route) as [f|pre last] eqn:Hh; [by exists f; rewrite Hh | by exists last].
Qed.

Lemma onmount_swagger_witness :
  Index.swagger
    (Index.onmount (H := sample_utils) None "/v1" pet_mount_options empty_parent).1.2
  = Some (served_api (H := sample_utils) (mount_options "/v1" pet_mount_options),
          Some (unwrapped <$> pet_routes)).
Proof.
  exact (proj1 (onmount_swagger (H := sample_utils) None "/v1" pet_mount_options empty_parent
                  eq_refl)).
Defined.


(** ** Requests walking a chain *)

Section Chains.
Context `{Utils}.

(** A chain that ends by handing over continues with what follows it. *)
Lemma run_chain_app run (a b : list Middleware) req res o v :
  run_chain run a req res = Ok o → o_next o = Some v → truthy v = false →
  run_chain run (a ++ b) req res = run_chain run b (o_req o) (o_res o).
Proof.
  revert req res. induction a as [|mw rest IH]; intros req res Hrun Hnext Hv.
  - injection Hrun as <-. done.
  - cbn [run_chain app] in Hrun |- *. destruct (run mw req res) as [o1|e]; [|done].
    cbn [mbind result_bind] in Hrun |- *.
    destruct (o_next o1) as [v1|] eqn:Hn1.
    + destruct (truthy v1) eqn:Hv1.
      * injection Hrun as <-. congruence.
      * by apply IH.
    + injection Hrun as <-. congruence.
Qed.

Lemma run_chain_cons run mw (rest : list Middleware) req res :
  run_chain run (mw :: rest) req res
  = (o ← run mw req res;
     match o_next o with
     | Some v => if truthy v then Ok o else run_chain run rest (o_req o) (o_res o)
     | None => Ok o
     end).
Proof. reflexivity. Qed.

Lemma methods_of_tables options p :
  default [] (JsObject.get (routesMethod (tables_of options)) p)
  = methods_for (mountpath_of options) p (default [] (routes options)).
Proof. unfold tables_of. by rewrite foldl_record_route_methods. Qed.

(** The chain [makeExpressRoute] registers, in the order of its parts. *)
Lemma registered_chain router mountpath route defs m p chain :
  (makeExpressRoute router mountpath route defs).1 = router ++ [Register m p chain] →
  chain
  = match security route with Some sec => [MwAuthorize sec defs] | None => [] end
    ++ match handler route with HFunction _ => [] | HArray pre _ => MwHandler <$> pre end
    ++ ((fun v => MwValidateInput v (consumes route)) <$> validators route)
    ++ [MwHandler match handler route with HFunction f => f | HArray _ last => last end].
Proof.
  unfold makeExpressRoute. destruct (handler route) as [f|pre last] eqn:Hh;
    cbn [fst set_handler handler validators consumes]; rewrite ?Hh;
    intros Heq; apply app_inv_head in Heq; injection Heq as _ _ <-.
  - by rewrite <- !app_assoc.
  - rewrite <- !app_assoc. destruct pre as [|g pre]; [done|].
    rewrite length_app. cbn [length].
    rewrite (proj2 (Z.ltb_lt 1 _)) by lia. by rewrite <- !app_assoc.
Qed.

Lemma run_authorize run errorName sec defs req res :
  run = V1.run ∨ run = V2.run errorName →
  run (MwAuthorize sec defs) req res = Ok (authorizeFor sec defs req res).
Proof. by intros [-> | ->]. Qed.

Lemma run_validator run errorName v consumes req res :
  run = V1.run ∨ run = V2.run errorName →
  run (MwValidateInput v consumes) req res = validateInput v consumes req res.
Proof. by intros [-> | ->]. Qed.

Lemma run_handler run errorName f req res :
  run = V1.run ∨ run = V2.run errorName →
  run (MwHandler f) req res = Ok (f req res).
Proof. by intros [-> | ->]. Qed.

End Chains.

(** X17. Authorization comes first in the chain of a route and guards the
    rest of it. When no scheme of a non-empty security object authorizes the
    request, the chain ends with the outcome of the authorization, status 401
    and the first error: no pre-handler, validator or handler runs. With an
    empty security object no error is collected, so the rest of the chain
    runs, on a response whose status code is 401 already. *)
Theorem unauthorized_guards_chain `{Utils} (run : Middleware → Req → Res → Result Outcome)
    (errorName : option string) (router : list RouterCall) (mountpath : string)
    (route : Route) (defs : option (gmap string JsVal)) (m : Verb) (p : string)
    (chain : list Middleware) (sec : list (string * Scheme)) (req : Req) (res : Res) :
  run = V1.run ∨ run = V2.run errorName →
  security route = Some sec →
  (makeExpressRoute router mountpath route defs).1 = router ++ [Register m p chain] →
  Forall (fun entry => ¬ authorizes defs req res entry) sec →
  (sec ≠ [] →
     run_chain run chain req res = Ok (authorizeFor sec defs req res)
     ∧ statusCode (o_res (authorizeFor sec defs req res)) = 401%nat
     ∧ o_next (authorizeFor sec defs req res) = Some (shift (report defs req res <$> sec))
     ∧ truthy (shift (report defs req res <$> sec)) = true)
  ∧ (sec = [] →
       ∃ rest, chain = MwAuthorize [] defs :: rest
         ∧ run_chain run chain req res = run_chain run rest req (res_status res 401)).
Proof.
  intros Hrun Hsec Hchain Hall. apply registered_chain in Hchain. rewrite Hsec in Hchain.
  subst chain. split.
  - intros Hne. destruct (some_passed_failure defs sec [] req res Hall) as [Hnext Hres].
    fold (authorizeFor sec defs req res) in Hnext, Hres. rewrite app_nil_l in Hnext.
    assert (truthy (shift (report defs req res <$> sec)) = true) as Htruthy.
    { destruct sec as [|entry sec]; [done|]. apply Forall_cons in Hall as [Hentry _].
      cbn [fmap list_fmap shift hd]. by apply report_failure_truthy. }
    split; [|split; [by rewrite Hres | split; [exact Hnext | exact Htruthy]]].
    cbn [app run_chain]. rewrite (run_authorize run errorName) by done.
    cbn [mbind result_bind]. by rewrite Hnext, Htruthy.
  - intros ->. eexists. split; [reflexivity|].
    cbn [app run_chain]. by rewrite (run_authorize run errorName) by done.
Qed.

Lemma unauthorized_guards_chain_witness :
  run_chain V1.run
    [MwAuthorize [("key", {| scopes := None; authorize := Some deny |})] None;
     MwHandler handler_ok]
    (request "GET" [] None) res0
  = Ok (authorizeFor [("key", {| scopes := None; authorize := Some deny |})] None
          (request "GET" [] None) res0).
Proof.
  refine (proj1 (proj1 (unauthorized_guards_chain (H := sample_utils) V1.run None [] "/v1"
    {| method := VGet; path := "/pets"; handler := HFunction handler_ok; validators := [];
       consumes := None; produces := None;
       security := Some [("key", {| scopes := None; authorize := Some deny |})] |}
    None VGet "/v1/pets" _ _ (request "GET" [] None) res0
    (or_introl eq_refl) eq_refl eq_refl _) _)).
  - apply Forall_cons. split; [|by apply Forall_nil]. intros [_ Ht]. discriminate Ht.
  - discriminate.
Defined.

(** X18. A parameter that fails validation guards the handler. When what
    stands ahead of its validator in the chain of a route (the authorization
    of a route with a security requirement, the functions before the last of
    a handler array, the validators of the parameters declared before it)
    lets the request through without a response being sent, and this
    validator reports an error, the chain ends with the error payload of this
    parameter, on the request and the response as they were left: neither the
    later validators nor the handler run. *)
Theorem invalid_parameter_guards_handler `{Utils}
    (run : Middleware → Req → Res → Result Outcome) (errorName : option string)
    (router : list RouterCall) (mountpath : string) (route : Route)
    (defs : option (gmap string JsVal)) (m : Verb) (p : string) (chain : list Middleware)
    (passing later : list Validator) (v : Validator)
    (req req' : Req) (res res' : Res) (value : JsVal) (error : VError) :
  run = V1.run ∨ run = V2.run errorName →
  validators route = passing ++ v :: later →
  (makeExpressRoute router mountpath route defs).1 = router ++ [Register m p chain] →
  run_chain run (ahead_of_validators route defs passing) req res = Ok (next req' res') →
  sent res' = [] →
  acc_get (valueAccessor (parameter v) (consumes route)) req' (p_name (parameter v))
  = Ok value →
  validate v value = Invalid error →
  (∃ after,
     chain = ahead_of_validators route defs passing
             ++ MwValidateInput v (consumes route) :: after)
  ∧ run_chain run chain req res
    = Ok (responded req'
            (res_send
               (res_status res' (err_status (validation_error (parameter v) value error)))
               (BodyErrors [validation_error (parameter v) value error]))).
Proof.
  intros Hrun Hvs Hchain Hpass _ Hget Hinvalid.
  apply registered_chain in Hchain. rewrite Hvs, fmap_app, fmap_cons in Hchain.
  assert (chain = ahead_of_validators route defs passing
                  ++ MwValidateInput v (consumes route)
                     :: ((fun w => MwValidateInput w (consumes route)) <$> later)
                     ++ [MwHandler match handler route with
                                   | HFunction f => f
                                   | HArray _ last => last
                                   end]) as ->.
  { rewrite Hchain. unfold ahead_of_validators. by rewrite <- !app_assoc. }
  split; [by eexists|].
  rewrite (run_chain_app _ _ _ _ _ _ JUndefined Hpass) by done.
  cbn [o_req o_res next]. rewrite run_chain_cons.
  rewrite (run_validator run errorName) by done.
  unfold validateInput. rewrite Hget. cbn [mbind result_bind]. by rewrite Hinvalid.
Qed.

Lemma invalid_parameter_guards_handler_witness :
  run_chain V1.run
    [MwAuthorize [("oauth", {| scopes := Some ["read"]; authorize := Some allow |})] None;
     MwHandler handler_log;
     MwValidateInput {| parameter := limit_param InQuery; validate := always_invalid |} None;
     MwHandler handler_ok]
    (request "GET" [] None) res0
  = Ok (responded (set_requiredScopes (request "GET" [] None) (Some ["read"]))
          (res_send (res_status res0 400)
             (BodyErrors [{| err_detail := "Validation Error"; err_status := 400;
                             err_title := "Bad Request" |}]))).
Proof.
  exact (proj2 (invalid_parameter_guards_handler (H := sample_utils) V1.run None [] "/v1"
    {| method := VGet; path := "/pets"; handler := HArray [handler_log] handler_ok;
       validators := [{| parameter := limit_param InQuery; validate := always_invalid |}];
       consumes := None; produces := None;
       security := Some [("oauth", {| scopes := Some ["read"];
                                      authorize := Some allow |})] |}
    None VGet "/v1/pets" _ [] []
    {| parameter := limit_param InQuery; validate := always_invalid |}
    (request "GET" [] None) (set_requiredScopes (request "GET" [] None) (Some ["read"]))
    res0 res0 JUndefined {| verr_name := None; verr_details := None |}
    (or_introl eq_refl) eq_refl eq_refl eq_refl eq_refl eq_refl eq_refl)).
Defined.

(** X19. The functions before the last of a handler array stand after the
    authorization of the route, when it has a security requirement, and
    before its validators. The first of them receives the request as the
    authorization left it, which is the request as it came when the route has
    no security requirement, not yet validated or coerced; and when it
    answers by itself nothing else of the chain runs. *)
Theorem pre_handler_before_validation `{Utils}
    (run : Middleware → Req → Res → Result Outcome) (errorName : option string)
    (router : list RouterCall) (mountpath : string) (route : Route)
    (defs : option (gmap string JsVal)) (m : Verb) (p : string) (chain : list Middleware)
    (g last : Fn) (pre : list Fn) (req : Req) (res : Res) :
  run = V1.run ∨ run = V2.run errorName →
  handler route = HArray (g :: pre) last →
  (makeExpressRoute router mountpath route defs).1 = router ++ [Register m p chain] →
  chain = ahead_of_validators route defs []
          ++ ((fun v => MwValidateInput v (consumes route)) <$> validators route)
          ++ [MwHandler last]
  ∧ ahead_of_validators route defs []
    = match security route with
      | Some sec => [MwAuthorize sec defs]
      | None => []
      end ++ (MwHandler <$> g :: pre)
  ∧ (∀ req' res',
       run_chain run
         match security route with
         | Some sec => [MwAuthorize sec defs]
         | None => []
         end req res = Ok (next req' res') →
       o_next (g req' res') = None →
       run_chain run chain req res = Ok (g req' res'))
  ∧ (security route = None → o_next (g req res) = None →
     run_chain run chain req res = Ok (g req res)).
Proof.
  intros Hrun Hh Hchain. apply registered_chain in Hchain. rewrite Hh in Hchain.
  assert (ahead_of_validators route defs []
          = match security route with
            | Some sec => [MwAuthorize sec defs]
            | None => []
            end ++ (MwHandler <$> g :: pre)) as Hahead.
  { unfold ahead_of_validators. rewrite Hh. cbn [fmap list_fmap]. by rewrite app_nil_r. }
  assert (∀ req' res',
            run_chain run
              match security route with
              | Some sec => [MwAuthorize sec defs]
              | None => []
              end req res = Ok (next req' res') →
            o_next (g req' res') = None →
            run_chain run chain req res = Ok (g req' res')) as Hfirst.
  { intros req' res' Hauth Hnone. rewrite Hchain.
    rewrite (run_chain_app _ _ _ _ _ _ JUndefined Hauth) by done.
    cbn [o_req o_res next]. rewrite fmap_cons, <- app_comm_cons, run_chain_cons.
    rewrite (run_handler run errorName) by done. cbn [mbind result_bind]. by rewrite Hnone. }
  split; [|split; [exact Hahead|split; [exact Hfirst|]]].
  - rewrite Hchain, Hahead. by rewrite <- !app_assoc.
  - intros Hsec. apply Hfirst. by rewrite Hsec.
Qed.

Lemma pre_handler_before_validation_witness :
  run_chain V1.run
    [MwAuthorize [("oauth", {| scopes := Some ["read"]; authorize := Some allow |})] None;
     MwHandler handler_ok;
     MwValidateInput {| parameter := limit_param InQuery; validate := always_invalid |} None;
     MwHandler handler_log]
    (request "GET" [] None) res0
  = Ok (handler_ok (set_requiredScopes (request "GET" [] None) (Some ["read"])) res0).
Proof.
  exact (proj1 (proj2 (proj2 (pre_handler_before_validation (H := sample_utils) V1.run None
    [] "/v1"
    {| method := VGet; path := "/pets"; handler := HArray [handler_ok] handler_log;
       validators := [{| parameter := limit_param InQuery; validate := always_invalid |}];
       consumes := None; produces := None;
       security := Some [("oauth", {| scopes := Some ["read"];
                                      authorize := Some allow |})] |}
    None VGet "/v1/pets" _ handler_ok handler_log [] (request "GET" [] None) res0
    (or_introl eq_refl) eq_refl eq_refl)))
    (set_requiredScopes (request "GET" [] None) (Some ["read"])) res0 eq_refl eq_refl).
Defined.

(** ** The group of a path in the newer pipeline *)

Section NewerGroup.
Context `{Utils}.

Lemma V2_group_registered errorName router options p :
  p ∈ JsObject.keys (routesMethod (tables_of options)) →
  V2.use_group (served_api options) (tables_of options) p
    ∈ added router (V2.expressroutes errorName router options).
Proof.
  intros Hin. destruct (V2_mounted errorName router options) as (calls & Hrouter & _).
  unfold added. rewrite Hrouter, drop_app_length.
  apply list_elem_of_further, elem_of_app. right.
  apply list_elem_of_fmap. exists p. split; [reflexivity | exact Hin].
Qed.

Lemma append_outcome routePath swaggerDefinitions req res o :
  appendSwaggerDefinitionsToReq routePath swaggerDefinitions req res = Ok o →
  ∃ definition, o = next (set_swaggerDefinition req definition) res.
Proof.
  unfold appendSwaggerDefinitionsToReq. destruct (paths swaggerDefinitions); [|done].
  destruct (get_prop _ _) as [definition|]; [|done]. cbn [mbind result_bind].
  intros [= <-]. by exists definition.
Qed.

Lemma append_defined routePath swaggerDefinitions req res ps :
  paths swaggerDefinitions = Some ps →
  ∃ definition,
    appendSwaggerDefinitionsToReq routePath swaggerDefinitions req res
    = Ok (next (set_swaggerDefinition req definition) res).
Proof.
  intros Hps. unfold appendSwaggerDefinitionsToReq. rewrite Hps.
  destruct (default JUndefined (JsObject.get ps _)) as [| |b|n| |s|fields|e|e];
    cbn [truthy]; repeat case_match; cbn [get_prop mbind result_bind]; by eexists.
Qed.

Lemma V2_not_allowed_passes errorName methods req res :
  first_pass req = false ∨ Js.toLowerCase (req_method req) ∈ methods →
  ∃ req',
    V2.buildNotAllowedMiddleware errorName methods req res = next req' res
    ∧ first_pass req' = false
    ∧ req_headers req' = req_headers req
    ∧ req_method req' = req_method req.
Proof.
  intros Hpass. unfold V2.buildNotAllowedMiddleware.
  assert (first_pass req && (Js.indexOf methods (Js.toLowerCase (req_method req)) =? -1)
          = false) as ->.
  { destruct Hpass as [-> | Hin]; [done|].
    rewrite indexOf_absent_b, (bool_decide_eq_false_2 (_ ∉ _)) by (by intros Hn).
    apply andb_false_r. }
  eexists. split; [reflexivity|].
  destruct req as [? ? ? ? ? ? ? [[|n]|] ? ?]; done.
Qed.

End NewerGroup.

(** X20. In the newer pipeline the group of a path never raises the 415 of
    the Content-Type check: the not-allowed middleware, which runs before it,
    either ends the chain with its own error or sets the pass counter, and
    the check is skipped once the counter is set. *)
Theorem newer_group_never_415 `{Utils} (errorName current : option string)
    (router : list RouterCall) (options : Options) (p : string) (chain : list Middleware)
    (req : Req) (res : Res) (o : Outcome) :
  Use p chain ∈ added router (V2.expressroutes errorName router options) →
  run_chain (V2.run current) chain req res = Ok o →
  ¬ ∃ e, o_next o = Some (JHttpError e) ∧ e_status e = 415%nat.
Proof.
  intros Hin Hrun. apply (V2_use_among_added errorName) in Hin. injection Hin as ->.
  rewrite run_chain_cons in Hrun. cbn [V2.run] in Hrun.
  destruct (appendSwaggerDefinitionsToReq p (served_api options) req res) as [o1|] eqn:E1;
    [|done].
  apply append_outcome in E1 as [definition ->].
  cbn [mbind result_bind o_next o_req o_res next truthy] in Hrun.
  by eapply V2_group_never_415.
Qed.

Lemma newer_group_never_415_witness :
  match
    run_chain (V2.run None)
      [MwAppendSwaggerDefinitions "/v1/pets"
         (served_api (H := sample_utils) documented_pet_options);
       MwNotAllowed
         (default [] (JsObject.get
            (routesMethod (tables_of (H := sample_utils) documented_pet_options))
            "/v1/pets"));
       MwContentType
         (default ∅ (routesConsumes (tables_of (H := sample_utils) documented_pet_options)
                     !! "/v1/pets"));
       MwAccept
         (default ∅ (routesProduces (tables_of (H := sample_utils) documented_pet_options)
                     !! "/v1/pets"))
         (default ∅ (routesConsumes (tables_of (H := sample_utils) documented_pet_options)
                     !! "/v1/pets"))]
      (request "POST" [("content-type", "text/plain"); ("accept", "application/json")] None)
      res0
  with
  | Ok o => ¬ ∃ e, o_next o = Some (JHttpError e) ∧ e_status e = 415%nat
  | Throw _ => False
  end.
Proof.
  destruct (run_chain _ _ _ _) as [o|e] eqn:Hrun.
  - refine (newer_group_never_415 (H := sample_utils) None None [] documented_pet_options
              "/v1/pets" _ _ res0 o _ Hrun).
    apply (V2_group_registered (H := sample_utils) None [] documented_pet_options "/v1/pets").
    replace (JsObject.keys _) with ["/v1/pets"; "/v1/pets/:id"] by (vm_compute; reflexivity).
    apply list_elem_of_here.
  - vm_compute in Hrun. discriminate Hrun.
Defined.

(** X21. When the API document has no [paths], every request that reaches a
    group of the newer pipeline ends in a TypeError: the first function of the
    group enumerates the keys of [paths] before anything else is checked. *)
Theorem newer_group_without_paths `{Utils} (errorName current : option string)
    (router : list RouterCall) (options : Options) (p : string) (chain : list Middleware)
    (req : Req) (res : Res) :
  paths (api options) = None →
  Use p chain ∈ added router (V2.expressroutes errorName router options) →
  run_chain (V2.run current) chain req res = Throw "TypeError".
Proof.
  intros Hnone Hin. apply (V2_use_among_added errorName) in Hin. injection Hin as ->.
  rewrite run_chain_cons. cbn [V2.run]. unfold appendSwaggerDefinitionsToReq.
  unfold served_api, set_basePath. cbn [paths]. by rewrite Hnone.
Qed.

Lemma newer_group_without_paths_witness :
  ∃ chain,
    Use "/v1/pets" chain
      ∈ added [] (V2.expressroutes (H := sample_utils) None [] pet_options)
    ∧ run_chain (V2.run None) chain (request "GET" [] None) res0 = Throw "TypeError".
Proof.
  destruct (V2_group_exists (H := sample_utils) None [] pet_options "/v1/pets")
    as [chain Hin].
  { rewrite pet_keys. apply list_elem_of_here. }
  exists chain. split; [exact Hin|].
  exact (newer_group_without_paths (H := sample_utils) None None [] pet_options "/v1/pets"
           chain (request "GET" [] None) res0 eq_refl Hin).
Defined.

(** X22. In the newer pipeline a request without an Accept header that
    passes the not-allowed check of the group of its path is refused with 406
    whatever the routes produce; nothing is sent and the status code of the
    response is left as it was. *)
Theorem newer_group_absent_accept `{Utils} (errorName current : option string)
    (router : list RouterCall) (options : Options) (p : string) (chain : list Middleware)
    (ps : list (string * JsVal)) (req : Req) (res : Res) :
  Use p chain ∈ added router (V2.expressroutes errorName router options) →
  paths (api options) = Some ps →
  header req "accept" = None →
  first_pass req = false
  ∨ Js.toLowerCase (req_method req)
    ∈ methods_for (mountpath_of options) p (default [] (routes options)) →
  ∃ o e,
    run_chain (V2.run current) chain req res = Ok o
    ∧ o_next o = Some (JHttpError e) ∧ e_status e = 406%nat
    ∧ o_res o = res.
Proof.
  intros Hin Hps Haccept Hpass.
  apply (V2_use_among_added errorName) in Hin. injection Hin as ->.
  destruct (append_defined p (served_api options) req res ps) as [definition Happend];
    [done|].
  rewrite methods_of_tables.
  rewrite run_chain_cons. cbn [V2.run]. rewrite Happend.
  cbn [mbind result_bind o_next o_req o_res next truthy].
  rewrite run_chain_cons. cbn [V2.run].
  destruct (V2_not_allowed_passes current
              (methods_for (mountpath_of options) p (default [] (routes options)))
              (set_swaggerDefinition req definition) res)
    as (req' & -> & Hfirst & Hheaders & Hmethod); [done|].
  cbn [mbind result_bind o_next o_req o_res next truthy].
  rewrite run_chain_cons. cbn [V2.run].
  rewrite V2_content_type_later_pass by done.
  cbn [mbind result_bind o_next o_req o_res next truthy].
  rewrite run_chain_cons. cbn [V2.run mbind result_bind].
  assert (header req' "accept" = None) as Haccept'.
  { unfold header in Haccept |- *. cbn [req_headers set_swaggerDefinition] in Hheaders.
    by rewrite Hheaders. }
  unfold V2.validateAcceptHeaderMiddleware. rewrite Haccept'.
  cbn [V2.header_values]. eexists _, _. split; [reflexivity|]. done.
Qed.

Lemma newer_group_absent_accept_witness :
  ∃ chain o e,
    Use "/v1/pets" chain
      ∈ added [] (V2.expressroutes (H := sample_utils) None [] documented_pet_options)
    ∧ run_chain (V2.run None) chain (request "GET" [] None) res0 = Ok o
    ∧ o_next o = Some (JHttpError e) ∧ e_status e = 406%nat.
Proof.
  assert (JsObject.keys (routesMethod (tables_of (H := sample_utils) documented_pet_options))
          = ["/v1/pets"; "/v1/pets/:id"]) as Hkeys by (vm_compute; reflexivity).
  destruct (V2_group_exists (H := sample_utils) None [] documented_pet_options "/v1/pets")
    as [chain Hin].
  { rewrite Hkeys. apply list_elem_of_here. }
  destruct (newer_group_absent_accept (H := sample_utils) None None []
              documented_pet_options "/v1/pets" chain pet_paths (request "GET" [] None) res0
              Hin eq_refl eq_refl) as (o & e & Hrun & Hnext & Hstatus & _).
  { right. replace (methods_for _ _ _) with ["get"; "post"] by (vm_compute; reflexivity).
    apply list_elem_of_here. }
  exists chain, o, e. done.
Defined.


(** ** The scaffolding tool: what it creates *)

Section Created.
Import Create.

Lemma creates_only_ret {A} allowed (a : A) : creates_only allowed (fs_ret a).
Proof. intros w p c Hp. by left. Qed.

Lemma creates_only_bind {A B} allowed (m : Fs A) (k : A → Fs B) (Q : A → Prop) :
  creates_only allowed m →
  (∀ w a w', m w = (Ok a, w') → Q a) →
  (∀ a, Q a → creates_only allowed (k a)) →
  creates_only allowed (fs_bind m k).
Proof.
  intros Hm HQ Hk w p c. unfold fs_bind.
  specialize (Hm w p c). specialize (HQ w).
  destruct (m w) as [[a|e] w']; cbn [snd] in *; [|done].
  intros Hp. destruct (Hk a (HQ a w' eq_refl) w' p c Hp) as [Hold|Hnew]; [by apply Hm | by right].
Qed.

Lemma creates_only_existsSync allowed q : creates_only allowed (existsSync q).
Proof. intros w p c Hp. by left. Qed.

Lemma creates_only_warn allowed q : creates_only allowed (warn q).
Proof. intros w p c Hp. by left. Qed.

Lemma creates_only_mkdirSync allowed q : creates_only allowed (mkdirSync q).
Proof.
  intros w p c. unfold mkdirSync. destruct (fs w !! q) eqn:Hq; [by left|].
  destruct (blocked w q); [by left|]. cbn [snd fs]. intros Hp. left.
  destruct (decide (q = p)) as [->|Hne]; [by rewrite lookup_insert_eq in Hp|].
  by rewrite lookup_insert_ne in Hp.
Qed.

Lemma creates_only_guarded_write (allowed : list string → string → Prop) file content :
  allowed file content → creates_only allowed (guarded_write file content).
Proof.
  intros Hallowed w p c. unfold guarded_write, fs_bind, existsSync. cbn [fst snd].
  case_bool_decide as Hex; [by left|]. unfold writeFileSync.
  destruct (fs w !! file) as [[|c0]|]; [by left| |];
    (destruct (blocked w file); [by left|]); cbn [snd fs]; intros Hp;
    (destruct (decide (file = p)) as [<-|Hne];
       [rewrite lookup_insert_eq in Hp; injection Hp as <-; by right
       |rewrite lookup_insert_ne in Hp by done; by left]).
Qed.

Lemma creates_only_weaken {A} (allowed allowed' : list string → string → Prop) (m : Fs A) :
  (∀ p c, allowed p c → allowed' p c) → creates_only allowed m → creates_only allowed' m.
Proof. intros Himp Hm w p c Hp. destruct (Hm w p c Hp); [by left | right; by apply Himp]. Qed.

Lemma creates_only_write_handler render handlersPath route :
  creates_only (fun p c => p = target handlersPath route ∧ c = render route)
    (write_handler render handlersPath route).
Proof.
  unfold write_handler, target.
  destruct (1 <? Z.of_nat (length (Js.split_slash (pathname route)))).
  - eapply (creates_only_bind _ _ _
              (fun file => file = path_join handlersPath
                                    (Js.join "/" (Js.split_slash (pathname route)) +:+ ".js"))).
    + eapply (creates_only_bind _ _ _ (fun _ => True));
        [apply creates_only_existsSync | done |]. intros there _.
      eapply (creates_only_bind _ _ _ (fun _ => True));
        [| done | intros; apply creates_only_ret].
      destruct there; [apply creates_only_warn | apply creates_only_mkdirSync].
    + intros w a w'. unfold fs_bind, existsSync. case_bool_decide.
      * by intros [= <- _].
      * destruct (mkdirSync _ w) as [[[]|e] w1]; [by intros [= <- _] | done].
    + intros file ->. by apply creates_only_guarded_write.
  - eapply (creates_only_bind _ _ _
              (fun file => file = path_join handlersPath
                                    (List.last (Js.split_slash (pathname route)) "undefined"
                                     +:+ ".js"))).
    + apply creates_only_ret.
    + intros w a w'. by intros [= <- _].
    + intros file ->. by apply creates_only_guarded_write.
Qed.

Lemma creates_only_write_handlers render handlersPath routes :
  creates_only
    (fun p c => ∃ route, route ∈ routes ∧ p = target handlersPath route ∧ c = render route)
    (write_handlers render handlersPath routes).
Proof.
  induction routes as [|route rest IH]; cbn [write_handlers]; [apply creates_only_ret|].
  eapply (creates_only_bind _ _ _ (fun _ => True)); [|done|].
  - eapply creates_only_weaken; [|apply creates_only_write_handler].
    intros p c [-> ->]. exists route. split; [left | done].
  - intros _ _. eapply creates_only_weaken; [|exact IH].
    intros p c (r & Hin & Hp). exists r. split; [by right | done].
Qed.

(** *** A pathname that names a member of [Object.prototype] *)

Lemma collect_throws acc apis e : collect acc apis = Throw e → e = "TypeError".
Proof.
  revert acc. induction apis as [|api rest IH]; intros acc; [done|].
  cbn [collect]. unfold collect_one.
  destruct (JsObject.get acc _); cbn [mbind result_bind]; [by apply IH|].
  case_bool_decide; cbn [mbind result_bind]; [by intros [= <-] | by apply IH].
Qed.

Lemma collect_prototype acc apis api :
  api ∈ apis → pathname_of (api_path api) ∈ prototype_keys →
  (∀ k, k ∈ prototype_keys → JsObject.get acc k = None) →
  collect acc apis = Throw "TypeError".
Proof.
  intros Hin Hproto. revert acc.
  induction apis as [|a rest IH]; intros acc Hacc; [by apply elem_of_nil in Hin|].
  assert (∀ acc', collect_one acc a = Ok acc' →
            ∀ k, k ∈ prototype_keys → JsObject.get acc' k = None) as Hinv.
  { intros acc'. unfold collect_one. cbn [route_of pathname].
    destruct (JsObject.get acc (pathname_of (api_path a))) as [filed|] eqn:Hget.
    - intros [= <-] k Hk. rewrite get_set.
      destruct (String.eqb_spec (pathname_of (api_path a)) k) as [<-|_]; [|by apply Hacc].
      rewrite Hacc in Hget by done. discriminate Hget.
    - case_bool_decide as Hp; [done|]. intros [= <-] k Hk. rewrite get_set.
      destruct (String.eqb_spec (pathname_of (api_path a)) k) as [<-|_]; [done | by apply Hacc]. }
  cbn [collect]. apply elem_of_cons in Hin as [<- | Hin].
  - unfold collect_one. cbn [route_of pathname]. rewrite Hacc by done.
    by rewrite bool_decide_eq_true_2.
  - destruct (collect_one acc a) as [acc'|e] eqn:Hone; cbn [mbind result_bind].
    + apply IH; [done|]. by apply Hinv.
    + f_equal. apply (collect_throws acc [a] e). cbn [collect]. by rewrite Hone.
Qed.

(** *** Models *)

Section ModelFiles.
Context {Model : Type} (render_model : Model → string) (modelsPath : list string).

Lemma write_model_result entry w :
  match fs w !! model_file modelsPath entry.1 with
  | Some _ =>
      write_model Model render_model modelsPath entry w
      = (Ok (), {| fs := fs w; warned := warned w ++ [model_file modelsPath entry.1] |})
  | None =>
      write_model Model render_model modelsPath entry w
      = (Ok (), {| fs := <[model_file modelsPath entry.1 := File (render_model entry.2)]> (fs w);
                   warned := warned w |})
      ∨ ∃ e, write_model Model render_model modelsPath entry w = (Throw e, w)
  end.
Proof.
  unfold write_model, model_file, fs_bind, existsSync.
  destruct (fs w !! path_join modelsPath (Js.toLowerCase entry.1 +:+ ".js")) as [n|] eqn:Hf.
  - rewrite bool_decide_eq_true_2 by (by eexists). done.
  - rewrite bool_decide_eq_false_2 by (by intros [? [=]]). cbn [negb].
    unfold writeFileSync. rewrite Hf. destruct (blocked w _); [right; by eexists | by left].
Qed.

Lemma keeps_write_models entries :
  keeps (write_models Model render_model modelsPath entries).
Proof.
  induction entries as [|entry rest IH]; cbn [write_models]; [apply keeps_ret|].
  apply keeps_bind; [apply keeps_write_model | by intros].
Qed.

Lemma write_models_warned entries w x :
  x ∈ warned w → x ∈ warned (write_models Model render_model modelsPath entries w).2.
Proof.
  revert w. induction entries as [|entry rest IH]; intros w Hx; [done|].
  cbn [write_models]. unfold fs_bind.
  pose proof (write_model_result entry w) as Hres.
  destruct (fs w !! model_file modelsPath entry.1).
  - rewrite Hres. apply IH. cbn [warned]. apply elem_of_app. by left.
  - destruct Hres as [-> | [e ->]]; [by apply IH | done].
Qed.

Lemma write_models_result entries w :
  (write_models Model render_model modelsPath entries w).1 = Ok () →
  ∀ entry, entry ∈ entries →
    (is_Some (fs w !! model_file modelsPath entry.1) →
       model_file modelsPath entry.1
         ∈ warned (write_models Model render_model modelsPath entries w).2)
    ∧ (fs w !! model_file modelsPath entry.1 = None →
         ∃ entry', entry' ∈ entries
           ∧ model_file modelsPath entry'.1 = model_file modelsPath entry.1
           ∧ fs (write_models Model render_model modelsPath entries w).2
               !! model_file modelsPath entry.1
             = Some (File (render_model entry'.2))).
Proof.
  revert w. induction entries as [|first rest IH]; intros w Hok entry Hin;
    [by apply elem_of_nil in Hin|].
  cbn [write_models] in Hok |- *. unfold fs_bind in Hok |- *.
  pose proof (write_model_result first w) as Hres.
  pose proof (keeps_write_model render_model modelsPath first w) as Hkeep.
  destruct (write_model Model render_model modelsPath first w) as [[[]|e] w1] eqn:Hw;
    [|done]. cbn [snd] in Hkeep.
  split.
  - intros [n Hn]. apply elem_of_cons in Hin as [-> | Hin].
    + rewrite Hn in Hres. injection Hres as ->. apply write_models_warned.
      cbn [warned]. apply elem_of_app. right. apply list_elem_of_here.
    + apply (IH w1 Hok entry Hin). exists n. by apply Hkeep.
  - intros Hnone.
    destruct (decide (model_file modelsPath first.1 = model_file modelsPath entry.1))
      as [Heq|Hne].
    + exists first. split; [left|]. split; [done|].
      rewrite Heq, Hnone in Hres. destruct Hres as [[= ->] | [e [=]]].
      apply keeps_write_models. cbn [fs]. by rewrite lookup_insert_eq.
    + apply elem_of_cons in Hin as [-> | Hin]; [done|].
      assert (fs w1 !! model_file modelsPath entry.1 = None) as Hnone1.
      { destruct (fs w !! model_file modelsPath first.1).
        - injection Hres as ->. done.
        - destruct Hres as [[= ->] | [e [=]]]. cbn [fs]. by rewrite lookup_insert_ne. }
      destruct (proj2 (IH w1 Hok entry Hin) Hnone1) as (entry' & Hin' & Heq' & Hfs).
      exists entry'. split; [by right | done].
Qed.

End ModelFiles.

End Created.

(** X23. The scaffolding tool never overwrites: whatever its input and
    whether or not the run ends with an exception, every file and directory
    that was there before [createHandlers] or [createModels] is there after
    it, unchanged. *)
Theorem scaffolding_never_overwrites {Model : Type} (render : Create.HandlerRoute → string)
    (render_model : Model → string) (apis : list Create.ApiEntry)
    (models : list (string * Model)) (handlersPath modelsPath : list string)
    (w : Create.World) (p : list string) (n : Create.Node) :
  Create.fs w !! p = Some n →
  Create.fs (Create.createHandlers render apis handlersPath w).2 !! p = Some n
  ∧ Create.fs (Create.createModels Model render_model models modelsPath w).2 !! p = Some n.
Proof.
  intros Hp. split; [by apply createHandlers_keeps | by apply createModels_keeps].
Qed.

Lemma scaffolding_never_overwrites_witness :
  Create.fs (Create.createHandlers Create.render_names Create.pets_apis ["handlers"]
               Create.used_world).2 !! ["handlers"; "pets.js"]
  = Some (Create.File "mine").
Proof.
  exact (proj1 (scaffolding_never_overwrites (Model := string) Create.render_names render_text
                  Create.pets_apis pet_models ["handlers"] ["models"] Create.used_world
                  ["handlers"; "pets.js"] (Create.File "mine") eq_refl)).
Defined.

(** X24. Every file [createHandlers] creates is the handler file of a group:
    a file that is there after the run and was not there before, with this
    content, is the target of the route that gathers the entries of [apis]
    with one pathname, and holds the rendering of this route, the methods of
    all these entries in their order. *)
Theorem handlers_created_are_renderings (render : Create.HandlerRoute → string)
    (apis : list Create.ApiEntry) (handlersPath : list string) (w : Create.World)
    (p : list string) (c : string) :
  Create.fs (Create.createHandlers render apis handlersPath w).2 !! p
  = Some (Create.File c) →
  Create.fs w !! p ≠ Some (Create.File c) →
  ∃ pathname route,
    Create.merged pathname (Create.grouped pathname apis) = Some route
    ∧ p = Create.target handlersPath route
    ∧ c = render route.
Proof.
  unfold Create.createHandlers. intros Hafter Hbefore.
  destruct (Create.collect [] apis) as [routes|e] eqn:Hc; [|done].
  destruct (creates_only_write_handlers render handlersPath _ w p c Hafter)
    as [Hold | (route & Hin & -> & ->)]; [done|].
  apply list_elem_of_omap in Hin as (pathname & _ & Hget).
  exists pathname, route. split; [|done].
  by rewrite <- (collect_grouped apis routes Hc pathname).
Qed.

Lemma handlers_created_are_renderings_witness :
  ∃ pathname route,
    Create.merged pathname (Create.grouped pathname Create.pets_apis) = Some route
    ∧ ["handlers"; "pets.js"] = Create.target ["handlers"] route
    ∧ "pets: get=findPets get=findPet delete=deletePet" = Create.render_names route.
Proof.
  apply (handlers_created_are_renderings Create.render_names Create.pets_apis ["handlers"]
           Create.fresh_world).
  - vm_compute. reflexivity.
  - vm_compute. discriminate.
Defined.

(** X25. When [createHandlers] ends without exception, the pathname of
    every entry of [apis] has its handler file (or something of that name
    that was there before): the target of the route that carries the path of
    the first entry with this pathname and the methods of all of them. *)
Theorem handlers_written_on_success (render : Create.HandlerRoute → string)
    (apis : list Create.ApiEntry) (handlersPath : list string) (w : Create.World)
    (api : Create.ApiEntry) :
  (Create.createHandlers render apis handlersPath w).1 = Ok () →
  api ∈ apis →
  ∃ first rest,
    Create.grouped (Create.pathname_of (Create.api_path api)) apis = first :: rest
    ∧ is_Some
        (Create.fs (Create.createHandlers render apis handlersPath w).2
         !! Create.target handlersPath
              {| Create.route_path := Create.api_path first;
                 Create.pathname := Create.pathname_of (Create.api_path api);
                 Create.methods :=
                   Create.methods_of
                     (Create.grouped (Create.pathname_of (Create.api_path api)) apis) |}).
Proof.
  intros Hok Hin. destruct (createHandlers_ok render apis handlersPath w Hok api Hin)
    as (route & Hroute & Hfile).
  unfold Create.merged in Hroute.
  destruct (Create.grouped (Create.pathname_of (Create.api_path api)) apis)
    as [|first rest] eqn:Hg; [done|].
  injection Hroute as <-. by exists first, rest.
Qed.

Lemma handlers_written_on_success_witness :
  ∃ first rest,
    Create.grouped "pets" Create.pets_apis = first :: rest
    ∧ is_Some
        (Create.fs (Create.createHandlers Create.render_names Create.pets_apis ["handlers"]
                      Create.fresh_world).2
         !! Create.target ["handlers"]
              {| Create.route_path := Create.api_path first;
                 Create.pathname := "pets";
                 Create.methods := Create.methods_of (Create.grouped "pets" Create.pets_apis) |}).
Proof.
  apply (handlers_written_on_success Create.render_names Create.pets_apis ["handlers"]
           Create.fresh_world
           {| Create.api_path := "/pets";
              Create.operations := [{| Create.op_method := "GET";
                                       Create.nickname := "findPets";
                                       Create.type := "array" |}] |}).
  - vm_compute. reflexivity.
  - apply list_elem_of_here.
Defined.

(** X26. An entry of [apis] whose pathname is the name of a member of
    [Object.prototype] ([/constructor], [/toString/{id}], ...) ends
    [createHandlers] with a TypeError, wherever it stands in the list; the
    file system is left as it was, no handler is written for any entry. *)
Theorem prototype_pathname_aborts (render : Create.HandlerRoute → string)
    (apis : list Create.ApiEntry) (handlersPath : list string) (w : Create.World)
    (api : Create.ApiEntry) :
  api ∈ apis →
  Create.pathname_of (Create.api_path api) ∈ Create.prototype_keys →
  Create.createHandlers render apis handlersPath w = (Throw "TypeError", w).
Proof.
  intros Hin Hproto. unfold Create.createHandlers.
  by rewrite (collect_prototype [] apis api Hin Hproto).
Qed.

Lemma prototype_pathname_aborts_witness :
  Create.createHandlers Create.render_names
    (Create.pets_apis ++ [{| Create.api_path := "/toString/{id}"; Create.operations := [] |}])
    ["handlers"] Create.fresh_world
  = (Throw "TypeError", Create.fresh_world).
Proof.
  apply (prototype_pathname_aborts Create.render_names _ ["handlers"] Create.fresh_world
           {| Create.api_path := "/toString/{id}"; Create.operations := [] |}).
  - do 2 apply list_elem_of_further. apply list_elem_of_here.
  - change (Create.pathname_of _) with "toString". unfold Create.prototype_keys.
    do 6 apply list_elem_of_further. apply list_elem_of_here.
Defined.

(** X27. When [createModels] ends without exception, every model has its
    file, named after the model in lower case. A file that was there before
    is left as it was and a warning names it. A file that was not there holds
    the rendering of a model with this file name, which need not be this
    model: models whose names differ in case only share one file. *)
Theorem models_written_or_warned {Model : Type} (render_model : Model → string)
    (models : list (string * Model)) (modelsPath : list string) (w : Create.World)
    (modelName : string) (model : Model) :
  (Create.createModels Model render_model models modelsPath w).1 = Ok () →
  JsObject.get models modelName = Some model →
  (is_Some (Create.fs w !! model_file modelsPath modelName) →
     Create.fs (Create.createModels Model render_model models modelsPath w).2
       !! model_file modelsPath modelName
     = Create.fs w !! model_file modelsPath modelName
     ∧ model_file modelsPath modelName
         ∈ Create.warned (Create.createModels Model render_model models modelsPath w).2)
  ∧ (Create.fs w !! model_file modelsPath modelName = None →
       ∃ modelName' model',
         JsObject.get models modelName' = Some model'
         ∧ model_file modelsPath modelName' = model_file modelsPath modelName
         ∧ Create.fs (Create.createModels Model render_model models modelsPath w).2
             !! model_file modelsPath modelName
           = Some (Create.File (render_model model'))).
Proof.
  intros Hok Hget. unfold Create.createModels in Hok |- *.
  set (entries := omap _ (Create.own_keys models)) in Hok |- *.
  assert ((modelName, model) ∈ entries) as Hin.
  { apply list_elem_of_omap. exists modelName. split.
    - apply own_keys_elem_of. by eapply get_elem_of_keys.
    - by rewrite Hget. }
  destruct (write_models_result render_model modelsPath entries w Hok _ Hin) as [Hthere Hnew].
  cbn [fst] in Hthere, Hnew. split.
  - intros Hsome. split; [|by apply Hthere]. destruct Hsome as [n Hn]. rewrite Hn.
    by apply keeps_write_models.
  - intros Hnone. destruct (Hnew Hnone) as ([name' model'] & Hin' & Heq & Hfs).
    exists name', model'. split; [|done].
    apply list_elem_of_omap in Hin' as (k & _ & Hk).
    destruct (JsObject.get models k) as [m|] eqn:Hm; [|done]. by injection Hk as -> ->.
Qed.

Lemma models_written_or_warned_witness :
  ∃ modelName' model',
    JsObject.get pet_models modelName' = Some model'
    ∧ model_file ["models"] modelName' = model_file ["models"] "PET"
    ∧ Create.fs (Create.createModels string render_text pet_models ["models"] models_world).2
        !! model_file ["models"] "PET"
      = Some (Create.File (render_text model')).
Proof.
  apply (proj2 (models_written_or_warned render_text pet_models ["models"] models_world
                  "PET" "another pet" ltac:(vm_compute; reflexivity) eq_refl)).
  vm_compute. reflexivity.
Defined.

Example models_first_name_wins :
  Create.createModels string render_text pet_models ["models"] models_world
  = (Ok (), {| Create.fs := {[ ["models"] := Create.Dir;
                               ["models"; "pet.js"] := Create.File "model: a pet";
                               ["models"; "error.js"] := Create.File "model: an error" ]};
               Create.warned := [["models"; "pet.js"]] |}).
Proof. vm_compute. reflexivity. Qed.


(** ** The scopes of the scheme that authorizes *)

Lemma some_passed_first defs (failed later : list (string * Scheme)) (entry : string * Scheme)
    errors (r req : Req) res :
  (∀ v, set_requiredScopes r v = set_requiredScopes req v) →
  Forall (fun e => ¬ authorizes defs req res e) failed →
  authorizes defs req res entry →
  (some_passed defs (failed ++ entry :: later) errors None r res).1
  = next (set_requiredScopes req (scopes entry.2)) res.
Proof.
  revert errors r. induction failed as [|[type scheme] failed IH]; intros errors r Hr Hall Hauth.
  - destruct entry as [type scheme]. destruct Hauth as [[f Hf] Ht].
    unfold report in Ht. cbn [fst snd] in Hf, Ht. rewrite Hf in Ht.
    cbn [app some_passed snd]. rewrite Hf, Hr. fold (definition_of defs type).
    by rewrite Ht, some_passed_called.
  - apply Forall_cons in Hall as [Hhead Hall]. cbn [app some_passed].
    destruct (authorize scheme) as [f|] eqn:Hf.
    + fold (definition_of defs type). rewrite Hr.
      destruct (truthy (f _ _ res)) eqn:Ht.
      * apply IH; [|done|done]. intros v. reflexivity.
      * exfalso. apply Hhead. split; [cbn [snd]; by rewrite Hf|].
        unfold report. cbn [fst snd]. by rewrite Hf.
    + by apply IH.
Qed.

Lemma consulted_app (l1 l2 : list (string * Scheme)) (r : Req) :
  consulted (l1 ++ l2) r = consulted l2 (consulted l1 r).
Proof. unfold consulted. by rewrite foldl_app. Qed.

Lemma consulted_cons (entry : string * Scheme) (l : list (string * Scheme)) (r : Req) :
  consulted (entry :: l) r
  = consulted l match authorize entry.2 with
                | Some _ => set_requiredScopes r (scopes entry.2)
                | None => r
                end.
Proof. reflexivity. Qed.

Lemma consulted_scopes (l : list (string * Scheme)) (r : Req) v :
  set_requiredScopes (consulted l r) v = set_requiredScopes r v.
Proof.
  revert r. induction l as [|entry l IH]; intros r; [done|].
  rewrite consulted_cons. destruct (authorize entry.2); by rewrite IH.
Qed.

Lemma consulted_without_callback (l : list (string * Scheme)) (r : Req) :
  Forall (fun e => authorize e.2 = None) l → consulted l r = r.
Proof.
  induction 1 as [|entry l Hentry _ IH]; [done|].
  by rewrite consulted_cons, Hentry.
Qed.

(** X28. With authorize callbacks that call their continuation before they
    return: when a scheme authorizes the request after those before it
    failed, next is called on the request with [requiredScopes] set to the
    scopes of this scheme and nothing else changed. The schemes after it are
    consulted all the same, each one with a callback writing its scopes, so
    that when the middleware returns [req.requiredScopes] holds the scopes of
    the last scheme that has a callback, not those of the scheme that
    authorized. *)
Theorem authorized_request_scopes (failed later : list (string * Scheme))
    (entry : string * Scheme) (securityDefinitions : option (gmap string JsVal))
    (req : Req) (res : Res) :
  Forall (fun e => ¬ authorizes securityDefinitions req res e) failed →
  authorizes securityDefinitions req res entry →
  authorizeFor (failed ++ entry :: later) securityDefinitions req res
  = next (set_requiredScopes req (scopes entry.2)) res
  ∧ authorize_leaves (failed ++ entry :: later) securityDefinitions req res
    = consulted later (set_requiredScopes req (scopes entry.2))
  ∧ ∀ before last after,
      later = before ++ last :: after → is_Some (authorize last.2) →
      Forall (fun e => authorize e.2 = None) after →
      requiredScopes
        (authorize_leaves (failed ++ entry :: later) securityDefinitions req res)
      = scopes last.2.
Proof.
  intros Hall Hauth.
  assert (authorize_leaves (failed ++ entry :: later) securityDefinitions req res
          = consulted later (set_requiredScopes req (scopes entry.2))) as Hleaves.
  { unfold authorize_leaves. rewrite some_passed_leaves, consulted_app, consulted_cons.
    destruct Hauth as [[f Hf] _]. by rewrite Hf, consulted_scopes. }
  split; [unfold authorizeFor; by apply some_passed_first|]. split; [exact Hleaves|].
  intros before last after -> [f Hf] Hafter.
  rewrite Hleaves, consulted_app, consulted_cons, Hf.
  by rewrite consulted_without_callback.
Qed.

Lemma authorized_request_scopes_witness :
  authorizeFor
    [("api_key", {| scopes := Some ["admin"]; authorize := Some deny |});
     ("oauth", {| scopes := Some ["read"]; authorize := Some allow |});
     ("basic", {| scopes := Some ["write"]; authorize := Some deny |})]
    None (request "GET" [] None) res0
  = next (set_requiredScopes (request "GET" [] None) (Some ["read"])) res0
  ∧ requiredScopes
      (authorize_leaves
         [("api_key", {| scopes := Some ["admin"]; authorize := Some deny |});
          ("oauth", {| scopes := Some ["read"]; authorize := Some allow |});
          ("basic", {| scopes := Some ["write"]; authorize := Some deny |})]
         None (request "GET" [] None) res0)
    = Some ["write"].
Proof.
  destruct (authorized_request_scopes
              [("api_key", {| scopes := Some ["admin"]; authorize := Some deny |})]
              [("basic", {| scopes := Some ["write"]; authorize := Some deny |})]
              ("oauth", {| scopes := Some ["read"]; authorize := Some allow |})
              None (request "GET" [] None) res0) as (Hnext & _ & Hlast).
  - apply Forall_cons. split; [|by apply Forall_nil]. intros [_ Ht]. discriminate Ht.
  - split; [by eexists | reflexivity].
  - split; [exact Hnext|].
    apply (Hlast [] ("basic", {| scopes := Some ["write"]; authorize := Some deny |}) []);
      [reflexivity | by eexists | by apply Forall_nil].
Defined.

(** ** Standard routes: [routeFilter] and the definition attached to a request *)

Section StandardRoutes.

Lemma split_slash_cons s : ∃ h t, Js.split_slash s = h :: t.
Proof.
  induction s as [|c s (h & t & IH)]; [by eexists _, _|].
  cbn [Js.split_slash]. rewrite IH.
  destruct c as [[] [] [] [] [] [] [] []]; by eexists _, _.
Qed.

Lemma split_slash_slash s : Js.split_slash (String "/" s) = "" :: Js.split_slash s.
Proof. reflexivity. Qed.

Lemma split_slash_other c s h t :
  c ≠ "/"%char → Js.split_slash s = h :: t → Js.split_slash (String c s) = String c h :: t.
Proof.
  intros Hc Hs. cbn [Js.split_slash]. rewrite Hs.
  destruct c as [[] [] [] [] [] [] [] []]; done.
Qed.

(** Splitting distributes over a slash. *)
Lemma split_slash_app a b :
  Js.split_slash (a +:+ "/" +:+ b) = Js.split_slash a ++ Js.split_slash b.
Proof.
  induction a as [|c a IH]; [done|].
  rewrite string_app_cons. destruct (Ascii.eqb_spec c "/") as [->|Hc].
  - by rewrite !split_slash_slash, IH.
  - destruct (split_slash_cons a) as (h & t & Ha). rewrite Ha in IH.
    rewrite (split_slash_other c _ h (t ++ Js.split_slash b)) by done.
    by rewrite (split_slash_other c a h t).
Qed.

Lemma split_slash_plain a : Js.includes a "/" = false → Js.split_slash a = [a].
Proof.
  induction a as [|c a IH]; [done|]. rewrite includes_char.
  intros Hinc. apply orb_false_iff in Hinc as [Hc Ha].
  apply (split_slash_other c a a []); [|by apply IH].
  intros ->. by rewrite Ascii.eqb_refl in Hc.
Qed.

Lemma split_slash_levels s : Forall (fun l => Js.includes l "/" = false) (Js.split_slash s).
Proof.
  induction s as [|c s IH]; [by repeat constructor|].
  destruct (Ascii.eqb_spec c "/") as [->|Hc].
  - rewrite split_slash_slash. by constructor.
  - destruct (split_slash_cons s) as (h & t & Hs). rewrite Hs in IH.
    rewrite (split_slash_other c s h t) by done.
    apply Forall_cons in IH as [Hh Ht]. constructor; [|done].
    rewrite includes_char, Hh, orb_false_r. apply Ascii.eqb_neq. congruence.
Qed.

(** Joining the levels of a string with slashes gives the string back. *)
Lemma join_split_slash s : Js.join "/" (Js.split_slash s) = s.
Proof.
  induction s as [|c s IH]; [done|].
  destruct (split_slash_cons s) as (h & t & Hs). rewrite Hs in IH.
  destruct (Ascii.eqb_spec c "/") as [->|Hc].
  - rewrite split_slash_slash, Hs.
    change (Js.join "/" ("" :: h :: t)) with ("" +:+ "/" +:+ Js.join "/" (h :: t)).
    by rewrite IH.
  - rewrite (split_slash_other c s h t) by done. rewrite <- IH.
    destruct t as [|h' t]; [done|].
    change (Js.join "/" (String c h :: h' :: t))
      with (String c h +:+ "/" +:+ Js.join "/" (h' :: t)).
    change (Js.join "/" (h :: h' :: t)) with (h +:+ "/" +:+ Js.join "/" (h' :: t)).
    by rewrite string_app_cons.
Qed.

Lemma fold_levels levels out :
  fold_left
    (fun out level =>
       match level with
       | EmptyString => out
       | String c _ =>
           if Ascii.eqb c ":" || Ascii.eqb c "{" then out +:+ "/:x"
           else out +:+ "/" +:+ level
       end) levels out
  = out +:+ String.concat "" (standard_level <$> levels).
Proof.
  revert out. induction levels as [|level levels IH]; intros out.
  - by rewrite string_app_nil_r.
  - cbn [fold_left]. rewrite IH. clear IH.
    assert (∀ xs : list string, String.concat "" ("" :: xs) = String.concat "" xs) as Hnil.
    { intros [|x xs]; reflexivity. }
    assert (∀ (x : string) (xs : list string),
              String.concat "" (x :: xs) = x +:+ String.concat "" xs) as Hcons.
    { intros x [|y xs]; cbn [String.concat]; [by rewrite string_app_nil_r | done]. }
    rewrite fmap_cons, Hcons. destruct level as [|c level]; cbn [standard_level]; [done|].
    destruct (Ascii.eqb c ":" || Ascii.eqb c "{"); by rewrite !string_app_assoc.
Qed.

Lemma routeFilter_levels route :
  routeFilter route = String.concat "" (standard_level <$> Js.split_slash route).
Proof. unfold routeFilter. by rewrite fold_levels. Qed.

Lemma concat_cons (x : string) (xs : list string) :
  String.concat "" (x :: xs) = x +:+ String.concat "" xs.
Proof. destruct xs; cbn [String.concat]; [by rewrite string_app_nil_r | done]. Qed.

Lemma concat_app (xs ys : list string) :
  String.concat "" (xs ++ ys) = String.concat "" xs +:+ String.concat "" ys.
Proof.
  induction xs as [|x xs IH]; [done|].
  by rewrite <- app_comm_cons, !concat_cons, IH, string_app_assoc.
Qed.

(** The standard form of a route after a base path. *)
Lemma routeFilter_app a b :
  routeFilter (a +:+ "/" +:+ b) = routeFilter a +:+ routeFilter ("/" +:+ b).
Proof.
  rewrite !routeFilter_levels, split_slash_app, fmap_app, concat_app.
  change ("/" +:+ b) with (String "/" b).
  by rewrite split_slash_slash, fmap_cons, concat_cons.
Qed.

(** A standard route is empty or begins with a slash that another character
    follows. *)
Lemma routeFilter_shape route :
  routeFilter route = ""
  ∨ ∃ c rest, routeFilter route = String "/" (String c rest) ∧ c ≠ "/"%char.
Proof.
  rewrite routeFilter_levels. pose proof (split_slash_levels route) as Hall.
  induction Hall as [|level levels Hlevel _ IH]; [by left|].
  rewrite fmap_cons, concat_cons. destruct level as [|c level]; [done|].
  right. cbn [standard_level].
  destruct (Ascii.eqb c ":" || Ascii.eqb c "{").
  - by eexists ":"%char, _.
  - exists c. eexists. split; [reflexivity|]. rewrite includes_char in Hlevel.
    apply orb_false_iff in Hlevel as [Hc _]. intros ->. by rewrite Ascii.eqb_refl in Hc.
Qed.

Lemma includes_char_app d (a b : string) :
  Js.includes (a +:+ b) (String d "")
  = Js.includes a (String d "") || Js.includes b (String d "").
Proof.
  induction a as [|c a IH].
  - rewrite string_app_nil. cbn [Js.includes Js.startsWith]. done.
  - rewrite string_app_cons, !includes_char, IH. by rewrite orb_assoc.
Qed.

(** The conversion of a template level that is followed by more. *)
Lemma replace_params_level level rest :
  template_level level →
  replace_params (level +:+ rest) None
  = replace_params level None +:+ replace_params rest None.
Proof.
  intros [Hplain | (name & -> & Hne & Hname)].
  - rewrite replace_params_prefix by done. by rewrite (replace_params_plain level).
  - assert (∀ rest, replace_params (("{" +:+ name +:+ "}") +:+ rest) None
                    = ":" +:+ name +:+ replace_params rest None) as Hparam.
    { intros r. rewrite !string_app_assoc.
      change ("{" +:+ name +:+ "}" +:+ r) with (String "{" (name +:+ String "}" r)).
      cbn [replace_params]. rewrite Ascii.eqb_refl.
      rewrite replace_params_pending; [done | done | by rewrite string_app_nil]. }
    pose proof (Hparam "") as Hlast. rewrite string_app_nil_r in Hlast.
    rewrite Hparam, Hlast. cbn [replace_params].
    by rewrite string_app_nil_r, !string_app_assoc.
Qed.

Lemma standard_level_converted level :
  template_level level →
  standard_level (replace_params level None) = standard_level level.
Proof.
  intros [Hplain | (name & -> & Hne & Hname)].
  - by rewrite replace_params_plain.
  - pose proof (replace_params_level ("{" +:+ name +:+ "}") "") as Hconv.
    rewrite string_app_nil_r in Hconv. cbn [replace_params] in Hconv.
    change ("{" +:+ name +:+ "}") with (String "{" (name +:+ "}")) in *.
    cbn [replace_params] in Hconv |- *. rewrite Ascii.eqb_refl in Hconv |- *.
    rewrite (replace_params_pending name "" "") by (by rewrite ?string_app_nil).
    done.
Qed.

Lemma converted_level_plain level :
  template_level level → Js.includes level "/" = false →
  Js.includes (replace_params level None) "/" = false.
Proof.
  intros [Hplain | (name & -> & Hne & Hname)] Hslash.
  - by rewrite replace_params_plain.
  - change ("{" +:+ name +:+ "}") with (String "{" (name +:+ "}")) in *.
    cbn [replace_params]. rewrite Ascii.eqb_refl.
    rewrite (replace_params_pending name "" "") by (by rewrite ?string_app_nil).
    cbn [replace_params]. rewrite string_app_nil, string_app_nil_r.
    rewrite includes_char, includes_char_app in Hslash.
    apply orb_false_iff in Hslash as [_ Hslash]. apply orb_false_iff in Hslash as [Hn _].
    change (":" +:+ name) with (String ":" name). by rewrite includes_char, Hn.
Qed.

(** The levels of a converted template are the converted levels. *)
Lemma split_slash_converted levels :
  levels ≠ [] →
  Forall template_level levels →
  Forall (fun l => Js.includes l "/" = false) levels →
  Js.split_slash (replace_params (Js.join "/" levels) None)
  = (fun level => replace_params level None) <$> levels.
Proof.
  intros Hne Htemplate Hplain. induction levels as [|level levels IH]; [done|].
  apply Forall_cons in Htemplate as [Hlevel Htemplate].
  apply Forall_cons in Hplain as [Hslash Hplain].
  destruct levels as [|level' levels].
  - cbn [Js.join fmap list_fmap]. apply split_slash_plain. by apply converted_level_plain.
  - change (Js.join "/" (level :: level' :: levels))
      with (level +:+ "/" +:+ Js.join "/" (level' :: levels)).
    rewrite replace_params_level by done.
    change ("/" +:+ Js.join "/" (level' :: levels))
      with (String "/" (Js.join "/" (level' :: levels))).
    cbn [replace_params]. change (Ascii.eqb "/" "{") with false. cbv iota.
    change (String "/" ?s) with ("/" +:+ s).
    rewrite split_slash_app, IH by done.
    rewrite split_slash_plain by (by apply converted_level_plain). done.
Qed.

(** A template and its conversion have one standard form. *)
Lemma routeFilter_converted path :
  Forall template_level (Js.split_slash path) →
  routeFilter (replace_params path None) = routeFilter path.
Proof.
  intros Htemplate. rewrite !routeFilter_levels.
  rewrite <- (join_split_slash path) at 1.
  rewrite split_slash_converted; [| |done|apply split_slash_levels].
  - rewrite <- list_fmap_compose. f_equal. apply Forall_fmap_ext_1.
    eapply Forall_impl; [exact Htemplate|]. intros level Hl. by apply standard_level_converted.
  - destruct (split_slash_cons path) as (h & t & ->). done.
Qed.

Lemma substring_all s n : (String.length s ≤ n)%nat → String.substring 0 n s = s.
Proof.
  revert n. induction s as [|c s IH]; intros n Hn; [by destruct n|].
  destruct n as [|n]; cbn [String.length] in Hn; [lia|].
  cbn [String.substring]. rewrite IH; [done | lia].
Qed.

Lemma substring_skip a b n :
  String.substring (String.length a) n (a +:+ b) = String.substring 0 n b.
Proof. induction a as [|c a IH]; [done|]. by rewrite string_app_cons. Qed.

(** Removing a string from the front of what begins with it. *)
Lemma remove_first_prefix a b : remove_first (a +:+ b) a = b.
Proof.
  assert (Js.startsWith (a +:+ b) a = true) as Hstarts by (apply startsWith_spec; by exists b).
  destruct (a +:+ b) as [|c s] eqn:Hs.
  - cbn [remove_first]. rewrite Hstarts. rewrite <- Hs, substring_skip.
    apply substring_all. rewrite string_length_app. lia.
  - cbn [remove_first]. rewrite Hstarts. rewrite <- Hs, substring_skip.
    apply substring_all. rewrite string_length_app. lia.
Qed.

End StandardRoutes.


Section AttachedDefinition.
Context `{Utils}.

Lemma get_app_absent {V} (before l : list (string * V)) k :
  Forall (fun entry => entry.1 ≠ k) before →
  JsObject.get (before ++ l) k = JsObject.get l k.
Proof.
  induction 1 as [|[k' v] before Hk _ IH]; [done|].
  cbn [app JsObject.get]. cbn [fst] in Hk. by rewrite eqb_false_of_ne.
Qed.

Lemma filter_none (Q : string → Prop) `{∀ x, Decision (Q x)} (l : list string) :
  Forall (fun x => ¬ Q x) l → filter Q l = [].
Proof.
  induction 1 as [|x l Hx _ IH]; [done|]. by rewrite filter_cons_False.
Qed.

Lemma filter_first (Q : string → Prop) `{∀ x, Decision (Q x)} (before after : list string) k :
  Forall (fun x => ¬ Q x) before → Q k →
  hd "undefined" (filter Q (before ++ k :: after)) = k.
Proof.
  intros Hbefore Hk. rewrite filter_app, filter_none by done.
  by rewrite app_nil_l, filter_cons_True.
Qed.

End AttachedDefinition.

(** X29. The first function of a group of the newer pipeline attaches to
    the request the part of the API document that describes the operation:
    for a route whose path template stands in [paths], each of its levels
    free of braces or one parameter in braces, under a base path in standard
    form, [req.swaggerDefinition] becomes the entry of the lower-case method
    in the object of this path, provided no earlier path of the document has
    the same standard form. Nothing else of the request changes and the
    request goes on. The keys of [paths] begin with a slash, as the paths of
    an API document do, so that [Object.keys] lists them as they were
    written. *)
Theorem swagger_definition_attached `{Utils} (b P : string) (api : Api)
    (before after documented : list (string * JsVal)) (req : Req) (res : Res) :
  basePath api = Some b → routeFilter b = b →
  paths api = Some (before ++ (P, JObject documented) :: after) →
  Forall (fun entry => Js.startsWith entry.1 "/" = true) (before ++ after) →
  Forall (fun entry => routeFilter entry.1 ≠ routeFilter P) before →
  Forall template_level (Js.split_slash P) →
  Js.startsWith P "/" = true →
  prefix (replace_params P None) "/" = replace_params P None →
  appendSwaggerDefinitionsToReq (buildRoutePath b P) api req res
  = Ok (next (set_swaggerDefinition req
                (default JUndefined
                   (JsObject.get documented (Js.toLowerCase (req_method req))))) res).
Proof.
  intros Hbase Hb Hpaths _ Hbefore Htemplate Hslash Hprefix.
  assert (remove_first (routeFilter (buildRoutePath b P)) b = routeFilter P) as Hroute.
  { unfold buildRoutePath. rewrite Hprefix.
    rewrite <- (routeFilter_converted P) by done.
    apply startsWith_spec in Hslash as [rest ->].
    change ("/" +:+ rest) with (String "/" rest). cbn [replace_params].
    change (Ascii.eqb "/" "{") with false. cbv iota.
    change (String "/" (replace_params rest None)) with ("/" +:+ replace_params rest None).
    by rewrite routeFilter_app, Hb, remove_first_prefix. }
  assert (JsObject.get (before ++ (P, JObject documented) :: after) P
          = Some (JObject documented)) as Hget.
  { rewrite get_app_absent.
    - cbn [JsObject.get]. by rewrite String.eqb_refl.
    - eapply Forall_impl; [exact Hbefore|]. intros entry Hne Heq. apply Hne.
      by rewrite Heq. }
  unfold appendSwaggerDefinitionsToReq. rewrite Hbase, Hpaths. cbn [default from_option id].
  rewrite Hroute. unfold JsObject.keys. rewrite fmap_app, fmap_cons. cbn [fst].
  rewrite filter_first.
  - unfold id. rewrite Hget. done.
  - apply Forall_fmap. eapply Forall_impl; [exact Hbefore|].
    intros entry Hne [Heq _]. apply Hne. by apply String.eqb_eq.
  - split; [apply String.eqb_refl|]. unfold id. by rewrite Hget.
Qed.

Lemma swagger_definition_attached_witness :
  appendSwaggerDefinitionsToReq "/v1/pets/:id"
    (served_api (H := sample_utils) documented_pet_options) (request "GET" [] None) res0
  = Ok (next (set_swaggerDefinition (request "GET" [] None) (JStr "find a pet")) res0).
Proof.
  refine (swagger_definition_attached (H := sample_utils) "/v1" "/pets/{id}"
            (served_api (H := sample_utils) documented_pet_options)
            [("/pets", JObject [("get", JStr "list the pets"); ("post", JStr "add a pet")])]
            [] [("get", JStr "find a pet")] (request "GET" [] None) res0
            eq_refl eq_refl eq_refl _ _ _ eq_refl eq_refl).
  - apply Forall_cons. split; [reflexivity | by apply Forall_nil].
  - apply Forall_cons. split; [|by apply Forall_nil]. vm_compute. discriminate.
  - change (Js.split_slash "/pets/{id}") with [""; "pets"; "{id}"].
    repeat (apply Forall_cons; split); [by left | by left | | by apply Forall_nil].
    right. exists "id". split; [reflexivity|]. split; [discriminate | reflexivity].
Defined.

(** X30. With the base path [/], the one of an application mounted at the
    root with an API document that gives none, no definition is attached:
    the base path is removed from the standard route once, which takes the
    leading slash away, and no standard path of the document matches what is
    left. [req.swaggerDefinition] is undefined for every route but the
    root. *)
Theorem root_base_path_no_definition (routePath : string) (api : Api)
    (ps : list (string * JsVal)) (req : Req) (res : Res) :
  basePath api = Some "/" → paths api = Some ps →
  JsObject.get ps "undefined" = None →
  routeFilter routePath ≠ "" →
  appendSwaggerDefinitionsToReq routePath api req res
  = Ok (next (set_swaggerDefinition req JUndefined) res).
Proof.
  intros Hbase Hpaths Hundefined Hroute.
  destruct (routeFilter_shape routePath) as [Hempty | (c & rest & Hshape & Hc)]; [done|].
  unfold appendSwaggerDefinitionsToReq. rewrite Hbase, Hpaths. cbn [default from_option id].
  rewrite Hshape. change (String "/" (String c rest)) with ("/" +:+ String c rest).
  rewrite remove_first_prefix. rewrite filter_none.
  - cbn [hd]. unfold id. by rewrite Hundefined.
  - apply Forall_forall. intros path _ [Heq _]. apply String.eqb_eq in Heq.
    destruct (routeFilter_shape path) as [Hp | (c' & rest' & Hp & _)];
      rewrite Hp in Heq; [discriminate|]. injection Heq as <- _. done.
Qed.

Lemma root_base_path_no_definition_witness :
  appendSwaggerDefinitionsToReq "/pets/:id"
    {| basePath := Some "/"; securityDefinitions := None; paths := Some pet_paths |}
    (request "GET" [] None) res0
  = Ok (next (set_swaggerDefinition (request "GET" [] None) JUndefined) res0).
Proof.
  refine (root_base_path_no_definition "/pets/:id"
            {| basePath := Some "/"; securityDefinitions := None; paths := Some pet_paths |}
            pet_paths (request "GET" [] None) res0 eq_refl eq_refl eq_refl _).
  vm_compute. discriminate.
Defined.
